(** * EvilKitten: the chat store and the DashScope streaming service

A shallow embedding of [stores/chat.ts] (the Pinia store [useChatStore])
and of [api/services/DashScopeService.ts] ([sendStreamMessage]), with the
properties of the conversation-streaming pipeline proved about them.

Conventions.
- A JavaScript string is the list of its UTF-16 code units ([jsstring]);
  [.length], [.slice] and [.trim] work on code units, as in the engine.
- [Date.now()] and [Math.random()] belong to the platform: their results
  are read from two oracles, indexed by the number of platform calls
  made so far (the field [ticks] of the store).
- [JSON.stringify] and [JSON.parse] belong to the platform as well and
  are parameters of the development.
- [localStorage] is a finite map from keys to strings; [setItem] is
  taken to succeed. *)

From Stdlib Require Import ZArith NArith Ascii String DecimalString.
From stdpp Require Import base option list gmap.

Local Open Scope Z_scope.

(** ** JavaScript strings *)

Definition jsstring : Type := list N.

(** The code units of an ASCII literal. *)
Definition js (s : string) : jsstring :=
  (λ a, N_of_ascii a) <$> list_ascii_of_string s.

Arguments js : simpl never.

(** [String(n)] for an integral number. *)
Definition ToString_Z (z : Z) : jsstring :=
  js (NilZero.string_of_int (Z.to_int z)).

(** WhiteSpace and LineTerminator code points, the ones [trim] strips. *)
Definition isWhiteSpace (c : N) : bool :=
  ((c =? 9) || (c =? 10) || (c =? 11) || (c =? 12) || (c =? 13) || (c =? 32)
   || (c =? 160) || (c =? 5760) || ((8192 <=? c) && (c <=? 8202))
   || (c =? 8232) || (c =? 8233) || (c =? 8239) || (c =? 8287)
   || (c =? 12288) || (c =? 65279))%N.

Fixpoint trimStart (s : jsstring) : jsstring :=
  match s with
  | c :: s' => if isWhiteSpace c then trimStart s' else s
  | [] => []
  end.

Definition trimEnd (s : jsstring) : jsstring := reverse (trimStart (reverse s)).

Definition trim (s : jsstring) : jsstring := trimEnd (trimStart s).

Fixpoint startsWith (s p : jsstring) : bool :=
  match p, s with
  | [], _ => true
  | a :: p', b :: s' => (a =? b)%N && startsWith s' p'
  | _ :: _, [] => false
  end.

(** [s.split('\n')]: never empty, one more piece than there are newlines. *)
Fixpoint split_lines (s : jsstring) : list jsstring :=
  match s with
  | [] => [[]]
  | c :: s' =>
      if (c =? 10)%N then [] :: split_lines s'
      else match split_lines s' with
           | l :: ls => (c :: l) :: ls
           | [] => [[c]]
           end
  end.

(** ** The data model ([types/index.ts]) *)

Inductive MessageRole := user | assistant.

Global Instance MessageRole_eq_dec : EqDecision MessageRole.
Proof. solve_decision. Defined.

Module Message.
Record t := mk {
  id : jsstring;
  role : MessageRole;
  content : jsstring;
  timestamp : Z;
  isStreaming : option bool;
  reasoningContent : option jsstring
}.

Definition set_content (v : jsstring) (m : t) : t :=
  mk (id m) (role m) v (timestamp m) (isStreaming m) (reasoningContent m).
Definition set_reasoningContent (v : jsstring) (m : t) : t :=
  mk (id m) (role m) (content m) (timestamp m) (isStreaming m) (Some v).
Definition set_isStreaming (v : bool) (m : t) : t :=
  mk (id m) (role m) (content m) (timestamp m) (Some v) (reasoningContent m).
End Message.

(** [Omit<Message, 'id' | 'timestamp'>], the argument of [addMessage]. *)
Module PartialMessage.
Record t := mk {
  role : MessageRole;
  content : jsstring;
  isStreaming : option bool;
  reasoningContent : option jsstring
}.
End PartialMessage.

Module Conversation.
Record t := mk {
  id : jsstring;
  title : jsstring;
  messages : list Message.t;
  createdAt : Z;
  updatedAt : Z
}.

Definition set_title (v : jsstring) (c : t) : t :=
  mk (id c) v (messages c) (createdAt c) (updatedAt c).
Definition set_messages (v : list Message.t) (c : t) : t :=
  mk (id c) (title c) v (createdAt c) (updatedAt c).
Definition set_updatedAt (v : Z) (c : t) : t :=
  mk (id c) (title c) (messages c) (createdAt c) v.
End Conversation.

(** What the store writes to the console. *)
Inductive StoreLog :=
| LogLoadFailed        (* console.error('加载对话失败:', e) *)
| LogApiError          (* console.error('API 响应错误:', error) *)
| LogSendFailed.       (* console.error('发送消息失败:', error) *)

(** The state of the store: its four refs, and the part of the platform it
    talks to. *)
Record Store := mkStore {
  conversations : list Conversation.t;
  activeConversationId : option jsstring;
  isLoading : bool;
  isStreaming : bool;
  localStorage : gmap jsstring jsstring;
  console : list StoreLog;
  ticks : nat
}.

Definition set_conversations (v : list Conversation.t) (s : Store) : Store :=
  mkStore v (activeConversationId s) (isLoading s) (isStreaming s)
          (localStorage s) (console s) (ticks s).
Definition set_activeConversationId (v : option jsstring) (s : Store) : Store :=
  mkStore (conversations s) v (isLoading s) (isStreaming s)
          (localStorage s) (console s) (ticks s).
Definition set_isLoading (v : bool) (s : Store) : Store :=
  mkStore (conversations s) (activeConversationId s) v (isStreaming s)
          (localStorage s) (console s) (ticks s).
Definition set_isStreaming (v : bool) (s : Store) : Store :=
  mkStore (conversations s) (activeConversationId s) (isLoading s) v
          (localStorage s) (console s) (ticks s).
Definition set_localStorage (v : gmap jsstring jsstring) (s : Store) : Store :=
  mkStore (conversations s) (activeConversationId s) (isLoading s)
          (isStreaming s) v (console s) (ticks s).
Definition log_store (e : StoreLog) (s : Store) : Store :=
  mkStore (conversations s) (activeConversationId s) (isLoading s)
          (isStreaming s) (localStorage s) (console s ++ [e]) (ticks s).
Definition set_ticks (v : nat) (s : Store) : Store :=
  mkStore (conversations s) (activeConversationId s) (isLoading s)
          (isStreaming s) (localStorage s) (console s) v.

(** The initial state of [defineStore('chat', ...)]. *)
Definition initialStore (ls : gmap jsstring jsstring) : Store :=
  mkStore [] None false false ls [] 0.

(** [x || null] for a string. *)
Definition or_null (x : jsstring) : option jsstring :=
  match x with [] => None | _ => Some x end.

(** '新对话' *)
Definition defaultTitle : jsstring := [26032; 23545; 35805]%N.

Definition key_conversations : jsstring := js "conversations".
Definition key_activeConversationId : jsstring := js "activeConversationId".

(** [c => c.id === id] and [m => m.id === id] *)
Definition conv_has_id (i : jsstring) (c : Conversation.t) : Prop :=
  Conversation.id c = i.
Definition msg_has_id (i : jsstring) (m : Message.t) : Prop :=
  Message.id m = i.

Global Instance conv_has_id_dec i c : Decision (conv_has_id i c).
Proof. unfold conv_has_id. apply _. Defined.
Global Instance msg_has_id_dec i m : Decision (msg_has_id i m).
Proof. unfold msg_has_id. apply _. Defined.

(** [arr.find(p)] and [arr.findIndex(p)] *)
Definition find {A} (P : A → Prop) `{∀ x, Decision (P x)} (l : list A)
  : option A := snd <$> list_find P l.
Definition findIndex {A} (P : A → Prop) `{∀ x, Decision (P x)} (l : list A)
  : option nat := fst <$> list_find P l.

Section store.

(** The platform. *)
Variable Date_now : nat → Z.
Variable Math_random_36 : nat → jsstring.
    (* Math.random().toString(36).substring(2, 11) *)
Variable JSON_stringify : list Conversation.t → jsstring.
Variable JSON_parse : jsstring → option (list Conversation.t).
    (* None: JSON.parse throws; Some cs: it returns the array of
       conversations cs.  The store is typed as the source types it
       (Conversation[]): a text that parses to anything else is outside the
       model, and what is proved of loading says what the parse returns. *)

(** [Date.now()] *)
Definition now (s : Store) : Z * Store :=
  (Date_now (ticks s), set_ticks (S (ticks s)) s).

(** [generateId]: [`${Date.now()}-${Math.random()...}`] *)
Definition generateId (s : Store) : jsstring * Store :=
  let '(t, s) := now s in
  let r := Math_random_36 (ticks s) in
  (ToString_Z t ++ js "-" ++ r, set_ticks (S (ticks s)) s).

(** [activeConversation] (computed) *)
Definition activeConversation (s : Store) : option Conversation.t :=
  find (λ c, Some (Conversation.id c) = activeConversationId s)
       (conversations s).

Definition saveConversations (s : Store) : Store :=
  let ls := <[key_conversations := JSON_stringify (conversations s)]>
              (localStorage s) in
  let ls := <[key_activeConversationId :=
                default [] (activeConversationId s)]> ls in
  set_localStorage ls s.

Definition createConversation (s : Store) : Conversation.t * Store :=
  let '(i, s) := generateId s in
  let '(t1, s) := now s in
  let '(t2, s) := now s in
  let newConversation := Conversation.mk i defaultTitle [] t1 t2 in
  let s := set_conversations (newConversation :: conversations s) s in
  let s := set_activeConversationId (Some (Conversation.id newConversation)) s in
  let s := saveConversations s in
  (newConversation, s).

Definition deleteConversation (i : jsstring) (s : Store) : Store :=
  match findIndex (conv_has_id i) (conversations s) with
  | Some index =>
      let s := set_conversations (delete index (conversations s)) s in
      let s :=
        if bool_decide (activeConversationId s = Some i) then
          match conversations s with
          | c :: _ =>
              set_activeConversationId (or_null (Conversation.id c)) s
          | [] => snd (createConversation s)
          end
        else s in
      saveConversations s
  | None => s
  end.

Definition switchConversation (i : jsstring) (s : Store) : Store :=
  set_activeConversationId (Some i) s.

(** [content.slice(0, 20) + (content.length > 20 ? '...' : '')] *)
Definition deriveTitle (content : jsstring) : jsstring :=
  take 20 content ++ (if bool_decide (20 < length content)%nat
                      then js "..." else []).

Definition addMessage (conversationId : jsstring) (message : PartialMessage.t)
    (s : Store) : option Message.t * Store :=
  match list_find (conv_has_id conversationId) (conversations s) with
  | None => (None, s)
  | Some (ci, conversation) =>
      let '(i, s) := generateId s in
      let '(t, s) := now s in
      let newMessage :=
        Message.mk i (PartialMessage.role message)
                   (PartialMessage.content message) t
                   (PartialMessage.isStreaming message)
                   (PartialMessage.reasoningContent message) in
      let conversation :=
        Conversation.set_messages
          (Conversation.messages conversation ++ [newMessage]) conversation in
      let '(t', s) := now s in
      let conversation := Conversation.set_updatedAt t' conversation in
      let conversation :=
        if bool_decide (length (Conversation.messages conversation) = 1%nat)
           && bool_decide (PartialMessage.role message = user)
        then Conversation.set_title
               (deriveTitle (PartialMessage.content message)) conversation
        else conversation in
      let s := set_conversations (<[ci := conversation]> (conversations s)) s in
      (Some newMessage, saveConversations s)
  end.

(** The two field updates share their shape: the first conversation with
    the id, and in it the first message with the id. *)
Definition updateField (f : Message.t → Message.t)
    (conversationId messageId : jsstring) (s : Store) : Store :=
  match list_find (conv_has_id conversationId) (conversations s) with
  | None => s
  | Some (ci, conversation) =>
      match list_find (msg_has_id messageId)
                      (Conversation.messages conversation) with
      | Some (mi, message) =>
          let conversation :=
            Conversation.set_messages
              (<[mi := f message]> (Conversation.messages conversation))
              conversation in
          let '(t, s) := now s in
          let conversation := Conversation.set_updatedAt t conversation in
          let s :=
            set_conversations (<[ci := conversation]> (conversations s)) s in
          saveConversations s
      | None => s
      end
  end.

Definition updateMessage (conversationId messageId content : jsstring)
  : Store → Store :=
  updateField (Message.set_content content) conversationId messageId.

Definition updateReasoningContent
    (conversationId messageId reasoningContent : jsstring)
  : Store → Store :=
  updateField (Message.set_reasoningContent reasoningContent)
              conversationId messageId.

Definition loadConversations (s : Store) : Store :=
  let s :=
    match localStorage s !! key_conversations with
    | Some ((_ :: _) as saved) =>
        match JSON_parse saved with
        | Some cs => set_conversations cs s
        | None => log_store LogLoadFailed s
        end
    | _ => s
    end in
  let restore :=
    match localStorage s !! key_activeConversationId with
    | Some ((_ :: _) as savedActiveId) =>
        match find (conv_has_id savedActiveId) (conversations s) with
        | Some _ => Some savedActiveId
        | None => None
        end
    | _ => None
    end in
  match restore with
  | Some savedActiveId => set_activeConversationId (Some savedActiveId) s
  | None =>
      match conversations s with
      | c :: _ => set_activeConversationId (or_null (Conversation.id c)) s
      | [] => snd (createConversation s)
      end
  end.

End store.

(** ** JSON values, as [JSON.parse] returns them *)

#[local] Set Warnings "-register-all".

(** A number is known by what the code can see of it: whether it is
    non-zero (its truthiness) and how [String] renders it. *)
Inductive value :=
| VUndefined
| VNull
| VBool (b : bool)
| VNumber (nonzero : bool) (text : jsstring)
| VString (s : jsstring)
| VArray (vs : list value)
| VObject (fields : list (jsstring * value)).

Definition truthy (v : value) : bool :=
  match v with
  | VUndefined | VNull => false
  | VBool b => b
  | VNumber nz _ => nz
  | VString s => match s with [] => false | _ => true end
  | VArray _ | VObject _ => true
  end.

(** [v === undefined || v === null] *)
Definition nullish (v : value) : bool :=
  match v with VUndefined | VNull => true | _ => false end.

Definition is_undefined (v : value) : bool :=
  match v with VUndefined => true | _ => false end.

(** [String(v)], which is what ['' + v] computes. *)
Fixpoint ToString (v : value) : jsstring :=
  match v with
  | VUndefined => js "undefined"
  | VNull => js "null"
  | VBool true => js "true"
  | VBool false => js "false"
  | VNumber _ t => t
  | VString s => s
  | VArray vs =>
      (fix join (l : list value) : jsstring :=
         match l with
         | [] => []
         | [x] => if nullish x then [] else ToString x
         | x :: l' => (if nullish x then [] else ToString x) ++ js "," ++ join l'
         end) vs
  | VObject _ => js "[object Object]"
  end.

(** An [Error] instance, known by its [name] and [message]. *)
Record Error := mkError { name : jsstring; message : jsstring }.

(** Whatever a [throw] or a rejected promise carries. *)
Inductive thrown :=
| ThrowError (e : Error)      (* error instanceof Error *)
| ThrowOther (v : value).

(** [new Error(msg)] *)
Definition new_Error (msg : jsstring) : Error := mkError (js "Error") msg.

(** The property names [sendStreamMessage] reads off the parsed frame. *)
Inductive prop :=
| p_usage | p_choices | p_length | p_0 | p_delta | p_reasoning_content
| p_content.

Definition prop_name (p : prop) : jsstring :=
  match p with
  | p_usage => js "usage"
  | p_choices => js "choices"
  | p_length => js "length"
  | p_0 => js "0"
  | p_delta => js "delta"
  | p_reasoning_content => js "reasoning_content"
  | p_content => js "content"
  end.

Fixpoint own_property (k : jsstring) (fields : list (jsstring * value)) : value :=
  match fields with
  | [] => VUndefined
  | (k', v) :: fields' => if bool_decide (k' = k) then v else own_property k fields'
  end.

Definition number_of_nat (n : nat) : value :=
  VNumber (negb (Nat.eqb n 0)) (ToString_Z (Z.of_nat n)).

Inductive outcome (A : Type) :=
| Normal (a : A)
| Throws (t : thrown).
Arguments Normal {A} a.
Arguments Throws {A} t.

(** ** The streaming service ([DashScopeService.sendStreamMessage]) *)

(** [DashScopeMessage] *)
Inductive DashScopeRole := ds_user | ds_assistant | ds_system.
Record DashScopeMessage := mkDashScopeMessage {
  ds_role : DashScopeRole;
  ds_content : jsstring
}.

(** Everything the service does that can be seen from outside: the calls of
    the callbacks, the console, the timer and the abort controller.  The
    request is known by its messages; the rest of its body ([model],
    [stream], [enable_thinking], [stream_options]) does not vary. *)
Inductive Effect :=
| SetTimeout (ms : N)
| Fetch (messages : list DashScopeMessage)
| ClearTimeout
| Abort
| Warn_timeout                              (* '请求超时（60秒）' *)
| Log_usage (usage : value)                 (* 'Token 使用:' *)
| Log_answering                             (* '思考完成，开始回复...' *)
| Error_parse (e : thrown) (data : jsstring) (* '解析 SSE 数据失败:' *)
| Log_aborted                               (* '请求被中止（超时或手动取消）' *)
| Error_api (e : Error)                     (* 'DashScope API 错误:' *)
| Call_onReasoningChunk (chunk : value)
| Call_onChunk (chunk : value)
| Call_onComplete
| Call_onError (e : Error).

(** The network, as one request sees it.  Times are in milliseconds. *)
Inductive ReadEnd :=
| StreamDone                 (* reader.read() gives done *)
| StreamFails (t : thrown)   (* reader.read() rejects *)
| StreamStalls.              (* reader.read() never settles *)

Record Chunk := mkChunk {
  delay_ms : N;              (* time the read of this chunk takes *)
  decoded : jsstring         (* decoder.decode(value, { stream: true }) *)
}.

Record Body := mkBody {
  chunks : list Chunk;
  end_delay_ms : N;
  ending : ReadEnd
}.

Record Response := mkResponse {
  ok : bool;
  status : Z;
  text : outcome jsstring;   (* await response.text() *)
  body : option Body
}.

Inductive FetchResult :=
| Rejects (t : thrown)
| Resolves (r : Response).

Record Network := mkNetwork {
  fetch_ms : N;              (* time until fetch settles, left alone *)
  fetch_result : FetchResult
}.

(** How long the whole transfer lasts, from the request to the end of the
    stream. *)
Definition transfer_ms (net : Network) : N :=
  (fetch_ms net +
   match fetch_result net with
   | Resolves r =>
       match body r with
       | Some b => foldr (λ c acc, delay_ms c + acc) (end_delay_ms b) (chunks b)
       | None => 0
       end
   | Rejects _ => 0
   end)%N.

(** The promise [sendStreamMessage] returns. *)
Inductive Completion :=
| Fulfilled
| Rejected (t : thrown)
| Pending.

(** '请求超时' *)
Definition msg_timeout : jsstring := [35831; 27714; 36229; 26102]%N.
(** '响应体为空' *)
Definition msg_empty_body : jsstring := [21709; 24212; 20307; 20026; 31354]%N.

(** The [AbortError] an aborted fetch rejects with; its message is the
    platform's. *)
Definition AbortError (msg : jsstring) : Error := mkError (js "AbortError") msg.

Definition DONE : jsstring := js "[DONE]".
Definition data_prefix : jsstring := js "data: ".

Section service.

(** The platform. *)
Variable JSON_parse : jsstring → outcome value.
Variable TypeError_reading : prop → Error.
    (* the TypeError of reading a property of undefined or null *)
Variable abort_message : jsstring.

(** The state the callbacks close over. *)
Context {St : Type}.

(** A callback runs on the caller's state, and returns or throws. *)
Record ExtendedStreamCallbacks := mkCallbacks {
    onReasoningChunk : option (value → St → St * option thrown);
    onChunk : option (value → St → St * option thrown);
    onComplete : option (St → St * option thrown);
    onError : option (Error → St → St * option thrown)
  }.

(** The locals of one invocation. *)
Record Run := mkRun {
    isAnswering : bool;
    caller : St;
    trace : list Effect
  }.

Definition emit (e : Effect) (r : Run) : Run :=
  mkRun (isAnswering r) (caller r) (trace r ++ [e]).

(** Code that may throw: a computation on [Run]. *)
Definition M (A : Type) : Type := Run → Run * outcome A.

Definition ret {A} (a : A) : M A := λ r, (r, Normal a).
Definition throw {A} (t : thrown) : M A := λ r, (r, Throws t).
Definition bind {A B} (m : M A) (k : A → M B) : M B :=
    λ r, match m r with
         | (r', Normal a) => k a r'
         | (r', Throws t) => (r', Throws t)
         end.
Definition say (e : Effect) : M unit := λ r, (emit e r, Normal tt).

Notation "'do' x <- m ; k" := (bind m (λ x, k))
    (at level 10, x name, m at level 100, k at level 200).
Notation "m ;; k" := (bind m (λ _, k))
    (at level 100, k at level 200, right associativity).

(** [v.p] *)
Definition get (v : value) (p : prop) : M value :=
  match v with
  | VUndefined | VNull => throw (ThrowError (TypeError_reading p))
  | VObject fields => ret (own_property (prop_name p) fields)
  | VArray vs =>
      ret match p with
          | p_length => number_of_nat (length vs)
          | p_0 => default VUndefined (head vs)
          | _ => VUndefined
          end
  | VString s =>
      ret match p with
          | p_length => number_of_nat (length s)
          | p_0 => match s with c :: _ => VString [c] | [] => VUndefined end
          | _ => VUndefined
          end
  | VBool _ | VNumber _ _ => ret VUndefined
  end.

(** [callbacks.f?.(x)] *)
Definition call (f : option (St → St * option thrown)) (e : Effect) : M unit :=
  λ r, match f with
       | None => (r, Normal tt)
       | Some h =>
           let '(st, t) := h (caller r) in
           let r := mkRun (isAnswering r) st (trace r ++ [e]) in
           (r, match t with Some t => Throws t | None => Normal tt end)
       end.

Variable callbacks : ExtendedStreamCallbacks.

(** Step 11: the reasoning text, before the answer only. *)
Definition route_reasoning (delta : value) : M unit :=
  do rc <- get delta p_reasoning_content;
  if negb (nullish rc) then
    λ r, if negb (isAnswering r)
         then call ((λ h, h rc) <$> onReasoningChunk callbacks)
                   (Call_onReasoningChunk rc) r
         else (r, Normal tt)
  else ret tt.

(** Step 12: the answer text. *)
Definition route_content (delta : value) : M unit :=
  do ct <- get delta p_content;
  if negb (is_undefined ct) && truthy ct then
    λ r, let r := if negb (isAnswering r)
                  then mkRun true (caller r) (trace r ++ [Log_answering])
                  else r in
         call ((λ h, h ct) <$> onChunk callbacks) (Call_onChunk ct) r
  else ret tt.

(** The body of the [try] around one data frame. *)
Definition try_frame (data : jsstring) : M unit :=
  do parsed <- (λ r, (r, JSON_parse data));
  do usage <- get parsed p_usage;
  if truthy usage then say (Log_usage usage)
  else
    do choices <- get parsed p_choices;
    do len <- (if nullish choices then ret VUndefined
               else get choices p_length);
    if negb (truthy len) then ret tt
    else
      do choices <- get parsed p_choices;
      do choice <- get choices p_0;
      do delta <- get choice p_delta;
      route_reasoning delta ;;
      route_content delta.

(** One line of the buffer (steps 8 to 12). *)
Definition process_line (line : jsstring) (r : Run) : Run :=
  let trimmedLine := trim line in
  match trimmedLine with
  | [] => r
  | _ =>
      if startsWith trimmedLine (js ":") then r
      else if startsWith trimmedLine data_prefix then
        let data := trim (drop 6 trimmedLine) in
        if bool_decide (data = DONE) then r
        else match try_frame data r with
             | (r', Normal _) => r'
             | (r', Throws e) => emit (Error_parse e data) r'
             end
      else r
  end.

Definition process_lines (lines : list jsstring) (r : Run) : Run :=
  foldl (λ r line, process_line line r) r lines.

(** Steps 6 and 7: the lines that are complete, and the rest of the
    buffer ([lines.pop() || '']). *)
Definition feed (buffer text : jsstring) : list jsstring * jsstring :=
  let lines := split_lines (buffer ++ text) in
  (removelast lines, List.last lines []).

(** The [while (true)] loop, by recursion on the chunks still to come. *)
Fixpoint read_loop (cs : list Chunk) (e : ReadEnd) (buffer : jsstring)
    (r : Run) : Run * outcome Completion :=
  match cs with
  | c :: cs' =>
      let '(lines, buffer) := feed buffer (decoded c) in
      read_loop cs' e buffer (process_lines lines r)
  | [] =>
      match e with
      | StreamDone =>
          match call (onComplete callbacks) Call_onComplete r with
          | (r', Normal _) => (r', Normal Fulfilled)
          | (r', Throws t) => (r', Throws t)
          end
      | StreamFails t => (r, Throws t)
      | StreamStalls => (r, Normal Pending)
      end
  end.

(** [messages.map(...)] *)
Definition formatMessage (msg : Message.t) : DashScopeMessage :=
  mkDashScopeMessage
    (if bool_decide (Message.role msg = user) then ds_user else ds_assistant)
    (Message.content msg).

(** The [try] block. *)
Definition try_block (net : Network) (messages : list Message.t) (r : Run)
  : Run * outcome Completion :=
  let r := emit (Fetch (formatMessage <$> messages)) r in
  if (60000 <=? fetch_ms net)%N then
    (* the timer fires while fetch is pending *)
    let r := emit Warn_timeout (emit Abort r) in
    (r, Throws (ThrowError (AbortError abort_message)))
  else
    match fetch_result net with
    | Rejects t => (r, Throws t)
    | Resolves response =>
        let r := emit ClearTimeout r in
        if negb (ok response) then
          match text response with
          | Normal errorText =>
              (r, Throws (ThrowError (new_Error
                 (js "HTTP " ++ ToString_Z (status response) ++ js ": "
                  ++ errorText))))
          | Throws t => (r, Throws t)
          end
        else
          match body response with
          | None => (r, Throws (ThrowError (new_Error msg_empty_body)))
          | Some b => read_loop (chunks b) (ending b) [] r
          end
    end.

(** The [catch] block. *)
Definition catch_block (error : thrown) (r : Run) : Run * Completion :=
  let r := emit ClearTimeout r in
  match error with
  | ThrowError e =>
      let '(r, e') :=
        if bool_decide (name e = js "AbortError")
        then (emit Log_aborted r, new_Error msg_timeout)
        else (emit (Error_api e) r, e) in
      match call ((λ h, h e') <$> onError callbacks) (Call_onError e') r with
      | (r, Normal _) => (r, Fulfilled)
      | (r, Throws t) => (r, Rejected t)
      end
  | ThrowOther _ => (r, Fulfilled)
  end.

Definition sendStreamMessage (net : Network) (messages : list Message.t)
    (st : St) : Run * Completion :=
  let r := mkRun false st [SetTimeout 60000] in
  match try_block net messages r with
  | (r, Normal c) => (r, c)
  | (r, Throws error) => catch_block error r
  end.

End service.

Arguments ExtendedStreamCallbacks : clear implicits.
Arguments Run : clear implicits.
Arguments catch_block : simpl never.

(** ** The orchestration ([sendMessage] of the store) *)

(** '抱歉，出现了错误：' *)
Definition error_prefix : jsstring :=
  [25265; 27465; 65292; 20986; 29616; 20102; 38169; 35823; 65306]%N.
(** The rest of the template, from the two line feeds on. *)
Definition error_suffix : jsstring :=
  [10; 10; 35831; 26816; 26597; 65306; 10; 49; 46; 32; 65; 80; 73; 32; 75;
   101; 121; 32; 26159; 21542; 27491; 30830; 37197; 32622; 10; 50; 46; 32;
   32593; 32476; 36830; 25509; 26159; 21542; 27491; 24120; 10; 51; 46; 32;
   26597; 30475; 25511; 21046; 21488; 20102; 35299; 35814; 32454; 38169;
   35823; 20449; 24687]%N.

Definition errorTemplate (e : Error) : jsstring :=
  error_prefix ++ message e ++ error_suffix.

(** [conversation.messages.find(m => m.id === messageId)], where
    [conversation] is the object [sendMessage] holds: the first one of the
    list with its id. *)
Definition findMessage (conversationId messageId : jsstring) (s : Store)
  : option Message.t :=
  match find (conv_has_id conversationId) (conversations s) with
  | Some c => find (msg_has_id messageId) (Conversation.messages c)
  | None => None
  end.

(** An assignment to fields of that message (no timestamp, nothing saved). *)
Definition assignMessage (f : Message.t → Message.t)
    (conversationId messageId : jsstring) (s : Store) : Store :=
  match list_find (conv_has_id conversationId) (conversations s) with
  | Some (ci, c) =>
      match list_find (msg_has_id messageId) (Conversation.messages c) with
      | Some (mi, m) =>
          set_conversations
            (<[ci := Conversation.set_messages
                       (<[mi := f m]> (Conversation.messages c)) c]>
               (conversations s)) s
      | None => s
      end
  | None => s
  end.

Section orchestration.

Variable Date_now : nat → Z.
Variable Math_random_36 : nat → jsstring.
Variable JSON_stringify : list Conversation.t → jsstring.
Variable JSON_parse_frame : jsstring → outcome value.
Variable TypeError_reading : prop → Error.
Variable abort_message : jsstring.

Section handlers.
Variables conversationId messageId : jsstring.

Definition handle_onReasoningChunk (chunk : value) (s : Store)
  : Store * option thrown :=
  match findMessage conversationId messageId s with
  | Some currentMessage =>
      let newReasoningContent :=
        default [] (Message.reasoningContent currentMessage)
        ++ ToString chunk in
      (updateReasoningContent Date_now JSON_stringify conversationId
         messageId newReasoningContent s, None)
  | None => (s, None)
  end.

Definition handle_onChunk (chunk : value) (s : Store)
  : Store * option thrown :=
  match findMessage conversationId messageId s with
  | Some currentMessage =>
      let newContent := Message.content currentMessage ++ ToString chunk in
      (updateMessage Date_now JSON_stringify conversationId messageId
         newContent s, None)
  | None => (s, None)
  end.

Definition handle_onComplete (s : Store) : Store * option thrown :=
  let s := assignMessage (Message.set_isStreaming false)
             conversationId messageId s in
  (set_isStreaming false (set_isLoading false s), None).

Definition handle_onError (error : Error) (s : Store)
  : Store * option thrown :=
  let s := log_store LogApiError s in
  let s := set_isStreaming false (set_isLoading false s) in
  (assignMessage
     (λ m, Message.set_isStreaming false
             (Message.set_content (errorTemplate error) m))
     conversationId messageId s, None).

Definition storeCallbacks : ExtendedStreamCallbacks Store :=
      mkCallbacks (Some handle_onReasoningChunk) (Some handle_onChunk)
                  (Some handle_onComplete) (Some handle_onError).
End handlers.

(** The [catch] of [sendMessage]. *)
Definition sendMessage_catch (s : Store) : Store :=
  set_isStreaming false (set_isLoading false (log_store LogSendFailed s)).

(** [arr.slice(-10)] *)
Definition slice_last10 {A} (l : list A) : list A := drop (length l - 10) l.

(** Steps 2 to 5 of [sendMessage]: the active conversation (a new one when
  there is none), the user message, the flags, and the placeholder for the
  answer.  The result is the id of the conversation, what the second
  [addMessage] returned, and the store. *)
Definition sendMessage_setup (content : jsstring) (s : Store)
  : jsstring * option Message.t * Store :=
  let '(conversation, s) :=
    match activeConversation s with
    | Some c => (c, s)
    | None => createConversation Date_now Math_random_36 JSON_stringify s
    end in
  let cid := Conversation.id conversation in
  let s := snd (addMessage Date_now Math_random_36 JSON_stringify cid
                  (PartialMessage.mk user (trim content) None None) s) in
  let s := set_isStreaming true (set_isLoading true s) in
  let '(aiMessage, s) :=
    addMessage Date_now Math_random_36 JSON_stringify cid
      (PartialMessage.mk assistant [] (Some true) None) s in
  (cid, aiMessage, s).

(** [sendMessage(content)].  [import] is what the dynamic import of the
    service does ([Some t]: it rejects with [t]); [net] is the network the
    request meets.  The result is the store, what the service did, and
    whether the promise settles. *)
Definition sendMessage (import : option thrown) (net : Network)
    (content : jsstring) (s : Store) : Store * list Effect * Completion :=
  match trim content with
  | [] => (s, [], Fulfilled)
  | _ =>
      match sendMessage_setup content s with
      | (_, None, s) => (s, [], Fulfilled)
      | (cid, Some aiMessage, s) =>
          match import with
          | Some _ => (sendMessage_catch s, [], Fulfilled)
          | None =>
              let recentMessages :=
                match find (conv_has_id cid) (conversations s) with
                | Some c => slice_last10 (Conversation.messages c)
                | None => []
                end in
              match sendStreamMessage JSON_parse_frame TypeError_reading
                      abort_message
                      (storeCallbacks cid (Message.id aiMessage))
                      net recentMessages s with
              | (r, Rejected _) =>
                  (sendMessage_catch (caller r), trace r, Fulfilled)
              | (r, c) => (caller r, trace r, c)
              end
          end
      end
  end.

End orchestration.

(** ** A concrete platform, for the examples *)

Module Demo.

(** An ASCII literal in which ['] stands for the double quote. *)
Definition jsq (s : string) : jsstring :=
  (λ c, if (c =? 39)%N then 34%N else c) <$> js s.

Definition Date_now (n : nat) : Z := 1700000000000 + Z.of_nat n.
Definition Math_random_36 (n : nat) : jsstring :=
  js "k3x9q" ++ ToString_Z (Z.of_nat n).
Definition JSON_stringify (cs : list Conversation.t) : jsstring :=
  js "[" ++ ToString_Z (Z.of_nat (length cs)) ++ js "]".

Definition SyntaxError : Error := mkError (js "SyntaxError") (js "Unexpected token").
Definition TypeError_reading (p : prop) : Error :=
  mkError (js "TypeError") (js "Cannot read properties of undefined").
Definition abort_message : jsstring := js "The user aborted a request.".

Definition frame (field text : string) : value :=
  VObject [(js "choices",
            VArray [VObject [(js "delta",
                              VObject [(js field, VString (js text))])]])].

(** [JSON.parse] on the frames of the examples; any other text is taken
    to be malformed. *)
Definition JSON_parse (data : jsstring) : outcome value :=
  if bool_decide (data = jsq "{'choices':[{'delta':{'reasoning_content':'think'}}]}")
  then Normal (frame "reasoning_content" "think")
  else if bool_decide (data = jsq "{'choices':[{'delta':{'content':'answer'}}]}")
  then Normal (frame "content" "answer")
  else if bool_decide (data = jsq "{'choices':[{'delta':{'reasoning_content':'late'}}]}")
  then Normal (frame "reasoning_content" "late")
  else Throws (ThrowError SyntaxError).

Definition conv (i : string) (ms : list Message.t) : Conversation.t :=
  Conversation.mk (js i) (js i) ms 0 0.
Definition msg (i : string) (r : MessageRole) (c : string) : Message.t :=
  Message.mk (js i) r (js c) 0 None None.

Definition store (cs : list Conversation.t) (a : option jsstring) : Store :=
  mkStore cs a false false ∅ [] 0.

(** Callbacks that only count on: the caller's state is not used. *)
Definition silent : ExtendedStreamCallbacks unit :=
  mkCallbacks (Some (λ _ st, (st, None))) (Some (λ _ st, (st, None)))
              (Some (λ st, (st, None))) (Some (λ _ st, (st, None))).

Definition stream (lines : list jsstring) : Network :=
  mkNetwork 120
    (Resolves (mkResponse true 200 (Normal [])
       (Some (mkBody [mkChunk 40 (concat ((λ l, l ++ [10%N]) <$> lines))]
                     5 StreamDone)))).

(** The three frames of the examples, and a malformed one. *)
Definition think : jsstring :=
  jsq "data: {'choices':[{'delta':{'reasoning_content':'think'}}]}".
Definition answer : jsstring :=
  jsq "data: {'choices':[{'delta':{'content':'answer'}}]}".
Definition late : jsstring :=
  jsq "data: {'choices':[{'delta':{'reasoning_content':'late'}}]}".
Definition oops : jsstring := js "data: {oops".

Definition boom : Error := new_Error (js "boom").

(** Callbacks whose [onComplete] throws. *)
Definition throwing : ExtendedStreamCallbacks unit :=
  mkCallbacks (Some (λ _ st, (st, None))) (Some (λ _ st, (st, None)))
              (Some (λ st, (st, Some (ThrowError boom))))
              (Some (λ _ st, (st, None))).

(** The response arrives after 120 ms; the one chunk of the body takes
    70 s to come. *)
Definition slow_stream : Network :=
  mkNetwork 120
    (Resolves (mkResponse true 200 (Normal [])
       (Some (mkBody [mkChunk 70000 (answer ++ [10%N])] 5 StreamDone)))).


(** No response within 61 s. *)
Definition no_response : Network :=
  mkNetwork 61000 (Rejects (ThrowError (mkError (js "TypeError") (js "Failed to fetch")))).

(** The module of the service fails to load. *)
Definition load_failure : thrown :=
  ThrowError (mkError (js "TypeError")
                (js "Failed to fetch dynamically imported module")).

End Demo.

(** * Specifications *)

(** ** The phase latch *)

(** No reasoning chunk is routed after a content chunk. *)
Definition latched (tr : list Effect) : Prop :=
  ∀ pre post v, tr = pre ++ Call_onChunk v :: post →
  ∀ w, Call_onReasoningChunk w ∉ post.

Definition is_reasoning_call (e : Effect) : Prop :=
  match e with Call_onReasoningChunk _ => True | _ => False end.

(** What holds of the locals all along: the trace is latched, and as long
    as [isAnswering] is false no content chunk has been routed. *)
Definition latch_inv {St} (r : Run St) : Prop :=
  latched (trace r)
  ∧ (isAnswering r = false → ∀ v, Call_onChunk v ∉ trace r).

(** ** The decoding loop *)

(** The chunks of the body, without the end of the stream. *)
Fixpoint read_chunks {St} (JSON_parse : jsstring → outcome value)
    (TypeError_reading : prop → Error) (callbacks : ExtendedStreamCallbacks St)
    (cs : list Chunk) (buffer : jsstring) (r : Run St) : Run St :=
  match cs with
  | [] => r
  | c :: cs' =>
      let '(lines, buffer) := feed buffer (decoded c) in
      read_chunks JSON_parse TypeError_reading callbacks cs' buffer
        (process_lines JSON_parse TypeError_reading callbacks lines r)
  end.

(** What one frame may add to the trace. *)
Definition is_frame_effect (e : Effect) : Prop :=
  match e with
  | Log_usage _ | Log_answering | Error_parse _ _
  | Call_onReasoningChunk _ | Call_onChunk _ => True
  | _ => False
  end.

(** The computation [m] keeps the property [I] of the locals. *)
Definition keeps {St A} (I : Run St → Prop) (m : M (St := St) A) : Prop :=
  ∀ r, I r → I (m r).1.

(** ** Frames that carry text *)





(** ** The end of a session *)

Definition is_terminal (e : Effect) : Prop :=
  match e with Call_onComplete | Call_onError _ => True | _ => False end.

Global Instance is_terminal_dec e : Decision (is_terminal e).
Proof. destruct e; simpl; apply _. Defined.

(** The terminal callbacks of a trace, in order. *)
Definition terminals (tr : list Effect) : list Effect := filter is_terminal tr.

(** The request and the stream went through, and the reader signals the
    end. *)
Definition normal_end (net : Network) : Prop :=
  ∃ r b, (fetch_ms net < 60000)%N ∧ fetch_result net = Resolves r
         ∧ ok r = true ∧ body r = Some b ∧ ending b = StreamDone.

(** The reader never settles. *)
Definition stalls (net : Network) : Prop :=
  ∃ r b, (fetch_ms net < 60000)%N ∧ fetch_result net = Resolves r
         ∧ ok r = true ∧ body r = Some b ∧ ending b = StreamStalls.

(** The failure paths, with what is thrown on each. *)
Inductive failure_path (abort_message : jsstring) (net : Network)
  : thrown → Prop :=
| fp_timeout :
    (60000 ≤ fetch_ms net)%N →
    failure_path abort_message net (ThrowError (AbortError abort_message))
| fp_network t :
    (fetch_ms net < 60000)%N → fetch_result net = Rejects t →
    failure_path abort_message net t
| fp_status r errorText :
    (fetch_ms net < 60000)%N → fetch_result net = Resolves r →
    ok r = false → text r = Normal errorText →
    failure_path abort_message net
      (ThrowError (new_Error (js "HTTP " ++ ToString_Z (status r) ++ js ": "
                              ++ errorText)))
| fp_status_text r t :
    (fetch_ms net < 60000)%N → fetch_result net = Resolves r →
    ok r = false → text r = Throws t →
    failure_path abort_message net t
| fp_no_body r :
    (fetch_ms net < 60000)%N → fetch_result net = Resolves r →
    ok r = true → body r = None →
    failure_path abort_message net (ThrowError (new_Error msg_empty_body))
| fp_read r b t :
    (fetch_ms net < 60000)%N → fetch_result net = Resolves r →
    ok r = true → body r = Some b → ending b = StreamFails t →
    failure_path abort_message net t.

(** What [onError] is given: the timeout error for an [AbortError], the
    error itself otherwise. *)
Definition reported (e : Error) : Error :=
  if bool_decide (name e = js "AbortError") then new_Error msg_timeout else e.

(** The locals when the body starts to be read, and when its chunks have
    been read. *)
Definition at_stream {St} (messages : list Message.t) (st : St) : Run St :=
  mkRun false st
    [SetTimeout 60000; Fetch (formatMessage <$> messages); ClearTimeout].

Definition after_chunks {St} (JSON_parse : jsstring → outcome value)
    (TypeError_reading : prop → Error) (callbacks : ExtendedStreamCallbacks St)
    (messages : list Message.t) (st : St) (b : Body) : Run St :=
  read_chunks JSON_parse TypeError_reading callbacks (chunks b) []
    (at_stream messages st).

(** Neither the abort nor the warning of the timer. *)
Definition no_timer_effect (e : Effect) : Prop := e ≠ Abort ∧ e ≠ Warn_timeout.

(** ** The invariant of the data model *)

(** Only assistant messages may have [reasoningContent] or
    [isStreaming = true]. *)
Definition msg_ok (m : Message.t) : Prop :=
  Message.role m = user →
  Message.reasoningContent m = None ∧ Message.isStreaming m ≠ Some true.

Definition partial_ok (m : PartialMessage.t) : Prop :=
  PartialMessage.role m = user →
  PartialMessage.reasoningContent m = None
  ∧ PartialMessage.isStreaming m ≠ Some true.

Definition conv_ok (c : Conversation.t) : Prop :=
  Forall msg_ok (Conversation.messages c).

Definition store_ok (s : Store) : Prop := Forall conv_ok (conversations s).

(** The invariant, and the message the callbacks write to is not a user
    message. *)
Definition target_ok (cid mid : jsstring) (s : Store) : Prop :=
  store_ok s ∧ ∀ m, findMessage cid mid s = Some m → Message.role m = assistant.

(** ** Deliveries to the handlers of [sendMessage] *)

(** What the handlers are given, in order. *)
Inductive delivery :=
| Reasoning (chunk : jsstring)
| Content (chunk : jsstring).

Definition reasoning_chunks (ds : list delivery) : list jsstring :=
  omap (λ d, match d with Reasoning c => Some c | Content _ => None end) ds.
Definition content_chunks (ds : list delivery) : list jsstring :=
  omap (λ d, match d with Content c => Some c | Reasoning _ => None end) ds.

Definition reasoning_of (ds : list delivery) : jsstring :=
  concat (reasoning_chunks ds).
Definition content_of (ds : list delivery) : jsstring :=
  concat (content_chunks ds).

Definition deliver (Date_now : nat → Z)
    (JSON_stringify : list Conversation.t → jsstring)
    (cid mid : jsstring) (s : Store) (d : delivery) : Store :=
  match d with
  | Reasoning chunk =>
      (handle_onReasoningChunk Date_now JSON_stringify cid mid
         (VString chunk) s).1
  | Content chunk =>
      (handle_onChunk Date_now JSON_stringify cid mid (VString chunk) s).1
  end.

(** ** The store of the examples *)

(** The store of the examples: one conversation, with one user message. *)
Definition demo_store : Store :=
  Demo.store [Demo.conv "c1" [Demo.msg "m1" user "hello"]] (Some (js "c1")).

(** What matters of a message here. *)
Definition summary (m : Message.t)
  : MessageRole * jsstring * option bool * option jsstring :=
  (Message.role m, Message.content m, Message.isStreaming m,
   Message.reasoningContent m).

Definition summaries (s : Store)
  : list (list (MessageRole * jsstring * option bool * option jsstring)) :=
  (λ c, summary <$> Conversation.messages c) <$> conversations s.

(** ** The body of a response, as one text *)

(** The decoded text of all the chunks, one after the other. *)
Definition body_text (cs : list Chunk) : jsstring :=
  concat (decoded <$> cs).

(** The lines of a text that are complete: all but the last piece of
    [split('\n')]. *)
Definition complete_lines (text : jsstring) : list jsstring :=
  removelast (split_lines text).

(** ** What a session may add to its trace *)

(** What one frame may add, with what the callbacks may be given: a
    reasoning value that is neither undefined nor null, a content value that
    is truthy. *)
Definition is_routed_effect (e : Effect) : Prop :=
  match e with
  | Log_usage _ | Log_answering | Error_parse _ _ => True
  | Call_onReasoningChunk v => nullish v = false
  | Call_onChunk v => truthy v = true
  | _ => False
  end.

(** The request, the timer and the abort controller. *)
Definition is_setup_effect (e : Effect) : Prop :=
  match e with
  | SetTimeout _ | Fetch _ | ClearTimeout | Abort | Warn_timeout => True
  | _ => False
  end.

(** What the end of a session may add: the above, the two entries of the
    [catch] block, and the terminal callbacks. *)
Definition is_closing_effect (e : Effect) : Prop :=
  match e with
  | SetTimeout _ | Fetch _ | ClearTimeout | Abort | Warn_timeout
  | Log_aborted | Error_api _ | Call_onComplete | Call_onError _ => True
  | _ => False
  end.

Definition is_chunk_call (e : Effect) : Prop :=
  match e with
  | Call_onReasoningChunk _ | Call_onChunk _ => True
  | _ => False
  end.

(** What a callback may be given. *)
Definition argument_ok (e : Effect) : Prop :=
  match e with
  | Call_onReasoningChunk v => nullish v = false
  | Call_onChunk v => truthy v = true
  | _ => True
  end.

(** The request went through and the body [b] is read. *)
Definition reaches_stream (net : Network) (b : Body) : Prop :=
  ∃ r, (fetch_ms net < 60000)%N ∧ fetch_result net = Resolves r
       ∧ ok r = true ∧ body r = Some b.

(** ** The store and its copy in [localStorage] *)

(** What [saveConversations] leaves in [localStorage]: the conversations
    and the active id (or the empty string) of the store as it is. *)
Definition persisted (JSON_stringify : list Conversation.t → jsstring)
    (s : Store) : Prop :=
  localStorage s !! key_conversations = Some (JSON_stringify (conversations s))
  ∧ localStorage s !! key_activeConversationId
    = Some (default [] (activeConversationId s)).

(** Every conversation has an id that is not empty. *)
Definition ids_nonempty (cs : list Conversation.t) : Prop :=
  Forall (λ c, Conversation.id c ≠ []) cs.

(** The text is blank: white space and line terminators only. *)
Definition blank (s : jsstring) : Prop := Forall (λ c, isWhiteSpace c = true) s.

(** ** The start of the application ([App.vue]) *)

(** A page load: a new store, on what [localStorage] holds, and
    [chatStore.loadConversations()]. *)
Definition appStart (Date_now : nat → Z) (Math_random_36 : nat → jsstring)
    (JSON_stringify : list Conversation.t → jsstring)
    (JSON_parse : jsstring → option (list Conversation.t))
    (ls : gmap jsstring jsstring) : Store :=
  loadConversations Date_now Math_random_36 JSON_stringify JSON_parse
    (initialStore ls).

(** ** Lines of a body *)

(** The text of lines that are each ended by a line feed. *)
Definition unlines (ls : list jsstring) : jsstring :=
  concat ((λ l, l ++ [10%N]) <$> ls).

(** The lines the loop passes over: blank lines, comments, fields other than
    [data: ], and the [DONE] mark. *)
Definition ignored_line (line : jsstring) : Prop :=
  trim line = []
  ∨ startsWith (trim line) (js ":") = true
  ∨ startsWith (trim line) data_prefix = false
  ∨ trim (drop 6 (trim line)) = DONE.

(** ** What the callbacks were given, as text *)

(** The chunks [onChunk] was given, one after the other, as the handler of
    the store appends them. *)
Definition chunk_text (tr : list Effect) : jsstring :=
  concat (omap (λ e, match e with
                     | Call_onChunk v => Some (ToString v)
                     | _ => None
                     end) tr).

Definition reasoning_text (tr : list Effect) : jsstring :=
  concat (omap (λ e, match e with
                     | Call_onReasoningChunk v => Some (ToString v)
                     | _ => None
                     end) tr).

(** ** The sidebar: conversations by age *)




(** ** The chat view: the input box and the send button *)

Record ChatView := mkChatView {
  inputText : jsstring;
  chatStore : Store
}.

Section chat_view.

Variable Date_now : nat → Z.
Variable Math_random_36 : nat → jsstring.
Variable JSON_stringify : list Conversation.t → jsstring.
Variable JSON_parse_frame : jsstring → outcome value.
Variable TypeError_reading : prop → Error.
Variable abort_message : jsstring.

(** [handleSend]: nothing when the input is blank or an answer is awaited;
    else the input box is emptied and its text is sent.  ([scrollToBottom]
    only moves the scroll bar.) *)
Definition handleSend (import : option thrown) (net : Network) (v : ChatView)
  : ChatView * list Effect * Completion :=
  if bool_decide (trim (inputText v) = []) || isLoading (chatStore v)
  then (v, [], Fulfilled)
  else
    let text := inputText v in
    let '(s, tr, c) :=
      sendMessage Date_now Math_random_36 JSON_stringify JSON_parse_frame
        TypeError_reading abort_message import net text (chatStore v) in
    (mkChatView [] s, tr, c).

(** [handleTopicClick] *)
Definition handleTopicClick (import : option thrown) (net : Network)
    (text : jsstring) (v : ChatView) : ChatView * list Effect * Completion :=
  handleSend import net (mkChatView text (chatStore v)).

End chat_view.

(** ** An exchange under way *)

(** The answer is awaited: the two flags are set and the placeholder is
    marked as streaming. *)
Definition awaiting (cid mid : jsstring) (s : Store) : Prop :=
  (∃ m, findMessage cid mid s = Some m ∧ Message.isStreaming m = Some true)
  ∧ isLoading s = true ∧ isStreaming s = true.

(** What holds of the locals of the service while the handlers of the store
    receive the chunks: the placeholder holds what the handlers were given so
    far, and every change of it has been saved. *)
Definition streaming_inv (JSON_stringify : list Conversation.t → jsstring)
    (cid mid : jsstring) (r : Run Store) : Prop :=
  ∃ m, findMessage cid mid (caller r) = Some m
       ∧ Message.content m = chunk_text (trace r)
       ∧ default [] (Message.reasoningContent m) = reasoning_text (trace r)
       ∧ Message.isStreaming m = Some true
       ∧ isLoading (caller r) = true ∧ isStreaming (caller r) = true
       ∧ persisted JSON_stringify (caller r).

(** The conversations as the sidebar shows them, and every message but the
    one at [(cid, mid)], are as in [s0]. *)
Definition same_but (cid mid : jsstring) (s0 s : Store) : Prop :=
  (∀ cid' mid', (cid', mid') ≠ (cid, mid) →
     findMessage cid' mid' s = findMessage cid' mid' s0)
  ∧ Conversation.id <$> conversations s = Conversation.id <$> conversations s0
  ∧ Conversation.title <$> conversations s
    = Conversation.title <$> conversations s0
  ∧ activeConversationId s = activeConversationId s0.

(** ** More inputs for the examples *)

(** A response that arrives after 120 ms, with the body [b]. *)
Definition respond (b : Body) : Network :=
  mkNetwork 120 (Resolves (mkResponse true 200 (Normal []) (Some b))).

(** The answer frame in one chunk, and cut in two. *)
Definition answer_whole : Body :=
  mkBody [mkChunk 40 (Demo.answer ++ [10%N])] 5 StreamDone.
Definition answer_cut : Body :=
  mkBody [mkChunk 1 (take 30 Demo.answer);
          mkChunk 1 (drop 30 Demo.answer ++ [10%N])] 1 StreamDone.

(** The answer frame, and a reasoning frame that is not terminated. *)
Definition answer_then_unfinished : Body :=
  mkBody [mkChunk 40 (Demo.answer ++ [10%N] ++ Demo.think)] 5 StreamDone.

(** The [DONE] mark between two frames. *)
Definition done_mark : jsstring := js "data: [DONE]".
Definition think_answer : Body :=
  mkBody [mkChunk 40 (unlines [Demo.think; Demo.answer])] 5 StreamDone.
Definition think_done_answer : Body :=
  mkBody [mkChunk 40 (unlines [Demo.think; done_mark; Demo.answer])] 5
         StreamDone.

(** The answer frame, and then nothing more. *)
Definition stalled : Network :=
  respond (mkBody [mkChunk 40 (Demo.answer ++ [10%N])] 5 StreamStalls).

(** A response with status 500. *)
Definition status_500 : Network :=
  mkNetwork 80 (Resolves (mkResponse false 500 (Normal (js "oops")) None)).

(** The store of the examples, saved. *)
Definition saved_store : Store :=
  saveConversations Demo.JSON_stringify demo_store.

(** [JSON.parse] on what the store of the examples is saved as; any other
    text is taken to be malformed. *)
Definition parse_saved (text : jsstring) : option (list Conversation.t) :=
  if bool_decide (text = Demo.JSON_stringify (conversations demo_store))
  then Some (conversations demo_store) else None.

(** Two conversations, the first one active. *)
Definition two_conversations : Store :=
  Demo.store [Demo.conv "a" []; Demo.conv "b" []] (Some (js "a")).


(** Two frames that carry no text: one with a [usage], one whose choice has
    no [delta]. *)
Definition usage_fields : list (jsstring * value) :=
  [(js "usage", VObject [(js "total_tokens", VNumber true (js "7"))]);
   (js "choices",
    VArray [VObject [(js "delta",
                      VObject [(js "content", VString (js "answer"))])]])].
Definition usage_frame : value := VObject usage_fields.
Definition bare_choice_frame : value :=
  VObject [(js "choices", VArray [VObject []])].

Definition usage_line : jsstring :=
  Demo.jsq "data: {'usage':{'total_tokens':7},'choices':[{'delta':{'content':'answer'}}]}".
Definition bare_choice_line : jsstring := Demo.jsq "data: {'choices':[{}]}".

(** [JSON.parse] on these two frames as well. *)
Definition parse_frames (data : jsstring) : outcome value :=
  if bool_decide (data = Demo.jsq "{'usage':{'total_tokens':7},'choices':[{'delta':{'content':'answer'}}]}")
  then Normal usage_frame
  else if bool_decide (data = Demo.jsq "{'choices':[{}]}")
  then Normal bare_choice_frame
  else Demo.JSON_parse data.

(** * Properties *)

(** ** Lists: [find], [findIndex] and updates in place *)

Section list_facts.
Context {A : Type} (P : A → Prop) `{∀ x, Decision (P x)}.

Lemma list_find_insert_same (l : list A) i x y :
    list_find P l = Some (i, x) → P y →
    list_find P (<[i := y]> l) = Some (i, y).
Proof.
    intros (Hl & HP & Hmin)%list_find_Some Hy.
    apply list_find_Some. split_and!; [|done|].
    - apply list_lookup_insert_eq. by eapply lookup_lt_Some.
    - intros j z Hj Hlt. rewrite list_lookup_insert_ne in Hj by lia. eauto.
Qed.

Lemma list_find_cons_eq (x : A) (l : list A) :
    list_find P (x :: l) =
    if decide (P x) then Some (0%nat, x)
    else prod_map S id <$> list_find P l.
Proof. reflexivity. Qed.
End list_facts.

Lemma filter_Forall_id {A} (P : A → Prop) `{∀ x, Decision (P x)} (l : list A) :
  Forall P l → filter P l = l.
Proof.
  induction 1 as [|x l Hx _ IH]; [done|].
  rewrite filter_cons_True by done. by rewrite IH.
Qed.

(** With unique ids, removing the first conversation with an id removes
    every conversation with that id. *)
Lemma delete_first_by_id (i : jsstring) (l : list Conversation.t) n c :
  NoDup (Conversation.id <$> l) →
  list_find (conv_has_id i) l = Some (n, c) →
  delete n l = filter (λ c, Conversation.id c ≠ i) l.
Proof.
  revert n. induction l as [|x l IH]; intros n Hnd Hf; [done|].
  rewrite list_find_cons_eq in Hf. rewrite fmap_cons in Hnd.
  apply NoDup_cons in Hnd as [Hx Hnd]. destruct (decide (conv_has_id i x)) as [Hi|Hi].
  - injection Hf as <- <-. simpl. rewrite filter_cons_False by (intros ?; done).
    symmetry. apply filter_Forall_id, Forall_forall. intros y Hy Heq.
    apply Hx. unfold conv_has_id in Hi. rewrite Hi, <- Heq.
    by apply list_elem_of_fmap_2.
  - destruct (list_find _ l) as [[k y]|] eqn:Hl; [|done].
    injection Hf as <- <-. simpl. rewrite filter_cons_True by done.
    f_equal. by apply IH.
Qed.

Lemma findIndex_None_iff (i : jsstring) (l : list Conversation.t) :
  findIndex (conv_has_id i) l = None ↔ i ∉ Conversation.id <$> l.
Proof.
  unfold findIndex. rewrite fmap_None, list_find_None, Forall_forall. split.
  - intros Hall (c & -> & Hc)%list_elem_of_fmap. by apply (Hall c).
  - intros Hni c Hc Hid. apply Hni. rewrite <- Hid. by apply list_elem_of_fmap_2.
Qed.

(** ** The store *)

Section store_facts.

Variable Date_now : nat → Z.
Variable Math_random_36 : nat → jsstring.
Variable JSON_stringify : list Conversation.t → jsstring.

Local Abbreviation generateId := (generateId Date_now Math_random_36).
Local Abbreviation createConversation :=
    (createConversation Date_now Math_random_36 JSON_stringify).
Local Abbreviation deleteConversation :=
    (deleteConversation Date_now Math_random_36 JSON_stringify).
Local Abbreviation addMessage := (addMessage Date_now Math_random_36 JSON_stringify).
Local Abbreviation saveConversations := (saveConversations JSON_stringify).

Lemma saveConversations_conversations s :
    conversations (saveConversations s) = conversations s.
Proof. reflexivity. Qed.

Lemma saveConversations_active s :
    activeConversationId (saveConversations s) = activeConversationId s.
Proof. reflexivity. Qed.

  (** An id made by [generateId] contains the hyphen: it is never empty. *)
Lemma generateId_nonempty s : (generateId s).1 ≠ [].
Proof.
    unfold generateId. simpl. intros Heq.
    apply app_eq_nil in Heq as [_ Heq]. discriminate Heq.
Qed.

Lemma createConversation_spec s :
    let '(c, s') := createConversation s in
    conversations s' = c :: conversations s
    ∧ activeConversationId s' = Some (Conversation.id c)
    ∧ Conversation.id c = (generateId s).1
    ∧ Conversation.title c = defaultTitle
    ∧ Conversation.messages c = [].
Proof. done. Qed.

  (** C7.  On a conversation list with unique, non-empty ids,
      [deleteConversation i] removes the conversation with id [i]
      (leaving the store as it is when there is none).  If that conversation
      was the active one and others remain, the first of the remaining ones
      becomes active; if it was the active one and none remains, exactly one
      fresh conversation (empty, with the default title and a generated id)
      exists afterwards and is active.  If it was not the active one,
      [activeConversationId] is unchanged. *)
Theorem deleteConversation_spec (i : jsstring) (s : Store) :
    NoDup (Conversation.id <$> conversations s) →
    Forall (λ c, Conversation.id c ≠ []) (conversations s) →
    let s' := deleteConversation i s in
    let rest := filter (λ c, Conversation.id c ≠ i) (conversations s) in
    (i ∉ (Conversation.id <$> rest))
    ∧ (i ∉ Conversation.id <$> conversations s → s' = s)
    ∧ (i ∈ Conversation.id <$> conversations s →
         (activeConversationId s ≠ Some i →
            conversations s' = rest
            ∧ activeConversationId s' = activeConversationId s)
         ∧ (activeConversationId s = Some i →
              match rest with
              | c :: _ =>
                  conversations s' = rest
                  ∧ activeConversationId s' = Some (Conversation.id c)
              | [] =>
                  ∃ fresh,
                    conversations s' = [fresh]
                    ∧ activeConversationId s' = Some (Conversation.id fresh)
                    ∧ Conversation.messages fresh = []
                    ∧ Conversation.title fresh = defaultTitle
              end)).
Proof.
    intros Hnd Hne s' rest. split_and!.
    - intros (c & -> & Hc)%list_elem_of_fmap.
      apply list_elem_of_filter in Hc as [Hc _]. done.
    - intros Hni. subst s'. unfold deleteConversation.
      apply findIndex_None_iff in Hni. by rewrite Hni.
    - intros Hin. subst s'. unfold deleteConversation.
      destruct (findIndex _ _) as [n|] eqn:Hf.
      2:{ apply findIndex_None_iff in Hf. done. }
      unfold findIndex in Hf. apply fmap_Some in Hf as ([n' c] & Hf & ->).
      simpl. rewrite (delete_first_by_id _ _ _ _ Hnd Hf). fold rest.
      split.
      + intros Hact. rewrite bool_decide_eq_false_2 by done. done.
      + intros Hact. rewrite bool_decide_eq_true_2 by done.
        destruct rest as [|c' rest'] eqn:Hrest.
        * eexists. split_and!; reflexivity.
        * split; [done|]. simpl.
          assert (Hc' : c' ∈ conversations s).
          { assert (Hc'' : c' ∈ rest) by (subst rest; rewrite Hrest; left).
            subst rest. by apply list_elem_of_filter in Hc'' as [_ ?]. }
          rewrite Forall_forall in Hne. specialize (Hne _ Hc').
          by destruct (Conversation.id c').
Qed.

  (** C8.  When [addMessage] appends the first message of a conversation and
      its role is [user], the title of that conversation becomes the first
      20 code units of the content, followed by ['...'] exactly when the
      content is longer than 20: a content of at most 20 code units is the
      title as it is. *)
Theorem addMessage_first_user_title (conversationId : jsstring)
      (message : PartialMessage.t) (s : Store) ci c :
    list_find (conv_has_id conversationId) (conversations s) = Some (ci, c) →
    Conversation.messages c = [] →
    PartialMessage.role message = user →
    let content := PartialMessage.content message in
    let s' := (addMessage conversationId message s).2 in
    ∃ c',
      list_find (conv_has_id conversationId) (conversations s') = Some (ci, c')
      ∧ length (Conversation.messages c') = 1%nat
      ∧ ((20 < length content)%nat →
           Conversation.title c' = take 20 content ++ js "...")
      ∧ ((length content ≤ 20)%nat → Conversation.title c' = content).
Proof.
    intros Hf Hm Hr content s'. subst s'. unfold addMessage.
    rewrite Hf. simpl. rewrite Hm, Hr. simpl.
    eexists. split_and!.
    - eapply list_find_insert_same; [exact Hf|].
      apply list_find_Some in Hf as (_ & Hid & _). exact Hid.
    - reflexivity.
    - intros Hlen. simpl. unfold deriveTitle. fold content.
      by rewrite bool_decide_eq_true_2.
    - intros Hlen. simpl. unfold deriveTitle. fold content.
      rewrite bool_decide_eq_false_2 by lia.
      rewrite take_ge by done. apply app_nil_r.
Qed.

  (** C10.  [switchConversation i] sets [activeConversationId] to [i] and
      changes nothing else: the conversations (and so every message), the
      flags, the console and [localStorage] are as before; and when no
      conversation has the id [i], [activeConversation] is null. *)
Theorem switchConversation_frame (i : jsstring) (s : Store) :
    let s' := switchConversation i s in
    activeConversationId s' = Some i
    ∧ conversations s' = conversations s
    ∧ localStorage s' = localStorage s
    ∧ isLoading s' = isLoading s
    ∧ isStreaming s' = isStreaming s
    ∧ console s' = console s
    ∧ ticks s' = ticks s
    ∧ (i ∉ Conversation.id <$> conversations s → activeConversation s' = None).
Proof.
    simpl. split_and!; try reflexivity.
    intros Hni. unfold activeConversation, find. simpl.
    apply fmap_None, list_find_None, Forall_forall.
    intros c Hc [= Hid]. apply Hni. rewrite <- Hid. by apply list_elem_of_fmap_2.
Qed.

End store_facts.

(** ** The phase latch of the router *)

Lemma snoc_split {A} (pre post tr : list A) (x e : A) :
  tr ++ [e] = pre ++ x :: post →
  (post = [] ∧ pre = tr ∧ x = e)
  ∨ ∃ post', post = post' ++ [e] ∧ tr = pre ++ x :: post'.
Proof.
  intros Heq. destruct post as [|y post' _] using rev_ind.
  - apply app_inj_tail in Heq as [-> ->]. by left.
  - right. exists post'.
    change (pre ++ x :: post' ++ [y]) with (pre ++ (x :: post') ++ [y]) in Heq.
    rewrite app_assoc in Heq. apply app_inj_tail in Heq as [-> ->]. done.
Qed.

Lemma latched_snoc (tr : list Effect) (e : Effect) :
  latched tr → ¬ is_reasoning_call e → latched (tr ++ [e]).
Proof.
  intros Hl He pre post v Heq w Hw.
  apply snoc_split in Heq as [(-> & _ & _) | (post' & -> & ->)].
  - by apply elem_of_nil in Hw.
  - apply elem_of_app in Hw as [Hw | Hw].
    + by eapply Hl.
    + apply list_elem_of_singleton in Hw. subst e. by apply He.
Qed.

Lemma latched_snoc_reasoning (tr : list Effect) (w : value) :
  (∀ v, Call_onChunk v ∉ tr) → latched (tr ++ [Call_onReasoningChunk w]).
Proof.
  intros Hno pre post v Heq w' Hw'.
  apply snoc_split in Heq as [(-> & _ & _) | (post' & -> & ->)].
  - by apply elem_of_nil in Hw'.
  - apply (Hno v). apply elem_of_app. right. left.
Qed.

(** ** The decoding loop, step by step *)

Section steps.

Variable JSON_parse : jsstring → outcome value.
Variable TypeError_reading : prop → Error.
Context {St : Type}.
Variable callbacks : ExtendedStreamCallbacks St.

Lemma read_loop_read_chunks (cs : list Chunk) (e : ReadEnd)
    (buffer : jsstring) (r : Run St) :
  read_loop JSON_parse TypeError_reading callbacks cs e buffer r
  = read_loop JSON_parse TypeError_reading callbacks [] e []
      (read_chunks JSON_parse TypeError_reading callbacks cs buffer r).
Proof.
  revert buffer r. induction cs as [|c cs IH]; intros buffer r; [done|].
  simpl. destruct (feed buffer (decoded c)) as [lines buffer']. apply IH.
Qed.

(** A property of the locals that every step of the loop keeps. *)
Variable I : Run St → Prop.

Hypothesis I_log : ∀ e r,
  match e with Log_usage _ | Error_parse _ _ => True | _ => False end →
  I r → I (emit e r).
Hypothesis I_answering : ∀ r,
  I r → isAnswering r = false →
  I (mkRun true (caller r) (trace r ++ [Log_answering])).
Hypothesis I_reasoning : ∀ r h rc,
  onReasoningChunk callbacks = Some h → I r → isAnswering r = false →
  I (mkRun (isAnswering r) (h rc (caller r)).1
           (trace r ++ [Call_onReasoningChunk rc])).
Hypothesis I_chunk : ∀ r h ct,
  onChunk callbacks = Some h → I r → isAnswering r = true →
  I (mkRun (isAnswering r) (h ct (caller r)).1 (trace r ++ [Call_onChunk ct])).

Local Abbreviation keeps := (keeps I).

Lemma keeps_ret {A} (a : A) : keeps (ret a).
Proof. by intros r Hr. Qed.

Lemma keeps_bind {A B} (m : M A) (k : A → M B) :
  keeps m → (∀ a, keeps (k a)) → keeps (bind m k).
Proof.
  intros Hm Hk r Hr. unfold bind. specialize (Hm r Hr).
  destruct (m r) as [r' [a | t]]; simpl in *; [by apply Hk | done].
Qed.

Lemma keeps_get (v : value) (p : prop) : keeps (get TypeError_reading v p).
Proof. destruct v; intros r Hr; done. Qed.

Lemma keeps_route_reasoning (delta : value) :
  keeps (route_reasoning TypeError_reading callbacks delta).
Proof.
  apply keeps_bind; [apply keeps_get|]. intros rc.
  destruct (negb (nullish rc)); [|apply keeps_ret].
  intros r Hr. destruct (isAnswering r) eqn:Ha; simpl; [done|].
  unfold call. destruct (onReasoningChunk callbacks) as [h|] eqn:Hh; [|done].
  simpl. pose proof (I_reasoning r h rc eq_refl Hr Ha) as Hstep.
  by destruct (h rc (caller r)) as [st t].
Qed.

Lemma keeps_route_content (delta : value) :
  keeps (route_content TypeError_reading callbacks delta).
Proof.
  apply keeps_bind; [apply keeps_get|]. intros ct.
  destruct (_ && _); [|apply keeps_ret].
  intros r Hr.
  set (r1 := if negb (isAnswering r)
             then mkRun true (caller r) (trace r ++ [Log_answering]) else r).
  assert (H1 : I r1 ∧ isAnswering r1 = true).
  { subst r1. destruct (isAnswering r) eqn:Ha; simpl; [done|].
    split; [by apply I_answering | done]. }
  destruct H1 as [Hr1 Ha1]. unfold call.
  destruct (onChunk callbacks) as [h|] eqn:Hh; [|done].
  simpl. pose proof (I_chunk r1 h ct eq_refl Hr1 Ha1) as Hstep.
  by destruct (h ct (caller r1)) as [st t].
Qed.

Lemma keeps_try_frame (data : jsstring) :
  keeps (try_frame JSON_parse TypeError_reading callbacks data).
Proof.
  unfold try_frame.
  apply keeps_bind; [by intros r Hr|]. intros parsed.
  apply keeps_bind; [apply keeps_get|]. intros usage.
  destruct (truthy usage).
  { intros r Hr. by apply I_log. }
  apply keeps_bind; [apply keeps_get|]. intros choices.
  apply keeps_bind.
  { destruct (nullish choices); [apply keeps_ret | apply keeps_get]. }
  intros len. destruct (negb (truthy len)); [apply keeps_ret|].
  apply keeps_bind; [apply keeps_get|]. intros choices'.
  apply keeps_bind; [apply keeps_get|]. intros choice.
  apply keeps_bind; [apply keeps_get|]. intros delta.
  apply keeps_bind; [apply keeps_route_reasoning|]. intros _.
  apply keeps_route_content.
Qed.

Lemma process_line_keeps (line : jsstring) (r : Run St) :
  I r → I (process_line JSON_parse TypeError_reading callbacks line r).
Proof.
  intros Hr. unfold process_line.
  destruct (trim line) as [|c l] eqn:Htrim; [done|].
  destruct (startsWith _ (js ":")); [done|].
  destruct (startsWith _ data_prefix); [|done].
  case_bool_decide; [done|].
  pose proof (keeps_try_frame (trim (drop 6 (c :: l))) r Hr) as Hf.
  destruct (try_frame _ _ _ _ r) as [r' [u | t]]; simpl in Hf; [done|].
  by apply I_log.
Qed.

Lemma process_lines_keeps (lines : list jsstring) (r : Run St) :
  I r → I (process_lines JSON_parse TypeError_reading callbacks lines r).
Proof.
  revert r. induction lines as [|line lines IH]; intros r Hr; [done|].
  simpl. apply IH. by apply process_line_keeps.
Qed.

Lemma read_chunks_keeps (cs : list Chunk) (buffer : jsstring) (r : Run St) :
  I r → I (read_chunks JSON_parse TypeError_reading callbacks cs buffer r).
Proof.
  revert buffer r. induction cs as [|c cs IH]; intros buffer r Hr; [done|].
  simpl. destruct (feed buffer (decoded c)) as [lines buffer'].
  apply IH. by apply process_lines_keeps.
Qed.

End steps.

(** The frames add frame effects to the trace and nothing else. *)
Lemma read_chunks_trace {St} JSON_parse TypeError_reading
    (callbacks : ExtendedStreamCallbacks St)
    (cs : list Chunk) (buffer : jsstring) (r : Run St) :
  ∃ added,
    trace (read_chunks JSON_parse TypeError_reading callbacks cs buffer r)
    = trace r ++ added
    ∧ Forall is_frame_effect added.
Proof.
  apply (read_chunks_keeps _ _ _
           (λ r', ∃ added, trace r' = trace r ++ added
                           ∧ Forall is_frame_effect added)).
  - intros e r' He (added & Heq & Hall). exists (added ++ [e]). simpl.
    rewrite Heq, app_assoc. split; [done|].
    apply Forall_app. split; [done|]. apply Forall_singleton. by destruct e.
  - intros r' (added & Heq & Hall) _. exists (added ++ [Log_answering]).
    simpl. rewrite Heq, app_assoc. split; [done|].
    apply Forall_app. split; [done|]. by apply Forall_singleton.
  - intros r' h rc _ (added & Heq & Hall) _.
    exists (added ++ [Call_onReasoningChunk rc]).
    simpl. rewrite Heq, app_assoc. split; [done|].
    apply Forall_app. split; [done|]. by apply Forall_singleton.
  - intros r' h ct _ (added & Heq & Hall) _.
    exists (added ++ [Call_onChunk ct]).
    simpl. rewrite Heq, app_assoc. split; [done|].
    apply Forall_app. split; [done|]. by apply Forall_singleton.
  - exists []. by rewrite app_nil_r.
Qed.

(** What the callbacks keep of the caller's state, the frames keep. *)
Lemma read_chunks_caller {St} JSON_parse TypeError_reading
    (callbacks : ExtendedStreamCallbacks St) (P : St → Prop)
    (cs : list Chunk) (buffer : jsstring) (r : Run St) :
  (∀ h v st, onReasoningChunk callbacks = Some h → P st → P (h v st).1) →
  (∀ h v st, onChunk callbacks = Some h → P st → P (h v st).1) →
  P (caller r) →
  P (caller (read_chunks JSON_parse TypeError_reading callbacks cs buffer r)).
Proof.
  intros Hrc Hc. apply (read_chunks_keeps _ _ _ (λ r, P (caller r))).
  - by intros e r' _ Hr'.
  - by intros r' Hr' _.
  - intros r' h rc Hh Hr' _. simpl. by eapply Hrc.
  - intros r' h ct Hh Hr' _. simpl. by eapply Hc.
Qed.

Section latch.

Variable JSON_parse : jsstring → outcome value.
Variable TypeError_reading : prop → Error.
Variable abort_message : jsstring.
Context {St : Type}.
Variable callbacks : ExtendedStreamCallbacks St.

Lemma latch_inv_emit (e : Effect) (r : Run St) :
  latch_inv r → ¬ is_reasoning_call e → (∀ v, e ≠ Call_onChunk v) →
  latch_inv (emit e r).
Proof.
  intros [Hl Hno] He Hc. split; simpl.
  - by apply latched_snoc.
  - intros Ha v [Hv | Hv]%elem_of_app.
    + by eapply Hno.
    + apply list_elem_of_singleton in Hv. by eapply Hc.
Qed.

Lemma latch_inv_read_chunks (cs : list Chunk) (buffer : jsstring)
    (r : Run St) :
  latch_inv r →
  latch_inv (read_chunks JSON_parse TypeError_reading callbacks cs buffer r).
Proof.
  apply read_chunks_keeps.
  - intros e r' He Hr'.
    apply latch_inv_emit; [done | destruct e; simpl in *; tauto | by destruct e].
  - intros r' [Hl Hno] _. split; simpl; [|done].
    apply latched_snoc; [done|]. by intros [].
  - intros r' h rc _ [Hl Hno] Ha. split; simpl.
    + apply latched_snoc_reasoning. by apply Hno.
    + intros _ v [Hv | Hv]%elem_of_app; [by eapply Hno|].
      by apply list_elem_of_singleton in Hv.
  - intros r' h ct _ [Hl Hno] Ha. split; simpl.
    + apply latched_snoc; [done|]. by intros [].
    + by rewrite Ha.
Qed.

Lemma latch_inv_call_terminal (f : option (St → St * option thrown))
    (e : Effect) (r : Run St) :
  latch_inv r → ¬ is_reasoning_call e → (∀ v, e ≠ Call_onChunk v) →
  latch_inv (call f e r).1.
Proof.
  intros Hr He Hc. unfold call. destruct f as [h|]; [|done].
  destruct (h (caller r)) as [st t]. simpl.
  by apply (latch_inv_emit e r).
Qed.

Lemma latch_inv_read_loop (cs : list Chunk) (e : ReadEnd) (buffer : jsstring)
    (r : Run St) :
  latch_inv r →
  latch_inv (read_loop JSON_parse TypeError_reading callbacks cs e buffer r).1.
Proof.
  intros Hr. rewrite read_loop_read_chunks.
  apply (latch_inv_read_chunks cs buffer) in Hr. simpl.
  destruct e; [|done..].
  pose proof (latch_inv_call_terminal (onComplete callbacks)
                Call_onComplete _ Hr) as Hc.
  destruct (call _ _ _) as [r' [u | t]]; simpl in *; apply Hc;
    (by intros []) || done.
Qed.

Lemma latch_inv_try_block (net : Network) (messages : list Message.t)
    (r : Run St) :
  latch_inv r →
  latch_inv (try_block JSON_parse TypeError_reading abort_message callbacks
               net messages r).1.
Proof.
  intros Hr. unfold try_block.
  assert (H1 : latch_inv (emit (Fetch (formatMessage <$> messages)) r)).
  { apply latch_inv_emit; [done | by intros [] | done]. }
  destruct (60000 <=? fetch_ms net)%N; simpl.
  { apply latch_inv_emit; [|by intros [] | done].
    apply latch_inv_emit; [done | by intros [] | done]. }
  destruct (fetch_result net) as [t | response]; [done|].
  assert (H2 : latch_inv (emit ClearTimeout
                            (emit (Fetch (formatMessage <$> messages)) r))).
  { apply latch_inv_emit; [done | by intros [] | done]. }
  destruct (negb (ok response)).
  { by destruct (text response). }
  destruct (body response) as [b|]; [|done].
  by apply latch_inv_read_loop.
Qed.

Lemma latch_inv_catch_block (error : thrown) (r : Run St) :
  latch_inv r → latch_inv (catch_block callbacks error r).1.
Proof.
  intros Hr. unfold catch_block.
  assert (H1 : latch_inv (emit ClearTimeout r)).
  { apply latch_inv_emit; [done | by intros [] | done]. }
  destruct error as [e | v]; [|done].
  case_bool_decide.
  - pose proof (latch_inv_call_terminal
                  ((λ h, h (new_Error msg_timeout)) <$> onError callbacks)
                  (Call_onError (new_Error msg_timeout))
                  (emit Log_aborted (emit ClearTimeout r))) as Hc.
    destruct (call _ _ _) as [r' [u | t]]; simpl in *; apply Hc;
      try (by intros []); try done;
      (apply latch_inv_emit; [done | by intros [] | done]).
  - pose proof (latch_inv_call_terminal
                  ((λ h, h e) <$> onError callbacks) (Call_onError e)
                  (emit (Error_api e) (emit ClearTimeout r))) as Hc.
    destruct (call _ _ _) as [r' [u | t]]; simpl in *; apply Hc;
      try (by intros []); try done;
      (apply latch_inv_emit; [done | by intros [] | done]).
Qed.

(** C1.  In the trace of one invocation of [sendStreamMessage], whatever
    the network delivers and whatever the callbacks do, no call of
    [onReasoningChunk] comes after a call of [onChunk]. *)
Theorem phase_latch_one_way (net : Network) (messages : list Message.t)
    (st : St) (pre post : list Effect) (v w : value) :
  trace (sendStreamMessage JSON_parse TypeError_reading abort_message
           callbacks net messages st).1
    = pre ++ Call_onChunk v :: post →
  Call_onReasoningChunk w ∉ post.
Proof.
  intros Heq.
  assert (Hinv : latch_inv (sendStreamMessage JSON_parse TypeError_reading
                              abort_message callbacks net messages st).1).
  { unfold sendStreamMessage.
    assert (H0 : latch_inv (mkRun false st [SetTimeout 60000])).
    { split; simpl.
      - intros [|x pre'] post' v' Heq'; [done|].
        injection Heq' as _ Heq'. by destruct pre'.
      - intros _ v' Hv. apply list_elem_of_singleton in Hv. done. }
    pose proof (latch_inv_try_block net messages _ H0) as Ht.
    destruct (try_block _ _ _ _ _ _ _) as [r [c | error]]; simpl in Ht; [done|].
    by apply latch_inv_catch_block. }
  destruct Hinv as [Hl _]. by eapply Hl.
Qed.

End latch.

(** ** Malformed frames *)

Lemma startsWith_data_prefix (t : jsstring) :
  startsWith t data_prefix = true →
  ∃ c l, t = c :: l ∧ startsWith t (js ":") = false.
Proof.
  destruct t as [|c l]; [done|]. intros Hd. exists c, l. split; [done|].
  destruct (decide (c = 100%N)) as [-> | Hne]; [done|]. exfalso.
  change data_prefix with (100%N :: js "ata: ") in Hd.
  cbn [startsWith] in Hd. apply andb_true_iff in Hd as [Hc _].
  apply N.eqb_eq in Hc. done.
Qed.

Section decode.

Variable JSON_parse : jsstring → outcome value.
Variable TypeError_reading : prop → Error.
Context {St : Type}.
Variable callbacks : ExtendedStreamCallbacks St.

Local Abbreviation process_line :=
  (process_line JSON_parse TypeError_reading callbacks).
Local Abbreviation process_lines :=
  (process_lines JSON_parse TypeError_reading callbacks).

Lemma process_lines_app (l1 l2 : list jsstring) (r : Run St) :
  process_lines (l1 ++ l2) r = process_lines l2 (process_lines l1 r).
Proof. unfold process_lines. apply foldl_app. Qed.


(** A data frame that is not the [DONE] mark goes to the [try] around
    [JSON.parse]. *)
Lemma process_line_data (line data : jsstring) (r : Run St) :
  startsWith (trim line) data_prefix = true →
  data = trim (drop 6 (trim line)) →
  data ≠ DONE →
  process_line line r
  = match try_frame JSON_parse TypeError_reading callbacks data r with
    | (r', Normal _) => r'
    | (r', Throws e) => emit (Error_parse e data) r'
    end.
Proof.
  intros Hdata -> Hne. unfold process_line.
  destruct (startsWith_data_prefix _ Hdata) as (c & l & Heq & Hcomment).
  rewrite Heq in *. rewrite Hcomment, Hdata.
  by rewrite bool_decide_eq_false_2.
Qed.



End decode.

(** ** The end of a session *)


Lemma filter_none {A} (P : A → Prop) `{∀ x, Decision (P x)} (l : list A) :
  Forall (λ x, ¬ P x) l → filter P l = [].
Proof.
  induction 1 as [|x l Hx _ IH]; [done|]. by rewrite filter_cons_False.
Qed.

Section session_end.

Variable JSON_parse : jsstring → outcome value.
Variable TypeError_reading : prop → Error.
Variable abort_message : jsstring.
Context {St : Type}.
Variable callbacks : ExtendedStreamCallbacks St.
Variable net : Network.
Variable messages : list Message.t.
Variable st : St.

Local Abbreviation run :=
  (sendStreamMessage JSON_parse TypeError_reading abort_message callbacks
     net messages st).
Local Abbreviation at_stream := (at_stream messages st).
Local Abbreviation after_chunks :=
  (after_chunks JSON_parse TypeError_reading callbacks messages st).

Lemma try_block_at_stream (r : Response) (b : Body) :
  (fetch_ms net < 60000)%N → fetch_result net = Resolves r →
  ok r = true → body r = Some b →
  try_block JSON_parse TypeError_reading abort_message callbacks net messages
    (mkRun false st [SetTimeout 60000])
  = read_loop JSON_parse TypeError_reading callbacks [] (ending b) []
      (after_chunks b).
Proof.
  intros Hlt Hf Hok Hb. unfold try_block.
  apply N.leb_gt in Hlt. rewrite Hlt, Hf, Hok, Hb. simpl.
  by rewrite read_loop_read_chunks.
Qed.

Lemma after_chunks_terminals (b : Body) :
  terminals (trace (after_chunks b)) = [].
Proof.
  destruct (read_chunks_trace JSON_parse TypeError_reading callbacks
              (chunks b) [] at_stream) as (added & Heq & Hall).
  unfold after_chunks. rewrite Heq. unfold terminals.
  rewrite filter_app. simpl. apply filter_none.
  eapply Forall_impl; [exact Hall|]. intros e He Ht. by destruct e.
Qed.

Lemma after_chunks_trace (b : Body) :
  ∃ added,
    trace (after_chunks b)
    = [SetTimeout 60000; Fetch (formatMessage <$> messages); ClearTimeout]
      ++ added
    ∧ Forall no_timer_effect added.
Proof.
  destruct (read_chunks_trace JSON_parse TypeError_reading callbacks
              (chunks b) [] at_stream) as (added & Heq & Hall).
  exists added. split; [exact Heq|].
  eapply Forall_impl; [exact Hall|]. intros e He.
  destruct e; simpl in He; try done; by split.
Qed.


(** The trace of the [catch] block. *)
Lemma catch_block_trace (error : thrown) (r : Run St) :
  trace (catch_block callbacks error r).1
  = trace r ++ [ClearTimeout] ++
    match error with
    | ThrowError e =>
        [if bool_decide (name e = js "AbortError")
         then Log_aborted else Error_api e]
        ++ match onError callbacks with
           | Some _ => [Call_onError (reported e)]
           | None => []
           end
    | ThrowOther _ => []
    end.
Proof.
  unfold catch_block, reported. destruct error as [e | v]; [|done].
  case_bool_decide; unfold call; destruct (onError callbacks) as [h|]; simpl.
  - destruct (h _ _) as [st' [t|]]; simpl; by rewrite <- !app_assoc.
  - by rewrite <- !app_assoc.
  - destruct (h _ _) as [st' [t|]]; simpl; by rewrite <- !app_assoc.
  - by rewrite <- !app_assoc.
Qed.

Lemma catch_block_extends (error : thrown) (r : Run St) :
  ∃ added,
    trace (catch_block callbacks error r).1 = trace r ++ ClearTimeout :: added
    ∧ Forall no_timer_effect added.
Proof.
  rewrite catch_block_trace. eexists. split; [reflexivity|].
  destruct error as [e | v]; [|by constructor].
  case_bool_decide; destruct (onError callbacks);
    repeat (constructor; [by split|]); constructor.
Qed.

Lemma catch_block_terminals (error : thrown) (r : Run St) :
  terminals (trace r) = [] →
  terminals (trace (catch_block callbacks error r).1)
  = match error, onError callbacks with
    | ThrowError e, Some _ => [Call_onError (reported e)]
    | _, _ => []
    end.
Proof.
  intros Hr. rewrite catch_block_trace. unfold terminals in *.
  rewrite !filter_app, Hr. destruct error as [e | v]; [|done].
  rewrite filter_app. case_bool_decide; by destruct (onError callbacks).
Qed.



Lemma run_failure (t : thrown) :
  failure_path abort_message net t →
  terminals (trace run.1)
  = match t, onError callbacks with
    | ThrowError e, Some _ => [Call_onError (reported e)]
    | _, _ => []
    end.
Proof.
  intros Hfp. unfold sendStreamMessage.
  destruct Hfp as [Hle | t Hlt Hf | r errorText Hlt Hf Hok Ht
                   | r t Hlt Hf Hok Ht | r Hlt Hf Hok Hb
                   | r b t Hlt Hf Hok Hb He].
  - unfold try_block. apply N.leb_le in Hle. rewrite Hle.
    by rewrite catch_block_terminals.
  - unfold try_block. apply N.leb_gt in Hlt. rewrite Hlt, Hf. cbn [negb fst snd].
    by rewrite catch_block_terminals.
  - unfold try_block. apply N.leb_gt in Hlt. rewrite Hlt, Hf, Hok, Ht. cbn [negb fst snd].
    by rewrite catch_block_terminals.
  - unfold try_block. apply N.leb_gt in Hlt. rewrite Hlt, Hf, Hok, Ht. cbn [negb fst snd].
    by rewrite catch_block_terminals.
  - unfold try_block. apply N.leb_gt in Hlt. rewrite Hlt, Hf, Hok, Hb. cbn [negb fst snd].
    by rewrite catch_block_terminals.
  - rewrite (try_block_at_stream r b) by done. rewrite He. cbn [read_loop fst snd].
    rewrite catch_block_terminals; [done | apply after_chunks_terminals].
Qed.


(** C4, as the code has it.  The 60 s timer is armed when the request
    starts and cleared as soon as [fetch] settles.  If the 60 s pass while
    [fetch] is still pending, the transfer is aborted and [onError] gets the
    timeout error; once [fetch] has settled in time there is no abort,
    however long the rest of the transfer takes. *)
Theorem timeout_while_fetch_pending :
  ((60000 ≤ fetch_ms net)%N →
     trace run.1
     = [SetTimeout 60000; Fetch (formatMessage <$> messages); Abort;
        Warn_timeout; ClearTimeout; Log_aborted]
       ++ match onError callbacks with
          | Some _ => [Call_onError (new_Error msg_timeout)]
          | None => []
          end)
  ∧ ((fetch_ms net < 60000)%N →
       ∃ after,
         trace run.1
         = [SetTimeout 60000; Fetch (formatMessage <$> messages); ClearTimeout]
           ++ after
         ∧ (Abort ∉ after) ∧ (Warn_timeout ∉ after)).
Proof.
  split.
  - intros Hle. unfold sendStreamMessage, try_block.
    apply N.leb_le in Hle. rewrite Hle. rewrite catch_block_trace.
    simpl. by destruct (onError callbacks).
  - intros Hlt.
    assert (Hq : ∃ after,
               trace run.1
               = [SetTimeout 60000; Fetch (formatMessage <$> messages);
                  ClearTimeout] ++ after
               ∧ Forall no_timer_effect after).
    2:{ destruct Hq as (after & Heq & Hall). exists after.
        rewrite Forall_forall in Hall.
        split_and!; [done|..]; intros Hin; by destruct (Hall _ Hin). }
    unfold sendStreamMessage.
    destruct (fetch_result net) as [t | r] eqn:Hf.
    { unfold try_block. apply N.leb_gt in Hlt. rewrite Hlt, Hf.
      destruct (catch_block_extends t
                  (emit (Fetch (formatMessage <$> messages))
                     (mkRun false st [SetTimeout 60000])))
        as (added & Heq & Hall).
      exists added. by rewrite Heq. }
    destruct (ok r) eqn:Hok; [destruct (body r) as [b|] eqn:Hb|].
    + rewrite (try_block_at_stream r b) by done.
      destruct (after_chunks_trace b) as (added & Heq & Hall). simpl.
      destruct (ending b) as [|t|].
      * unfold call. destruct (onComplete callbacks) as [h|]; simpl.
        -- destruct (h _) as [st' [t|]]; simpl.
           ++ match goal with
              | |- context [catch_block _ ?e ?r] =>
                  destruct (catch_block_extends e r) as (added' & Heq' & Hall')
              end.
              rewrite Heq'. simpl. rewrite Heq.
              exists (added ++ Call_onComplete :: ClearTimeout :: added').
              split; [by rewrite <- !app_assoc|].
              apply Forall_app. split; [done|].
              repeat (constructor; [by split|]). done.
           ++ rewrite Heq. exists (added ++ [Call_onComplete]).
              split; [by rewrite <- !app_assoc|].
              apply Forall_app. split; [done|].
              repeat (constructor; [by split|]). constructor.
        -- by exists added.
      * match goal with
        | |- context [catch_block _ ?e ?r] =>
            destruct (catch_block_extends e r) as (added' & Heq' & Hall')
        end.
        rewrite Heq', Heq. exists (added ++ ClearTimeout :: added').
        split; [by rewrite <- !app_assoc|].
        apply Forall_app. split; [done|]. constructor; [by split | done].
      * by exists added.
    + unfold try_block. apply N.leb_gt in Hlt. rewrite Hlt, Hf, Hok, Hb. simpl.
      match goal with
      | |- context [catch_block _ ?e ?r] =>
          destruct (catch_block_extends e r) as (added' & Heq' & Hall')
      end.
      rewrite Heq'. simpl. exists (ClearTimeout :: added').
      split; [done|]. constructor; [by split | done].
    + unfold try_block. apply N.leb_gt in Hlt. rewrite Hlt, Hf, Hok. simpl.
      destruct (text r) as [errorText | t];
        match goal with
        | |- context [catch_block _ ?e ?r] =>
            destruct (catch_block_extends e r) as (added' & Heq' & Hall')
        end;
        rewrite Heq'; simpl; exists (ClearTimeout :: added');
        (split; [done|]); (constructor; [by split | done]).
Qed.

End session_end.

(** ** What the callbacks keep, the whole session keeps *)

Lemma sendStreamMessage_caller {St} JSON_parse TypeError_reading abort_message
    (callbacks : ExtendedStreamCallbacks St) (P : St → Prop)
    (net : Network) (messages : list Message.t) (st : St) :
  (∀ h v st, onReasoningChunk callbacks = Some h → P st → P (h v st).1) →
  (∀ h v st, onChunk callbacks = Some h → P st → P (h v st).1) →
  (∀ h st, onComplete callbacks = Some h → P st → P (h st).1) →
  (∀ h e st, onError callbacks = Some h → P st → P (h e st).1) →
  P st →
  P (caller (sendStreamMessage JSON_parse TypeError_reading abort_message
               callbacks net messages st).1).
Proof.
  intros Hrc Hc Hdone Herr Hst.
  assert (Hcatch : ∀ error r, P (caller r) →
            P (caller (catch_block callbacks error r).1)).
  { intros error r Hr. unfold catch_block. destruct error as [e | v]; [|done].
    case_bool_decide; unfold call;
      (destruct (onError callbacks) as [h|] eqn:Hh; simpl; [|done]);
      match goal with
      | |- context [h ?e' ?s'] =>
          pose proof (Herr h e' s' eq_refl Hr) as Hstep;
          by destruct (h e' s') as [st' [t|]]
      end. }
  unfold sendStreamMessage, try_block.
  destruct (60000 <=? fetch_ms net)%N; [by apply Hcatch|].
  destruct (fetch_result net) as [t | r]; [by apply Hcatch|].
  destruct (negb (ok r)).
  { destruct (text r); by apply Hcatch. }
  destruct (body r) as [b|]; [|by apply Hcatch].
  rewrite read_loop_read_chunks.
  match goal with
  | |- context [read_chunks ?a ?b ?c ?d ?e ?f] =>
      pose proof (read_chunks_caller a b c P d e f Hrc Hc Hst) as Hr;
      generalize dependent (read_chunks a b c d e f)
  end.
  intros r' Hr'. simpl. destruct (ending b) as [|t|]; [|by apply Hcatch|done].
  unfold call. destruct (onComplete callbacks) as [h|] eqn:Hh; [|done].
  pose proof (Hdone h (caller r') eq_refl Hr') as Hstep.
  destruct (h (caller r')) as [st' [t|]]; [|done]. by apply Hcatch.
Qed.

(** ** The invariant of the data model *)

Lemma findMessage_Some (conversationId messageId : jsstring) (s : Store) m :
  findMessage conversationId messageId s = Some m ↔
  ∃ ci c mi,
    list_find (conv_has_id conversationId) (conversations s) = Some (ci, c)
    ∧ list_find (msg_has_id messageId) (Conversation.messages c) = Some (mi, m).
Proof.
  unfold findMessage, find. split.
  - destruct (list_find _ (conversations s)) as [[ci c]|]; [|done]. simpl.
    destruct (list_find _ (Conversation.messages c)) as [[mi m']|] eqn:Hm;
      [|done].
    intros [= <-]. by exists ci, c, mi.
  - intros (ci & c & mi & -> & Hm). simpl. by rewrite Hm.
Qed.

Lemma findMessage_None (conversationId messageId : jsstring) (s : Store) :
  findMessage conversationId messageId s = None ↔
  match list_find (conv_has_id conversationId) (conversations s) with
  | Some (_, c) =>
      list_find (msg_has_id messageId) (Conversation.messages c) = None
  | None => True
  end.
Proof.
  unfold findMessage, find.
  destruct (list_find _ (conversations s)) as [[ci c]|]; [|done]. simpl.
  by rewrite fmap_None.
Qed.

Lemma store_ok_conversations (s s' : Store) :
  conversations s' = conversations s → store_ok s → store_ok s'.
Proof. unfold store_ok. by intros ->. Qed.

Lemma findMessage_conversations (s s' : Store) cid mid :
  conversations s' = conversations s →
  findMessage cid mid s' = findMessage cid mid s.
Proof. unfold findMessage. by intros ->. Qed.

Section store_invariant.

Variable Date_now : nat → Z.
Variable Math_random_36 : nat → jsstring.
Variable JSON_stringify : list Conversation.t → jsstring.

Local Abbreviation createConversation :=
  (createConversation Date_now Math_random_36 JSON_stringify).
Local Abbreviation deleteConversation :=
  (deleteConversation Date_now Math_random_36 JSON_stringify).
Local Abbreviation addMessage := (addMessage Date_now Math_random_36 JSON_stringify).
Local Abbreviation updateField := (updateField Date_now JSON_stringify).
Local Abbreviation updateMessage := (updateMessage Date_now JSON_stringify).
Local Abbreviation updateReasoningContent :=
  (updateReasoningContent Date_now JSON_stringify).

Lemma store_ok_createConversation s :
  store_ok s → store_ok (createConversation s).2.
Proof. intros Hs. unfold store_ok. simpl. constructor; [constructor | done]. Qed.

Lemma store_ok_deleteConversation i s :
  store_ok s → store_ok (deleteConversation i s).
Proof.
  intros Hs. unfold deleteConversation.
  destruct (findIndex _ _) as [index|]; [|done].
  assert (Hd : Forall conv_ok (delete index (conversations s))).
  { by apply Forall_delete. }
  simpl. case_bool_decide; [|done].
  destruct (delete index (conversations s)) as [|c l] eqn:Hl; [|done].
  unfold store_ok. simpl. constructor; [constructor | done].
Qed.

Lemma store_ok_switchConversation i s :
  store_ok s → store_ok (switchConversation i s).
Proof. done. Qed.

Lemma addMessage_conversations conversationId message s ci c :
  list_find (conv_has_id conversationId) (conversations s) = Some (ci, c) →
  ∃ newMessage c',
    addMessage conversationId message s
    = (Some newMessage, (addMessage conversationId message s).2)
    ∧ conversations (addMessage conversationId message s).2
      = <[ci := c']> (conversations s)
    ∧ Conversation.id c' = Conversation.id c
    ∧ Conversation.messages c' = Conversation.messages c ++ [newMessage]
    ∧ Message.id newMessage = (generateId Date_now Math_random_36 s).1
    ∧ Message.role newMessage = PartialMessage.role message
    ∧ Message.content newMessage = PartialMessage.content message
    ∧ Message.isStreaming newMessage = PartialMessage.isStreaming message
    ∧ Message.reasoningContent newMessage
      = PartialMessage.reasoningContent message.
Proof.
  intros Hf. unfold addMessage. rewrite Hf. simpl.
  eexists _, _. split_and!; try reflexivity.
  - by destruct (_ && _).
  - by destruct (_ && _).
Qed.

Lemma addMessage_unknown conversationId message s :
  list_find (conv_has_id conversationId) (conversations s) = None →
  addMessage conversationId message s = (None, s).
Proof. intros Hf. unfold addMessage. by rewrite Hf. Qed.

Lemma store_ok_addMessage conversationId message s :
  partial_ok message → store_ok s →
  store_ok (addMessage conversationId message s).2.
Proof.
  intros Hm Hs.
  destruct (list_find (conv_has_id conversationId) (conversations s))
    as [[ci c]|] eqn:Hf.
  - destruct (addMessage_conversations conversationId message s ci c Hf)
      as (newMessage & c' & _ & Hcs & _ & Hms & _ & Hr & _ & Hst & Hrc).
    unfold store_ok. rewrite Hcs. apply Forall_insert; [done|].
    unfold conv_ok. rewrite Hms. apply Forall_app. split.
    + apply list_find_Some in Hf as (Hl & _).
      unfold store_ok in Hs. rewrite Forall_lookup in Hs. by eapply Hs.
    + apply Forall_singleton. unfold msg_ok. rewrite Hr, Hst, Hrc. exact Hm.
  - by rewrite addMessage_unknown.
Qed.

(** A change of the message [f] that keeps its id: where the store goes. *)
Lemma modify_conversations (f : Message.t → Message.t) cid mid
    (cs : list Conversation.t) ci c mi m c' :
  list_find (conv_has_id cid) cs = Some (ci, c) →
  list_find (msg_has_id mid) (Conversation.messages c) = Some (mi, m) →
  Conversation.id c' = Conversation.id c →
  Conversation.messages c' = <[mi := f m]> (Conversation.messages c) →
  Message.id (f m) = Message.id m →
  list_find (conv_has_id cid) (<[ci := c']> cs) = Some (ci, c')
  ∧ list_find (msg_has_id mid) (Conversation.messages c') = Some (mi, f m).
Proof.
  intros Hc Hm Hid Hms Hfid. split.
  - eapply list_find_insert_same; [exact Hc|].
    apply list_find_Some in Hc as (_ & Hi & _).
    unfold conv_has_id in *. by rewrite Hid.
  - rewrite Hms. eapply list_find_insert_same; [exact Hm|].
    apply list_find_Some in Hm as (_ & Hi & _).
    unfold msg_has_id in *. by rewrite Hfid.
Qed.

Lemma modify_ok (f : Message.t → Message.t) cid mid
    (cs : list Conversation.t) ci c mi m c' :
  list_find (conv_has_id cid) cs = Some (ci, c) →
  list_find (msg_has_id mid) (Conversation.messages c) = Some (mi, m) →
  Conversation.messages c' = <[mi := f m]> (Conversation.messages c) →
  (msg_ok m → msg_ok (f m)) →
  Forall conv_ok cs → Forall conv_ok (<[ci := c']> cs).
Proof.
  intros Hc Hm Hms Hf Hcs.
  assert (Hok : conv_ok c).
  { apply list_find_Some in Hc as (Hl & _).
    rewrite Forall_lookup in Hcs. by eapply Hcs. }
  apply Forall_insert; [done|]. unfold conv_ok in *. rewrite Hms.
  apply Forall_insert; [done|]. apply Hf.
  apply list_find_Some in Hm as (Hl & _).
  rewrite Forall_lookup in Hok. by eapply Hok.
Qed.

Lemma updateField_found f cid mid s m :
  (∀ x, Message.id (f x) = Message.id x) →
  findMessage cid mid s = Some m →
  findMessage cid mid (updateField f cid mid s) = Some (f m)
  ∧ ((msg_ok m → msg_ok (f m)) → store_ok s →
     store_ok (updateField f cid mid s)).
Proof.
  intros Hid (ci & c & mi & Hc & Hm)%findMessage_Some.
  unfold updateField. rewrite Hc, Hm. simpl. split.
  - apply findMessage_Some. eexists ci, _, mi. simpl.
    eapply modify_conversations; done.
  - intros Hf Hs. unfold store_ok. simpl. eapply modify_ok; done.
Qed.

Lemma updateField_missing f cid mid s :
  findMessage cid mid s = None → updateField f cid mid s = s.
Proof.
  intros Hn%findMessage_None. unfold updateField.
  destruct (list_find _ (conversations s)) as [[ci c]|]; [|done].
  by rewrite Hn.
Qed.

Lemma assignMessage_found f cid mid s m :
  (∀ x, Message.id (f x) = Message.id x) →
  findMessage cid mid s = Some m →
  findMessage cid mid (assignMessage f cid mid s) = Some (f m)
  ∧ ((msg_ok m → msg_ok (f m)) → store_ok s →
     store_ok (assignMessage f cid mid s)).
Proof.
  intros Hid (ci & c & mi & Hc & Hm)%findMessage_Some.
  unfold assignMessage. rewrite Hc, Hm. simpl. split.
  - apply findMessage_Some. eexists ci, _, mi. simpl.
    eapply modify_conversations; done.
  - intros Hf Hs. unfold store_ok. simpl. eapply modify_ok; done.
Qed.

Lemma assignMessage_missing f cid mid s :
  findMessage cid mid s = None → assignMessage f cid mid s = s.
Proof.
  intros Hn%findMessage_None. unfold assignMessage.
  destruct (list_find _ (conversations s)) as [[ci c]|]; [|done].
  by rewrite Hn.
Qed.

Lemma store_ok_updateMessage cid mid content s :
  store_ok s → store_ok (updateMessage cid mid content s).
Proof.
  intros Hs. unfold updateMessage.
  destruct (findMessage cid mid s) as [m|] eqn:Hm.
  - by apply (updateField_found _ cid mid s m).
  - by rewrite updateField_missing.
Qed.

Lemma store_ok_updateReasoningContent cid mid reasoningContent s :
  (∀ m, findMessage cid mid s = Some m → Message.role m ≠ user) →
  store_ok s → store_ok (updateReasoningContent cid mid reasoningContent s).
Proof.
  intros Hr Hs. unfold updateReasoningContent.
  destruct (findMessage cid mid s) as [m|] eqn:Hm.
  - apply (updateField_found _ cid mid s m); [done..| |done].
    intros _ Hu. by destruct (Hr m eq_refl).
  - by rewrite updateField_missing.
Qed.

Lemma store_ok_loadConversations JSON_parse s :
  (∀ saved cs, localStorage s !! key_conversations = Some saved →
               JSON_parse saved = Some cs → Forall conv_ok cs) →
  store_ok s →
  store_ok (loadConversations Date_now Math_random_36 JSON_stringify
              JSON_parse s).
Proof.
  intros Hp Hs. unfold loadConversations.
  set (s1 := match localStorage s !! key_conversations with
             | Some ((_ :: _) as saved) => _ | _ => s end).
  assert (H1 : store_ok s1).
  { subst s1. destruct (localStorage s !! key_conversations) as [[|c saved]|]
      eqn:Hl; [done| |done].
    destruct (JSON_parse (c :: saved)) as [cs|] eqn:Hj; [|done].
    by eapply Hp. }
  clearbody s1.
  destruct (match localStorage s1 !! key_activeConversationId with
            | Some ((_ :: _) as savedActiveId) => _ | _ => None end); [done|].
  destruct (conversations s1) as [|c l] eqn:Hl; [|done].
  unfold store_ok. simpl. rewrite Hl. constructor; [constructor | done].
Qed.

End store_invariant.

(** ** The orchestration *)

Section orchestration_facts.

Variable Date_now : nat → Z.
Variable Math_random_36 : nat → jsstring.
Variable JSON_stringify : list Conversation.t → jsstring.
Variable JSON_parse_frame : jsstring → outcome value.
Variable TypeError_reading : prop → Error.
Variable abort_message : jsstring.

Local Abbreviation addMessage := (addMessage Date_now Math_random_36 JSON_stringify).
Local Abbreviation updateField := (updateField Date_now JSON_stringify).
Local Abbreviation handle_onReasoningChunk :=
  (handle_onReasoningChunk Date_now JSON_stringify).
Local Abbreviation handle_onChunk := (handle_onChunk Date_now JSON_stringify).
Local Abbreviation storeCallbacks := (storeCallbacks Date_now JSON_stringify).
Local Abbreviation sendMessage_setup :=
  (sendMessage_setup Date_now Math_random_36 JSON_stringify).
Local Abbreviation sendMessage :=
  (sendMessage Date_now Math_random_36 JSON_stringify JSON_parse_frame
     TypeError_reading abort_message).

Lemma target_ok_conversations cid mid (s s' : Store) :
  conversations s' = conversations s → target_ok cid mid s → target_ok cid mid s'.
Proof.
  intros Heq [Hs Hr]. split; [by eapply store_ok_conversations|].
  intros m. rewrite (findMessage_conversations s s') by done. apply Hr.
Qed.

Lemma target_ok_updateField f cid mid s :
  (∀ x, Message.id (f x) = Message.id x) →
  (∀ x, Message.role (f x) = Message.role x) →
  target_ok cid mid s → target_ok cid mid (updateField f cid mid s).
Proof.
  intros Hid Hrole Ht.
  destruct (findMessage cid mid s) as [m|] eqn:Hm.
  - destruct Ht as [Hs Hr].
    destruct (updateField_found Date_now JSON_stringify f cid mid s m Hid Hm)
      as [Hfound Hok].
    split.
    + apply Hok; [|done]. intros _ Hu. rewrite Hrole, (Hr m Hm) in Hu. done.
    + intros m'. rewrite Hfound. intros [= <-]. rewrite Hrole. by apply Hr.
  - by rewrite updateField_missing.
Qed.

Lemma target_ok_assignMessage f cid mid s :
  (∀ x, Message.id (f x) = Message.id x) →
  (∀ x, Message.role (f x) = Message.role x) →
  target_ok cid mid s → target_ok cid mid (assignMessage f cid mid s).
Proof.
  intros Hid Hrole Ht.
  destruct (findMessage cid mid s) as [m|] eqn:Hm.
  - destruct Ht as [Hs Hr].
    destruct (assignMessage_found f cid mid s m Hid Hm) as [Hfound Hok].
    split.
    + apply Hok; [|done]. intros _ Hu. rewrite Hrole, (Hr m Hm) in Hu. done.
    + intros m'. rewrite Hfound. intros [= <-]. rewrite Hrole. by apply Hr.
  - by rewrite assignMessage_missing.
Qed.

Lemma target_ok_storeCallbacks cid mid :
  let cb := storeCallbacks cid mid in
  (∀ h v s, onReasoningChunk cb = Some h → target_ok cid mid s →
            target_ok cid mid (h v s).1)
  ∧ (∀ h v s, onChunk cb = Some h → target_ok cid mid s →
              target_ok cid mid (h v s).1)
  ∧ (∀ h s, onComplete cb = Some h → target_ok cid mid s →
            target_ok cid mid (h s).1)
  ∧ (∀ h e s, onError cb = Some h → target_ok cid mid s →
              target_ok cid mid (h e s).1).
Proof.
  simpl. split_and!.
  - intros h v s [= <-] Hs. unfold handle_onReasoningChunk.
    destruct (findMessage cid mid s); [|done]. simpl.
    by apply target_ok_updateField.
  - intros h v s [= <-] Hs. unfold handle_onChunk.
    destruct (findMessage cid mid s); [|done]. simpl.
    by apply target_ok_updateField.
  - intros h s [= <-] Hs. unfold handle_onComplete. simpl.
    apply (target_ok_conversations cid mid
             (assignMessage (Message.set_isStreaming false) cid mid s));
      [done|].
    by apply target_ok_assignMessage.
  - intros h e s [= <-] Hs. unfold handle_onError. simpl.
    apply target_ok_assignMessage; [done..|].
    by apply (target_ok_conversations cid mid s).
Qed.

Lemma addMessage_returned cid message s m s' :
  addMessage cid message s = (Some m, s') →
  Message.role m = PartialMessage.role message
  ∧ Message.content m = PartialMessage.content message
  ∧ Message.isStreaming m = PartialMessage.isStreaming message
  ∧ Message.reasoningContent m = PartialMessage.reasoningContent message.
Proof.
  unfold addMessage.
  destruct (list_find _ (conversations s)) as [[ci c]|]; [|done].
  simpl. by intros [= <- _].
Qed.

Lemma sendMessage_setup_ok content s cid ai s3 :
  store_ok s →
  sendMessage_setup content s = (cid, ai, s3) →
  store_ok s3
  ∧ ∀ m, ai = Some m →
         Message.role m = assistant ∧ Message.content m = []
         ∧ Message.isStreaming m = Some true
         ∧ Message.reasoningContent m = None.
Proof.
  intros Hs. unfold sendMessage_setup.
  set (start := match activeConversation s with
                | Some c => (c, s)
                | None => createConversation Date_now Math_random_36
                            JSON_stringify s
                end).
  assert (H1 : store_ok start.2).
  { subst start. destruct (activeConversation s); [done|].
    by apply store_ok_createConversation. }
  destruct start as [conversation s1]. simpl in H1.
  set (s2 := (addMessage (Conversation.id conversation) _ s1).2).
  assert (H2 : store_ok s2).
  { subst s2. apply store_ok_addMessage; [|done]. by intros _. }
  set (s2' := set_isStreaming true (set_isLoading true s2)).
  assert (H2' : store_ok s2') by done.
  pose proof (store_ok_addMessage Date_now Math_random_36 JSON_stringify
                (Conversation.id conversation)
                (PartialMessage.mk assistant [] (Some true) None) s2') as H3.
  destruct (addMessage (Conversation.id conversation) _ s2') as [ai' s3'] eqn:Ha.
  intros [= <- <- <-]. split.
  - apply H3; [|done]. by intros [=].
  - intros m ->. by apply addMessage_returned in Ha.
Qed.

Lemma store_ok_sendMessage import net content s :
  store_ok s →
  (∀ cid ai s3, sendMessage_setup content s = (cid, Some ai, s3) →
                findMessage cid (Message.id ai) s3 = Some ai) →
  store_ok (sendMessage import net content s).1.1.
Proof.
  intros Hs Hfresh. unfold sendMessage.
  destruct (trim content) as [|c l]; [done|].
  destruct (sendMessage_setup content s) as [[cid ai] s3] eqn:Hsetup.
  destruct (sendMessage_setup_ok content s cid ai s3 Hs Hsetup) as [H3 Hai].
  destruct ai as [ai|]; [|done].
  destruct import as [t|]; [done|].
  destruct (Hai ai eq_refl) as (Hrole & _).
  assert (Ht : target_ok cid (Message.id ai) s3).
  { split; [done|]. intros m. rewrite (Hfresh cid ai s3 eq_refl).
    by intros [= <-]. }
  destruct (target_ok_storeCallbacks cid (Message.id ai))
    as (Hrc & Hc & Hdone & Herr).
  match goal with
  | |- context [sendStreamMessage ?a ?b ?c ?d ?e ?f ?g] =>
      pose proof (sendStreamMessage_caller a b c d
                    (target_ok cid (Message.id ai)) e f g
                    Hrc Hc Hdone Herr Ht) as [Hfinal _];
      destruct (sendStreamMessage a b c d e f g) as [r [| t |]]
  end; done.
Qed.

(** *** Chunks are appended in the order of arrival *)

Local Abbreviation deliver := (deliver Date_now JSON_stringify).

Lemma deliver_found cid mid s d m :
  findMessage cid mid s = Some m →
  ∃ m',
    findMessage cid mid (deliver cid mid s d) = Some m'
    ∧ Message.content m'
      = Message.content m
        ++ match d with Content c => c | Reasoning _ => [] end
    ∧ match d with
      | Reasoning c =>
          Message.reasoningContent m'
          = Some (default [] (Message.reasoningContent m) ++ c)
      | Content _ => Message.reasoningContent m' = Message.reasoningContent m
      end.
Proof.
  intros Hm. destruct d as [c | c]; simpl.
  - unfold handle_onReasoningChunk. rewrite Hm. simpl.
    eexists. split; [by apply updateField_found|]. simpl.
    by rewrite app_nil_r.
  - unfold handle_onChunk. rewrite Hm. simpl.
    eexists. split; [by apply updateField_found|]. done.
Qed.

Lemma deliver_all cid mid (ds : list delivery) s m :
  findMessage cid mid s = Some m →
  ∃ m',
    findMessage cid mid (foldl (deliver cid mid) s ds) = Some m'
    ∧ Message.content m' = Message.content m ++ content_of ds
    ∧ Message.reasoningContent m'
      = match reasoning_chunks ds with
        | [] => Message.reasoningContent m
        | _ => Some (default [] (Message.reasoningContent m) ++ reasoning_of ds)
        end.
Proof.
  revert s m. induction ds as [|d ds IH]; intros s m Hm.
  - exists m. by rewrite !app_nil_r.
  - destruct (deliver_found cid mid s d m Hm) as (m1 & Hm1 & Hc1 & Hr1).
    destruct (IH _ _ Hm1) as (m' & Hm' & Hc' & Hr').
    exists m'. split; [done|]. rewrite Hc', Hr', Hc1.
    destruct d as [c | c]; rewrite Hr1.
    + change (reasoning_chunks (Reasoning c :: ds))
        with (c :: reasoning_chunks ds).
      change (reasoning_of (Reasoning c :: ds)) with (c ++ reasoning_of ds).
      change (content_of (Reasoning c :: ds)) with (content_of ds).
      rewrite app_nil_r. split; [done|]. unfold reasoning_of.
      destruct (reasoning_chunks ds) as [|x l]; simpl.
      * by rewrite app_nil_r.
      * by rewrite <- app_assoc.
    + change (content_of (Content c :: ds)) with (c ++ content_of ds).
      by rewrite <- app_assoc.
Qed.

(** C6.  Whatever reasoning and content chunks the two handlers of
    [sendMessage] are given, in whatever interleaving: starting from the
    placeholder (no text yet), the stored [content] of the assistant message
    is the concatenation of the content chunks and its [reasoningContent]
    the concatenation of the reasoning chunks, each in the order of arrival
    (with no reasoning chunk at all the field stays absent, which the
    handler reads as the empty text). *)
Theorem chunks_concatenated (cid mid : jsstring) (ds : list delivery)
    (s : Store) (placeholder : Message.t) :
  findMessage cid mid s = Some placeholder →
  Message.content placeholder = [] →
  Message.reasoningContent placeholder = None →
  ∃ m,
    findMessage cid mid (foldl (deliver cid mid) s ds) = Some m
    ∧ Message.content m = content_of ds
    ∧ default [] (Message.reasoningContent m) = reasoning_of ds
    ∧ Message.reasoningContent m
      = match reasoning_chunks ds with
        | [] => None
        | _ => Some (reasoning_of ds)
        end.
Proof.
  intros Hm Hc Hr.
  destruct (deliver_all cid mid ds s placeholder Hm) as (m & Hm' & Hc' & Hr').
  exists m. rewrite Hc', Hr', Hc, Hr. split_and!; [done..| |done].
  unfold reasoning_of. by destruct (reasoning_chunks ds).
Qed.

End orchestration_facts.

(** C5, as the code has it.  From a store in which no user message has a
    [reasoningContent] or [isStreaming = true]:
    [createConversation], [deleteConversation], [switchConversation] and
    [updateMessage] keep it so; [addMessage] does when the message it is
    given is itself in order; [updateReasoningContent] does when the
    message it finds is not a user message; [sendMessage] does when the id
    generated for the placeholder finds the placeholder (it is not the id of
    an earlier message of the conversation); [loadConversations] does when
    the conversations parsed from [localStorage] are in order. *)
Theorem invariant_preserved
    (Date_now : nat → Z) (Math_random_36 : nat → jsstring)
    (JSON_stringify : list Conversation.t → jsstring)
    (JSON_parse : jsstring → option (list Conversation.t))
    (JSON_parse_frame : jsstring → outcome value)
    (TypeError_reading : prop → Error) (abort_message : jsstring)
    (s : Store) :
  store_ok s →
  store_ok (createConversation Date_now Math_random_36 JSON_stringify s).2
  ∧ (∀ i, store_ok (deleteConversation Date_now Math_random_36
                      JSON_stringify i s))
  ∧ (∀ i, store_ok (switchConversation i s))
  ∧ (∀ cid message,
       partial_ok message →
       store_ok (addMessage Date_now Math_random_36 JSON_stringify
                   cid message s).2)
  ∧ (∀ cid mid content,
       store_ok (updateMessage Date_now JSON_stringify cid mid content s))
  ∧ (∀ cid mid reasoningContent,
       (∀ m, findMessage cid mid s = Some m → Message.role m ≠ user) →
       store_ok (updateReasoningContent Date_now JSON_stringify
                   cid mid reasoningContent s))
  ∧ (∀ import net content,
       (∀ cid ai s3,
          sendMessage_setup Date_now Math_random_36 JSON_stringify content s
          = (cid, Some ai, s3) →
          findMessage cid (Message.id ai) s3 = Some ai) →
       store_ok (sendMessage Date_now Math_random_36 JSON_stringify
                   JSON_parse_frame TypeError_reading abort_message
                   import net content s).1.1)
  ∧ ((∀ saved cs, localStorage s !! key_conversations = Some saved →
                  JSON_parse saved = Some cs → Forall conv_ok cs) →
     store_ok (loadConversations Date_now Math_random_36 JSON_stringify
                 JSON_parse s)).
Proof.
  intros Hs. split_and!.
  - by apply store_ok_createConversation.
  - intros i. by apply store_ok_deleteConversation.
  - done.
  - intros cid message Hm. by apply store_ok_addMessage.
  - intros cid mid content. by apply store_ok_updateMessage.
  - intros cid mid rc Hr. by apply store_ok_updateReasoningContent.
  - intros import net content Hfresh. by apply store_ok_sendMessage.
  - intros Hp. by apply store_ok_loadConversations.
Qed.

(** * Examples *)

Local Abbreviation demo_session := 
  (sendStreamMessage Demo.JSON_parse Demo.TypeError_reading Demo.abort_message).
Local Abbreviation demo_sendMessage :=
  (sendMessage Demo.Date_now Demo.Math_random_36 Demo.JSON_stringify
     Demo.JSON_parse Demo.TypeError_reading Demo.abort_message).

(** The stream of the specification: a reasoning frame, an answer frame,
    [DONE]. *)
Example session_think_answer_done :
  trace (demo_session Demo.silent
           (Demo.stream [Demo.think; Demo.answer; js "data: [DONE]"]) [] tt).1
  = [SetTimeout 60000; Fetch []; ClearTimeout;
     Call_onReasoningChunk (VString (js "think")); Log_answering;
     Call_onChunk (VString (js "answer")); Call_onComplete].
Proof. vm_compute. reflexivity. Qed.

(** A response with status 500. *)
Example session_status_500 :
  trace (demo_session Demo.silent
           (mkNetwork 80 (Resolves (mkResponse false 500
                                      (Normal (js "oops")) None))) [] tt).1
  = [SetTimeout 60000; Fetch []; ClearTimeout; ClearTimeout;
     Error_api (new_Error (js "HTTP 500: oops"));
     Call_onError (new_Error (js "HTTP 500: oops"))].
Proof. vm_compute. reflexivity. Qed.

(** A frame cut in two by the chunk boundary is put together again; what is
    left in the buffer at the end of the stream is dropped. *)
Example session_split_frame :
  trace (demo_session Demo.silent
           (mkNetwork 80 (Resolves (mkResponse true 200 (Normal [])
              (Some (mkBody [mkChunk 1 (take 30 Demo.answer);
                             mkChunk 1 (drop 30 Demo.answer ++ [10%N]
                                        ++ Demo.think)]
                            1 StreamDone))))) [] tt).1
  = [SetTimeout 60000; Fetch []; ClearTimeout; Log_answering;
     Call_onChunk (VString (js "answer")); Call_onComplete].
Proof. vm_compute. reflexivity. Qed.

(** A malformed frame between two valid ones, end to end. *)
Example session_malformed_between :
  trace (demo_session Demo.silent
           (Demo.stream [Demo.think; Demo.oops; Demo.answer]) [] tt).1
  = [SetTimeout 60000; Fetch []; ClearTimeout;
     Call_onReasoningChunk (VString (js "think"));
     Error_parse (ThrowError Demo.SyntaxError) (js "{oops");
     Log_answering; Call_onChunk (VString (js "answer")); Call_onComplete].
Proof. vm_compute. reflexivity. Qed.

Lemma phase_latch_one_way_witness :
  trace (demo_session Demo.silent
           (Demo.stream [Demo.think; Demo.answer; Demo.late]) [] tt).1
  = [SetTimeout 60000; Fetch []; ClearTimeout;
     Call_onReasoningChunk (VString (js "think")); Log_answering]
    ++ Call_onChunk (VString (js "answer")) :: [Call_onComplete]
  ∧ Call_onReasoningChunk (VString (js "late")) ∉ [Call_onComplete].
Proof.
  split; [vm_compute; reflexivity|].
  apply (phase_latch_one_way Demo.JSON_parse Demo.TypeError_reading
           Demo.abort_message Demo.silent
           (Demo.stream [Demo.think; Demo.answer; Demo.late]) [] tt
           [SetTimeout 60000; Fetch []; ClearTimeout;
            Call_onReasoningChunk (VString (js "think")); Log_answering]
           [Call_onComplete] (VString (js "answer"))).
  vm_compute. reflexivity.
Defined.




(** C4 as stated fails: the transfer lasts more than 60 s, the timer was
    cleared when the response arrived, and the session ends with
    [onComplete]: no abort, no [onError]. *)
Lemma streaming_outlives_timeout :
  (60000 < transfer_ms Demo.slow_stream)%N
  ∧ trace (demo_session Demo.silent Demo.slow_stream [] tt).1
    = [SetTimeout 60000; Fetch []; ClearTimeout; Log_answering;
       Call_onChunk (VString (js "answer")); Call_onComplete]
  ∧ (Abort ∉ trace (demo_session Demo.silent Demo.slow_stream [] tt).1)
  ∧ ∀ e, Call_onError e ∉ trace (demo_session Demo.silent Demo.slow_stream [] tt).1.
Proof.
  assert (Htr : trace (demo_session Demo.silent Demo.slow_stream [] tt).1
                = [SetTimeout 60000; Fetch []; ClearTimeout; Log_answering;
                   Call_onChunk (VString (js "answer")); Call_onComplete])
    by (vm_compute; reflexivity).
  split_and!; [vm_compute; reflexivity | exact Htr | |].
  - rewrite Htr. intros Hin.
    repeat (apply elem_of_cons in Hin as [Hin | Hin]; [discriminate|]).
    by apply elem_of_nil in Hin.
  - intros e. rewrite Htr. intros Hin.
    repeat (apply elem_of_cons in Hin as [Hin | Hin]; [discriminate|]).
    by apply elem_of_nil in Hin.
Qed.

Lemma timeout_while_fetch_pending_witness :
  (60000 ≤ fetch_ms Demo.no_response)%N
  ∧ trace (demo_session Demo.silent Demo.no_response [] tt).1
    = [SetTimeout 60000; Fetch []; Abort; Warn_timeout; ClearTimeout;
       Log_aborted; Call_onError (new_Error msg_timeout)].
Proof.
  assert (H : (60000 ≤ fetch_ms Demo.no_response)%N)
    by (vm_compute; discriminate).
  split; [exact H|].
  exact (proj1 (timeout_while_fetch_pending Demo.JSON_parse
                  Demo.TypeError_reading Demo.abort_message Demo.silent
                  Demo.no_response [] tt) H).
Defined.

(** A whole exchange: the user message, then the answer with its reasoning;
    the title is taken from the user message. *)
Example sendMessage_exchange :
  let '(s, _, c) :=
    demo_sendMessage None (Demo.stream [Demo.think; Demo.answer])
      (js " Hi ") (Demo.store [] None) in
  summaries s = [[(user, js "Hi", None, None);
                  (assistant, js "answer", Some false, Some (js "think"))]]
  ∧ Conversation.title <$> conversations s = [js "Hi"]
  ∧ isLoading s = false ∧ isStreaming s = false ∧ c = Fulfilled.
Proof. vm_compute. done. Qed.

(** A failed request: the diagnostic replaces the content. *)
Example sendMessage_status_500 :
  let '(s, _, _) :=
    demo_sendMessage None
      (mkNetwork 80 (Resolves (mkResponse false 500 (Normal (js "oops")) None)))
      (js "Hi") (Demo.store [] None) in
  summaries s
  = [[(user, js "Hi", None, None);
      (assistant, errorTemplate (new_Error (js "HTTP 500: oops")),
       Some false, None)]]
  ∧ isLoading s = false ∧ isStreaming s = false.
Proof. vm_compute. done. Qed.

(** C2: the code at the failing input.  The module of the service fails to
    load, after the placeholder has been appended: the [catch] of
    [sendMessage] resets the two flags and writes to the console, and that is
    all.  The placeholder stays as it was made, empty and with
    [isStreaming = true]; no diagnostic is put in the conversation. *)
Lemma import_failure_leaves_placeholder_streaming :
  let '(s, tr, c) :=
    demo_sendMessage (Some Demo.load_failure) (Demo.stream [Demo.answer])
      (js "Hi") (Demo.store [] None) in
  summaries s = [[(user, js "Hi", None, None);
                  (assistant, [], Some true, None)]]
  ∧ isLoading s = false ∧ isStreaming s = false
  ∧ console s = [LogSendFailed] ∧ tr = [] ∧ c = Fulfilled.
Proof. vm_compute. done. Qed.

(** The same, for any platform, any store and any content that is not
    blank. *)
Lemma sendMessage_import_failure Date_now Math_random_36 JSON_stringify
    JSON_parse_frame TypeError_reading abort_message
    (t : thrown) (net : Network) (content : jsstring) (s : Store) cid ai s3 :
  trim content ≠ [] →
  sendMessage_setup Date_now Math_random_36 JSON_stringify content s
  = (cid, Some ai, s3) →
  let s' := (sendMessage Date_now Math_random_36 JSON_stringify
               JSON_parse_frame TypeError_reading abort_message
               (Some t) net content s).1.1 in
  conversations s' = conversations s3
  ∧ isLoading s' = false ∧ isStreaming s' = false
  ∧ Message.content ai = [] ∧ Message.isStreaming ai = Some true.
Proof.
  intros Hne Hsetup. unfold sendMessage.
  destruct (trim content) as [|c l]; [done|]. rewrite Hsetup. simpl.
  split_and!; try done; unfold sendMessage_setup in Hsetup;
    destruct (match activeConversation s with Some c0 => _ | None => _ end)
      as [conversation s1];
    match type of Hsetup with
    | context [addMessage ?a ?b ?c ?d ?e ?f] =>
        destruct (addMessage a b c d e f) as [ai' s3'] eqn:Ha
    end;
    injection Hsetup as <- -> <-;
    by apply addMessage_returned in Ha as (_ & ? & ? & _).
Qed.

(** C5 as stated fails: [updateReasoningContent] does not look at the role,
    and gives a user message a [reasoningContent]. *)
Lemma updateReasoningContent_on_user_message :
  store_ok demo_store
  ∧ summaries (updateReasoningContent Demo.Date_now Demo.JSON_stringify
                 (js "c1") (js "m1") (js "hmm") demo_store)
    = [[(user, js "hello", None, Some (js "hmm"))]]
  ∧ ¬ store_ok (updateReasoningContent Demo.Date_now Demo.JSON_stringify
                  (js "c1") (js "m1") (js "hmm") demo_store).
Proof.
  split_and!.
  - repeat constructor; done.
  - vm_compute. reflexivity.
  - intros H. apply Forall_inv in H. apply Forall_inv in H.
    destruct (H eq_refl) as [Hrc _]. vm_compute in Hrc. discriminate Hrc.
Qed.

Lemma invariant_preserved_witness :
  store_ok demo_store
  ∧ store_ok (demo_sendMessage None (Demo.stream [Demo.think; Demo.answer])
                (js "Hi") demo_store).1.1
  ∧ store_ok (updateMessage Demo.Date_now Demo.JSON_stringify
                (js "c1") (js "m1") (js "bye") demo_store).
Proof.
  assert (H : store_ok demo_store) by (repeat constructor; done).
  pose proof (invariant_preserved Demo.Date_now Demo.Math_random_36
                Demo.JSON_stringify (λ _, None) Demo.JSON_parse
                Demo.TypeError_reading Demo.abort_message demo_store H)
    as (_ & _ & _ & _ & Hupd & _ & Hsend & _).
  split_and!; [exact H | | apply Hupd].
  apply Hsend. intros cid ai s3 Hsetup.
  vm_compute in Hsetup. injection Hsetup as <- <- <-.
  vm_compute. reflexivity.
Defined.

Lemma chunks_concatenated_witness :
  let s := (demo_sendMessage (Some Demo.load_failure) (Demo.stream [])
              (js "Hi") (Demo.store [] None)).1.1 in
  let cid := js "1700000000000-k3x9q1" in
  let mid := js "1700000000008-k3x9q9" in
  let ds := [Reasoning (js "th"); Content (js "an"); Reasoning (js "ink");
             Content (js "swer")] in
  (summary <$> findMessage cid mid s) = Some (assistant, [], Some true, None)
  ∧ ∃ m,
      findMessage cid mid
        (foldl (deliver Demo.Date_now Demo.JSON_stringify cid mid) s ds)
      = Some m
      ∧ Message.content m = js "answer"
      ∧ default [] (Message.reasoningContent m) = js "think".
Proof.
  intros s cid mid ds. split; [vm_compute; reflexivity|].
  destruct (findMessage cid mid s) as [placeholder|] eqn:Hm;
    [|vm_compute in Hm; discriminate Hm].
  assert (Hc : Message.content placeholder = []).
  { vm_compute in Hm. injection Hm as <-. reflexivity. }
  assert (Hr : Message.reasoningContent placeholder = None).
  { vm_compute in Hm. injection Hm as <-. reflexivity. }
  destruct (chunks_concatenated Demo.Date_now Demo.JSON_stringify cid mid ds
              s placeholder Hm Hc Hr) as (m & Hfound & Hcontent & Hreason & _).
  exists m. split_and!; [exact Hfound | |].
  - rewrite Hcontent. vm_compute. reflexivity.
  - rewrite Hreason. vm_compute. reflexivity.
Defined.

Lemma deleteConversation_spec_witness :
  let s := Demo.store [Demo.conv "a" []; Demo.conv "b" []] (Some (js "a")) in
  let s' := deleteConversation Demo.Date_now Demo.Math_random_36
              Demo.JSON_stringify (js "a") s in
  NoDup (Conversation.id <$> conversations s)
  ∧ Forall (λ c, Conversation.id c ≠ []) (conversations s)
  ∧ conversations s' = [Demo.conv "b" []]
  ∧ activeConversationId s' = Some (js "b").
Proof.
  intros s s'.
  assert (Hnd : NoDup (Conversation.id <$> conversations s))
    by (apply (bool_decide_unpack _); vm_compute; exact I).
  assert (Hne : Forall (λ c, Conversation.id c ≠ []) (conversations s))
    by (repeat constructor; vm_compute; discriminate).
  split_and!; [exact Hnd | exact Hne | |];
    destruct (deleteConversation_spec Demo.Date_now Demo.Math_random_36
                Demo.JSON_stringify (js "a") s Hnd Hne) as (_ & _ & Hin);
    (destruct Hin as [_ Hact]; [vm_compute; left|]);
    specialize (Hact eq_refl); apply Hact.
Defined.

(** Deleting the only conversation leaves exactly one, new and active. *)
Example deleteConversation_last :
  let s' := deleteConversation Demo.Date_now Demo.Math_random_36
              Demo.JSON_stringify (js "a")
              (Demo.store [Demo.conv "a" []] (Some (js "a"))) in
  conversations s'
  = [Conversation.mk (js "1700000000000-k3x9q1") defaultTitle []
       1700000000002 1700000000003]
  ∧ activeConversationId s' = Some (js "1700000000000-k3x9q1").
Proof. vm_compute. done. Qed.

Lemma addMessage_first_user_title_witness :
  let s := Demo.store [Demo.conv "c1" []] (Some (js "c1")) in
  let message := PartialMessage.mk user (js "Hi") None None in
  let s' := (addMessage Demo.Date_now Demo.Math_random_36 Demo.JSON_stringify
               (js "c1") message s).2 in
  list_find (conv_has_id (js "c1")) (conversations s)
  = Some (0%nat, Demo.conv "c1" [])
  ∧ PartialMessage.role message = user
  ∧ ∃ c', list_find (conv_has_id (js "c1")) (conversations s') = Some (0%nat, c')
          ∧ Conversation.title c' = js "Hi".
Proof.
  intros s message s'.
  assert (Hf : list_find (conv_has_id (js "c1")) (conversations s)
               = Some (0%nat, Demo.conv "c1" []))
    by (vm_compute; reflexivity).
  split_and!; [exact Hf | reflexivity |].
  destruct (addMessage_first_user_title Demo.Date_now Demo.Math_random_36
              Demo.JSON_stringify (js "c1") message s 0%nat
              (Demo.conv "c1" []) Hf eq_refl eq_refl)
    as (c' & Hfound & _ & _ & Hshort).
  exists c'. split; [exact Hfound|]. apply Hshort. vm_compute. lia.
Defined.

(** The long message of the specification. *)
Example title_of_long_message :
  let content :=
    js "Hello world, this is a long message exceeding twenty chars" in
  Conversation.title <$>
    conversations (addMessage Demo.Date_now Demo.Math_random_36
                     Demo.JSON_stringify (js "c1")
                     (PartialMessage.mk user content None None)
                     (Demo.store [Demo.conv "c1" []] (Some (js "c1")))).2
  = [js "Hello world, this is..."].
Proof. vm_compute. reflexivity. Qed.

Lemma switchConversation_frame_witness :
  let s := Demo.store [Demo.conv "a" []] (Some (js "a")) in
  let s' := switchConversation (js "zzz") s in
  (js "zzz" ∉ Conversation.id <$> conversations s)
  ∧ activeConversationId s' = Some (js "zzz")
  ∧ conversations s' = conversations s
  ∧ localStorage s' = localStorage s
  ∧ activeConversation s' = None.
Proof.
  intros s s'.
  assert (Hni : js "zzz" ∉ Conversation.id <$> conversations s).
  { intros Hin. apply elem_of_cons in Hin as [Hin | Hin];
      [vm_compute in Hin; discriminate Hin | by apply elem_of_nil in Hin]. }
  destruct (switchConversation_frame (js "zzz") s)
    as (Ha & Hc & Hl & _ & _ & _ & _ & Hnone).
  split_and!; [exact Hni | exact Ha | exact Hc | exact Hl | exact (Hnone Hni)].
Defined.

(** * Further properties *)

(** ** The decoder and the chunk boundaries *)

Lemma split_lines_nonempty (s : jsstring) : split_lines s ≠ [].
Proof.
  induction s as [|c s IH]; [done|]. simpl.
  destruct (c =? 10)%N; [done|]. by destruct (split_lines s).
Qed.

Lemma removelast_app_nonempty {A} (l1 l2 : list A) :
  l2 ≠ [] → removelast (l1 ++ l2) = l1 ++ removelast l2.
Proof. intros H. by apply removelast_app. Qed.

Lemma last_app_nonempty {A} (l1 l2 : list A) (d : A) :
  l2 ≠ [] → List.last (l1 ++ l2) d = List.last l2 d.
Proof.
  intros H. induction l1 as [|x l1 IH]; [done|].
  simpl. rewrite IH. destruct (l1 ++ l2) eqn:Heq; [|done].
  apply app_eq_nil in Heq as [_ ->]. done.
Qed.

(** Splitting a text that comes in two parts: the complete lines of the
    first part, then the lines of what was left of it followed by the
    second part. *)
Lemma split_lines_app (a b : jsstring) :
  split_lines (a ++ b)
  = removelast (split_lines a) ++ split_lines (List.last (split_lines a) [] ++ b).
Proof.
  induction a as [|c a IH]; [done|].
  pose proof (split_lines_nonempty a) as Hne.
  change ((c :: a) ++ b) with (c :: (a ++ b)).
  cbn [split_lines]. destruct (c =? 10)%N eqn:Hc.
  - rewrite IH. destruct (split_lines a) as [|l ls]; [done|]. done.
  - rewrite IH. destruct (split_lines a) as [|l ls]; [done|].
    destruct ls as [|l2 ls'].
    + simpl. rewrite Hc. done.
    + cbn [removelast List.last app]. done.
Qed.

Lemma split_lines_no_newline (s : jsstring) :
  10%N ∉ s → split_lines s = [s].
Proof.
  induction s as [|c s IH]; [done|]. intros Hni.
  apply not_elem_of_cons in Hni as [Hc Hs]. simpl.
  destruct (c =? 10)%N eqn:Heq; [apply N.eqb_eq in Heq; congruence|].
  by rewrite IH.
Qed.

Lemma last_split_lines_no_newline (s : jsstring) :
  10%N ∉ List.last (split_lines s) [].
Proof.
  induction s as [|c s IH]; [by apply not_elem_of_nil|].
  pose proof (split_lines_nonempty s) as Hne. simpl.
  destruct (c =? 10)%N eqn:Heq.
  - destruct (split_lines s) as [|l ls]; [done|]. exact IH.
  - destruct (split_lines s) as [|l ls]; [done|].
    destruct ls as [|l2 ls']; [|exact IH].
    simpl in *. apply not_elem_of_cons. split; [|done].
    intros <-. done.
Qed.

Section chunking.

Variable JSON_parse : jsstring → outcome value.
Variable TypeError_reading : prop → Error.
Variable abort_message : jsstring.
Context {St : Type}.
Variable callbacks : ExtendedStreamCallbacks St.

Local Abbreviation process_lines :=
  (process_lines JSON_parse TypeError_reading callbacks).
Local Abbreviation read_chunks :=
  (read_chunks JSON_parse TypeError_reading callbacks).

Lemma read_chunks_buffer (cs : list Chunk) (buffer : jsstring) (r : Run St) :
  10%N ∉ buffer →
  read_chunks cs buffer r
  = process_lines (complete_lines (buffer ++ body_text cs)) r.
Proof.
  revert buffer r. induction cs as [|c cs IH]; intros buffer r Hbuf.
  - unfold body_text, complete_lines. simpl. rewrite app_nil_r.
    by rewrite split_lines_no_newline.
  - simpl. unfold feed.
    rewrite IH by apply last_split_lines_no_newline.
    rewrite <- process_lines_app. f_equal.
    unfold body_text, complete_lines. simpl.
    rewrite (app_assoc buffer). generalize (buffer ++ decoded c). intros t.
    rewrite (split_lines_app t).
    rewrite removelast_app_nonempty by apply split_lines_nonempty. done.
Qed.

(** What the loop processes of a body are the complete lines of its whole
    text. *)
Lemma read_chunks_complete_lines (cs : list Chunk) (r : Run St) :
  read_chunks cs [] r = process_lines (complete_lines (body_text cs)) r.
Proof. apply read_chunks_buffer, not_elem_of_nil. Qed.

End chunking.

Section sessions.

Variable JSON_parse : jsstring → outcome value.
Variable TypeError_reading : prop → Error.
Variable abort_message : jsstring.
Context {St : Type}.
Variable callbacks : ExtendedStreamCallbacks St.

Local Abbreviation session :=
  (sendStreamMessage JSON_parse TypeError_reading abort_message callbacks).
Local Abbreviation read_chunks :=
  (read_chunks JSON_parse TypeError_reading callbacks).
Local Abbreviation after_chunks :=
  (after_chunks JSON_parse TypeError_reading callbacks).

(** A session that gets to read the body: the chunks, then the end of the
    stream. *)
Lemma session_at_stream (net : Network) (messages : list Message.t) (st : St)
    (b : Body) :
  reaches_stream net b →
  session net messages st
  = match read_loop JSON_parse TypeError_reading callbacks [] (ending b) []
            (after_chunks messages st b) with
    | (r, Normal c) => (r, c)
    | (r, Throws error) => catch_block callbacks error r
    end.
Proof.
  intros (r & Hlt & Hf & Hok & Hb). unfold sendStreamMessage.
  by rewrite (try_block_at_stream JSON_parse TypeError_reading abort_message
                callbacks net messages st r b).
Qed.

Lemma complete_lines_tail (t tail : jsstring) :
  10%N ∉ tail → complete_lines (t ++ tail) = complete_lines t.
Proof.
  intros Htail. unfold complete_lines. rewrite split_lines_app.
  rewrite (split_lines_no_newline (List.last (split_lines t) [] ++ tail)).
  - rewrite removelast_app_nonempty by done. simpl. apply app_nil_r.
  - intros [Hin | Hin]%elem_of_app; [|done].
    by apply (last_split_lines_no_newline t).
Qed.

(** X1.  How the body is cut into chunks does not matter: two responses whose
    chunks make up the same text, and that end the same way, give the same
    session (the same calls of the callbacks in the same order, the same
    state of the caller, the same completion). *)
Theorem chunk_boundaries_irrelevant (net net' : Network)
    (messages : list Message.t) (st : St) (b b' : Body) :
  reaches_stream net b →
  reaches_stream net' b' →
  body_text (chunks b) = body_text (chunks b') →
  ending b = ending b' →
  session net messages st = session net' messages st.
Proof.
  intros Hb Hb' Htext Hend.
  rewrite (session_at_stream net messages st b Hb).
  rewrite (session_at_stream net' messages st b' Hb').
  unfold after_chunks.
  rewrite Hend. by rewrite !read_chunks_complete_lines, Htext.
Qed.

(** X2.  What follows the last newline of the body is never processed: a
    last line that is not terminated, be it a whole data frame, is dropped
    when the stream ends. *)
Theorem unterminated_last_line_dropped (net net' : Network)
    (messages : list Message.t) (st : St) (b b' : Body) (tail : jsstring) :
  reaches_stream net b →
  reaches_stream net' b' →
  body_text (chunks b') = body_text (chunks b) ++ tail →
  10%N ∉ tail →
  ending b = ending b' →
  session net' messages st = session net messages st.
Proof.
  intros Hb Hb' Htext Htail Hend.
  rewrite (session_at_stream net messages st b Hb).
  rewrite (session_at_stream net' messages st b' Hb').
  unfold after_chunks.
  rewrite Hend. rewrite !read_chunks_complete_lines, Htext.
  by rewrite complete_lines_tail.
Qed.

End sessions.

(** ** What the callbacks are given, and when *)

Section routed_steps.

Variable JSON_parse : jsstring → outcome value.
Variable TypeError_reading : prop → Error.
Context {St : Type}.
Variable callbacks : ExtendedStreamCallbacks St.

(** A property of the locals that every step of the loop keeps, knowing what
    the callbacks are given. *)
Variable I : Run St → Prop.

Hypothesis I_log : ∀ e r,
  match e with Log_usage _ | Error_parse _ _ => True | _ => False end →
  I r → I (emit e r).
Hypothesis I_answering : ∀ r,
  I r → isAnswering r = false →
  I (mkRun true (caller r) (trace r ++ [Log_answering])).
Hypothesis I_reasoning : ∀ r h rc,
  onReasoningChunk callbacks = Some h → nullish rc = false →
  I r → isAnswering r = false →
  I (mkRun (isAnswering r) (h rc (caller r)).1
           (trace r ++ [Call_onReasoningChunk rc])).
Hypothesis I_chunk : ∀ r h ct,
  onChunk callbacks = Some h → truthy ct = true →
  I r → isAnswering r = true →
  I (mkRun (isAnswering r) (h ct (caller r)).1 (trace r ++ [Call_onChunk ct])).

Local Abbreviation keeps := (keeps I).

Lemma routed_route_reasoning (delta : value) :
  keeps (route_reasoning TypeError_reading callbacks delta).
Proof.
  apply keeps_bind; [apply keeps_get|]. intros rc.
  destruct (nullish rc) eqn:Hrc; simpl; [apply keeps_ret|].
  intros r Hr. destruct (isAnswering r) eqn:Ha; simpl; [done|].
  unfold call. destruct (onReasoningChunk callbacks) as [h|] eqn:Hh; [|done].
  simpl. pose proof (I_reasoning r h rc eq_refl Hrc Hr Ha) as Hstep.
  by destruct (h rc (caller r)) as [st t].
Qed.

Lemma routed_route_content (delta : value) :
  keeps (route_content TypeError_reading callbacks delta).
Proof.
  apply keeps_bind; [apply keeps_get|]. intros ct.
  destruct (negb (is_undefined ct) && truthy ct) eqn:Hct; [|apply keeps_ret].
  apply andb_true_iff in Hct as [_ Hct].
  intros r Hr.
  set (r1 := if negb (isAnswering r)
             then mkRun true (caller r) (trace r ++ [Log_answering]) else r).
  assert (H1 : I r1 ∧ isAnswering r1 = true).
  { subst r1. destruct (isAnswering r) eqn:Ha; simpl; [done|].
    split; [by apply I_answering | done]. }
  destruct H1 as [Hr1 Ha1]. unfold call.
  destruct (onChunk callbacks) as [h|] eqn:Hh; [|done].
  simpl. pose proof (I_chunk r1 h ct eq_refl Hct Hr1 Ha1) as Hstep.
  by destruct (h ct (caller r1)) as [st t].
Qed.

Lemma routed_try_frame (data : jsstring) :
  keeps (try_frame JSON_parse TypeError_reading callbacks data).
Proof.
  unfold try_frame.
  apply keeps_bind; [by intros r Hr|]. intros parsed.
  apply keeps_bind; [apply keeps_get|]. intros usage.
  destruct (truthy usage).
  { intros r Hr. by apply I_log. }
  apply keeps_bind; [apply keeps_get|]. intros choices.
  apply keeps_bind.
  { destruct (nullish choices); [apply keeps_ret | apply keeps_get]. }
  intros len. destruct (negb (truthy len)); [apply keeps_ret|].
  apply keeps_bind; [apply keeps_get|]. intros choices'.
  apply keeps_bind; [apply keeps_get|]. intros choice.
  apply keeps_bind; [apply keeps_get|]. intros delta.
  apply keeps_bind; [apply routed_route_reasoning|]. intros _.
  apply routed_route_content.
Qed.

Lemma routed_process_line (line : jsstring) (r : Run St) :
  I r → I (process_line JSON_parse TypeError_reading callbacks line r).
Proof.
  intros Hr. unfold process_line.
  destruct (trim line) as [|c l] eqn:Htrim; [done|].
  destruct (startsWith _ (js ":")); [done|].
  destruct (startsWith _ data_prefix); [|done].
  case_bool_decide; [done|].
  pose proof (routed_try_frame (trim (drop 6 (c :: l))) r Hr) as Hf.
  destruct (try_frame _ _ _ _ r) as [r' [u | t]]; simpl in Hf; [done|].
  by apply I_log.
Qed.

Lemma routed_process_lines (lines : list jsstring) (r : Run St) :
  I r → I (process_lines JSON_parse TypeError_reading callbacks lines r).
Proof.
  revert r. induction lines as [|line lines IH]; intros r Hr; [done|].
  simpl. apply IH. by apply routed_process_line.
Qed.

Lemma routed_read_chunks (cs : list Chunk) (buffer : jsstring) (r : Run St) :
  I r → I (read_chunks JSON_parse TypeError_reading callbacks cs buffer r).
Proof.
  revert buffer r. induction cs as [|c cs IH]; intros buffer r Hr; [done|].
  simpl. destruct (feed buffer (decoded c)) as [lines buffer'].
  apply IH. by apply routed_process_lines.
Qed.

End routed_steps.

(** What the frames add to the trace. *)
Lemma read_chunks_routed {St} JSON_parse TypeError_reading
    (callbacks : ExtendedStreamCallbacks St)
    (cs : list Chunk) (buffer : jsstring) (r : Run St) :
  ∃ added,
    trace (read_chunks JSON_parse TypeError_reading callbacks cs buffer r)
    = trace r ++ added
    ∧ Forall is_routed_effect added.
Proof.
  apply (routed_read_chunks _ _ _
           (λ r', ∃ added, trace r' = trace r ++ added
                           ∧ Forall is_routed_effect added)).
  - intros e r' He (added & Heq & Hall). exists (added ++ [e]). simpl.
    rewrite Heq, app_assoc. split; [done|].
    apply Forall_app. split; [done|]. apply Forall_singleton. by destruct e.
  - intros r' (added & Heq & Hall) _. exists (added ++ [Log_answering]).
    simpl. rewrite Heq, app_assoc. split; [done|].
    apply Forall_app. split; [done|]. by apply Forall_singleton.
  - intros r' h rc _ Hrc (added & Heq & Hall) _.
    exists (added ++ [Call_onReasoningChunk rc]).
    simpl. rewrite Heq, app_assoc. split; [done|].
    apply Forall_app. split; [done|]. by apply Forall_singleton.
  - intros r' h ct _ Hct (added & Heq & Hall) _.
    exists (added ++ [Call_onChunk ct]).
    simpl. rewrite Heq, app_assoc. split; [done|].
    apply Forall_app. split; [done|]. by apply Forall_singleton.
  - exists []. by rewrite app_nil_r.
Qed.

Lemma split_after_prefix {A} (P : A → Prop) (prefix rest before after : list A)
    (e : A) :
  prefix ++ rest = before ++ e :: after →
  Forall (λ x, ¬ P x) prefix → P e →
  ∃ l, rest = l ++ e :: after.
Proof.
  revert before. induction prefix as [|x prefix IH]; intros before Heq Hall He.
  - by exists before.
  - apply Forall_cons in Hall as [Hx Hall].
    destruct before as [|y before]; simplify_eq/=; [done|].
    by eapply IH.
Qed.

Section session_shape.

Variable JSON_parse : jsstring → outcome value.
Variable TypeError_reading : prop → Error.
Variable abort_message : jsstring.
Context {St : Type}.
Variable callbacks : ExtendedStreamCallbacks St.
Variable net : Network.
Variable messages : list Message.t.
Variable st : St.

Local Abbreviation run :=
  (sendStreamMessage JSON_parse TypeError_reading abort_message callbacks
     net messages st).

Lemma catch_block_closing (error : thrown) (r : Run St) :
  ∃ post,
    trace (catch_block callbacks error r).1 = trace r ++ post
    ∧ Forall is_closing_effect post.
Proof.
  rewrite catch_block_trace. eexists. split; [reflexivity|].
  constructor; [done|]. destruct error as [e | v]; [|by constructor].
  case_bool_decide; destruct (onError callbacks);
    repeat (constructor; [done|]); constructor.
Qed.

Local Ltac shape_eq :=
  simpl; rewrite <- ?app_assoc; simpl; rewrite ?app_nil_r; reflexivity.

(** The trace of a session: the timer and the request, then what sets the
    transfer up, then what the frames add, then what closes the session. *)
Lemma session_trace_shape :
  ∃ pre frames post,
    trace run.1
    = SetTimeout 60000 :: Fetch (formatMessage <$> messages)
      :: pre ++ frames ++ post
    ∧ Forall is_setup_effect pre
    ∧ Forall is_routed_effect frames
    ∧ Forall is_closing_effect post.
Proof.
  unfold sendStreamMessage.
  destruct (decide (60000 ≤ fetch_ms net)%N) as [Hle | Hlt].
  { unfold try_block. apply N.leb_le in Hle. rewrite Hle.
    match goal with
    | |- context [catch_block _ ?e ?r] =>
        destruct (catch_block_closing e r) as (post & Heq & Hpost)
    end.
    exists [Abort; Warn_timeout], [], post. rewrite Heq.
    split_and!; [shape_eq | by repeat constructor | constructor | done]. }
  apply N.nle_gt in Hlt.
  destruct (fetch_result net) as [t | r] eqn:Hf.
  { unfold try_block. apply N.leb_gt in Hlt. rewrite Hlt, Hf.
    match goal with
    | |- context [catch_block _ ?e ?r] =>
        destruct (catch_block_closing e r) as (post & Heq & Hpost)
    end.
    exists [], [], post. rewrite Heq.
    split_and!; [shape_eq | constructor | constructor | done]. }
  destruct (ok r) eqn:Hok; [destruct (body r) as [b|] eqn:Hb|].
  - rewrite (try_block_at_stream JSON_parse TypeError_reading abort_message
               callbacks net messages st r b) by done.
    destruct (read_chunks_routed JSON_parse TypeError_reading callbacks
                (chunks b) [] (at_stream messages st))
      as (frames & Heq & Hframes).
    unfold after_chunks.
    generalize dependent (read_chunks JSON_parse TypeError_reading callbacks
                            (chunks b) [] (at_stream messages st)).
    intros R Heq. simpl in Heq. simpl. destruct (ending b) as [|t|].
    + unfold call. destruct (onComplete callbacks) as [h|]; simpl.
      * destruct (h _) as [st' [t|]]; simpl.
        -- match goal with
           | |- context [catch_block _ ?e ?r] =>
               destruct (catch_block_closing e r) as (post & Heq' & Hpost)
           end.
           rewrite Heq'. simpl. rewrite Heq.
           exists [ClearTimeout], frames, (Call_onComplete :: post).
           split_and!; [shape_eq | by repeat constructor
                        | done | by constructor].
        -- rewrite Heq. exists [ClearTimeout], frames, [Call_onComplete].
           split_and!; [shape_eq | by repeat constructor
                        | done | by repeat constructor].
      * rewrite Heq. exists [ClearTimeout], frames, [].
        split_and!; [shape_eq | by repeat constructor
                     | done | constructor].
    + match goal with
      | |- context [catch_block _ ?e ?r] =>
          destruct (catch_block_closing e r) as (post & Heq' & Hpost)
      end.
      rewrite Heq', Heq. exists [ClearTimeout], frames, post.
      split_and!; [shape_eq | by repeat constructor
                   | done | done].
    + simpl. rewrite Heq. exists [ClearTimeout], frames, [].
      split_and!; [shape_eq | by repeat constructor
                   | done | constructor].
  - unfold try_block. apply N.leb_gt in Hlt. rewrite Hlt, Hf, Hok, Hb.
    cbn [negb fst snd].
    match goal with
    | |- context [catch_block _ ?e ?r] =>
        destruct (catch_block_closing e r) as (post & Heq & Hpost)
    end.
    exists [ClearTimeout], [], post. rewrite Heq.
    split_and!; [shape_eq | by repeat constructor | constructor | done].
  - unfold try_block. apply N.leb_gt in Hlt. rewrite Hlt, Hf, Hok.
    cbn [negb fst snd].
    destruct (text r) as [errorText | t];
      match goal with
      | |- context [catch_block _ ?e ?r] =>
          destruct (catch_block_closing e r) as (post & Heq & Hpost)
      end;
      exists [ClearTimeout], [], post; rewrite Heq;
      (split_and!; [shape_eq | by repeat constructor | constructor | done]).
Qed.

(** X3.  The callbacks are never given an empty chunk: in every session
    [onChunk] is only called with a truthy value (never [''], [null] or
    [undefined]) and [onReasoningChunk] only with a value that is neither
    [null] nor [undefined]. *)
Theorem callback_arguments :
  Forall argument_ok (trace run.1).
Proof.
  destruct session_trace_shape as (pre & frames & post & -> & Hpre & Hfr & Hpost).
  constructor; [done|]. constructor; [done|].
  rewrite !Forall_app. split_and!.
  - eapply Forall_impl; [exact Hpre|]. intros e He. by destruct e.
  - eapply Forall_impl; [exact Hfr|]. intros e He. by destruct e.
  - eapply Forall_impl; [exact Hpost|]. intros e He. by destruct e.
Qed.

(** X4.  A terminal callback is the last callback of a session: once
    [onComplete] or [onError] has been called, neither [onChunk] nor
    [onReasoningChunk] is called any more. *)
Theorem no_chunk_after_terminal (before after : list Effect) (e : Effect) :
  trace run.1 = before ++ e :: after →
  is_terminal e →
  Forall (λ e', ¬ is_chunk_call e') after.
Proof.
  destruct session_trace_shape as (pre & frames & post & -> & Hpre & Hfr & Hpost).
  intros Heq He.
  assert (Hquiet : Forall (λ e', ¬ is_terminal e')
                     (SetTimeout 60000 :: Fetch (formatMessage <$> messages)
                      :: pre ++ frames)).
  { constructor; [by intros []|]. constructor; [by intros []|].
    apply Forall_app. split.
    - eapply Forall_impl; [exact Hpre|]. intros e' He' Ht. by destruct e'.
    - eapply Forall_impl; [exact Hfr|]. intros e' He' Ht. by destruct e'. }
  change (SetTimeout 60000 :: Fetch (formatMessage <$> messages)
          :: pre ++ frames ++ post)
    with ((SetTimeout 60000 :: Fetch (formatMessage <$> messages) :: pre)
          ++ frames ++ post) in Heq.
  rewrite app_assoc in Heq.
  change ((SetTimeout 60000 :: Fetch (formatMessage <$> messages) :: pre)
          ++ frames)
    with (SetTimeout 60000 :: Fetch (formatMessage <$> messages)
          :: pre ++ frames) in Heq.
  destruct (split_after_prefix is_terminal _ _ _ _ _ Heq Hquiet He)
    as (l & Hl).
  rewrite Hl in Hpost. apply Forall_app in Hpost as [_ Hpost].
  apply Forall_cons in Hpost as [_ Hpost].
  eapply Forall_impl; [exact Hpost|]. intros e' He' Hc. by destruct e'.
Qed.

End session_shape.

(** ** The store: unknown ids, and what an update leaves alone *)

Lemma list_find_insert_neither {A} (P : A → Prop) `{∀ x, Decision (P x)}
    (l : list A) (i : nat) (x y : A) :
  l !! i = Some x → ¬ P x → ¬ P y →
  list_find P (<[i := y]> l) = list_find P l.
Proof.
  revert i. induction l as [|z l IH]; intros i Hl Hx Hy; [done|].
  destruct i as [|i]; simpl in Hl.
  - injection Hl as ->. change (<[0%nat := y]> (x :: l)) with (y :: l).
    rewrite !list_find_cons_eq. by rewrite !decide_False by done.
  - change (<[S i := y]> (z :: l)) with (z :: <[i := y]> l).
    rewrite !list_find_cons_eq. destruct (decide (P z)); [done|].
    by rewrite (IH i).
Qed.

Lemma list_find_unknown (i : jsstring) (cs : list Conversation.t) :
  i ∉ Conversation.id <$> cs → list_find (conv_has_id i) cs = None.
Proof.
  intros Hni. apply list_find_None, Forall_forall. intros c Hc Hid.
  apply Hni. rewrite <- Hid. by apply list_elem_of_fmap_2.
Qed.

Section store_edges.

Variable Date_now : nat → Z.
Variable Math_random_36 : nat → jsstring.
Variable JSON_stringify : list Conversation.t → jsstring.

Local Abbreviation addMessage := (addMessage Date_now Math_random_36 JSON_stringify).
Local Abbreviation updateField := (updateField Date_now JSON_stringify).
Local Abbreviation updateMessage := (updateMessage Date_now JSON_stringify).
Local Abbreviation updateReasoningContent :=
  (updateReasoningContent Date_now JSON_stringify).
Local Abbreviation createConversation :=
  (createConversation Date_now Math_random_36 JSON_stringify).
Local Abbreviation deleteConversation :=
  (deleteConversation Date_now Math_random_36 JSON_stringify).
Local Abbreviation saveConversations := (saveConversations JSON_stringify).
Local Abbreviation persisted := (persisted JSON_stringify).

(** X5.  [addMessage] on a conversation id that does not exist returns
    nothing and leaves the store as it is: no message, no id or clock
    reading consumed, nothing written to [localStorage]. *)
Theorem addMessage_unknown_conversation (conversationId : jsstring)
    (message : PartialMessage.t) (s : Store) :
  conversationId ∉ Conversation.id <$> conversations s →
  addMessage conversationId message s = (None, s).
Proof. intros Hni. by apply addMessage_unknown, list_find_unknown. Qed.

(** X6.  [updateMessage] and [updateReasoningContent] on a message that is
    not found (no conversation with the id, or no message with the id in
    it) leave the store as it is, [localStorage] and [updatedAt] included. *)
Theorem update_unknown_message (conversationId messageId text : jsstring)
    (s : Store) :
  findMessage conversationId messageId s = None →
  updateMessage conversationId messageId text s = s
  ∧ updateReasoningContent conversationId messageId text s = s.
Proof. intros Hn. split; by apply updateField_missing. Qed.

Lemma updateField_other f cid mid s m cid' mid' :
  (∀ x, Message.id (f x) = Message.id x) →
  findMessage cid mid s = Some m →
  (cid', mid') ≠ (cid, mid) →
  findMessage cid' mid' (updateField f cid mid s) = findMessage cid' mid' s.
Proof.
  intros Hid (ci & c & mi & Hc & Hm)%findMessage_Some Hne.
  unfold updateField. rewrite Hc, Hm. unfold findMessage, find. simpl.
  pose proof Hc as (Hci & Hcid & _)%list_find_Some.
  pose proof Hm as (Hmi & Hmid & _)%list_find_Some.
  unfold conv_has_id, msg_has_id in *.
  destruct (decide (cid' = cid)) as [-> | Hcne].
  - erewrite list_find_insert_same; [|exact Hc|done]. rewrite Hc. simpl.
    assert (Hmne : mid' ≠ mid) by congruence.
    rewrite (list_find_insert_neither _ _ mi m (f m)); [done..| |].
    + unfold msg_has_id. congruence.
    + unfold msg_has_id. rewrite Hid. congruence.
  - rewrite (list_find_insert_neither _ _ ci c); [done|done|..];
      unfold conv_has_id; simpl; congruence.
Qed.

(** X7.  [updateMessage] on a message that is found replaces its content
    and nothing else of it, and changes no other message: every other
    lookup by conversation id and message id gives what it gave before, and
    the active id and the two flags are as before. *)
Theorem updateMessage_frame (conversationId messageId content : jsstring)
    (s : Store) (m : Message.t) :
  findMessage conversationId messageId s = Some m →
  let s' := updateMessage conversationId messageId content s in
  findMessage conversationId messageId s' = Some (Message.set_content content m)
  ∧ (∀ cid' mid', (cid', mid') ≠ (conversationId, messageId) →
       findMessage cid' mid' s' = findMessage cid' mid' s)
  ∧ Conversation.id <$> conversations s' = Conversation.id <$> conversations s
  ∧ activeConversationId s' = activeConversationId s
  ∧ isLoading s' = isLoading s ∧ isStreaming s' = isStreaming s.
Proof.
  intros Hm s'. subst s'. unfold updateMessage. split_and!.
  - by apply updateField_found.
  - intros cid' mid' Hne. by eapply updateField_other.
  - apply findMessage_Some in Hm as (ci & c & mi & Hc & Hmi).
    unfold updateField. rewrite Hc, Hmi. simpl.
    apply list_find_Some in Hc as (Hci & _).
    rewrite list_fmap_insert. simpl. by apply list_insert_id, list_lookup_fmap_Some_2.
  - apply findMessage_Some in Hm as (ci & c & mi & Hc & Hmi).
    unfold updateField. by rewrite Hc, Hmi.
  - apply findMessage_Some in Hm as (ci & c & mi & Hc & Hmi).
    unfold updateField. by rewrite Hc, Hmi.
  - apply findMessage_Some in Hm as (ci & c & mi & Hc & Hmi).
    unfold updateField. by rewrite Hc, Hmi.
Qed.

End store_edges.

(** ** The store and [localStorage] *)

Lemma keys_differ : key_conversations ≠ key_activeConversationId.
Proof. vm_compute. discriminate. Qed.

Lemma find_by_id_in_rest (i : jsstring) (cs : list Conversation.t) n c x :
  list_find (conv_has_id i) cs = Some (n, c) →
  x ∈ cs → Conversation.id x ≠ i → x ∈ delete n cs.
Proof.
  revert n. induction cs as [|y cs IH]; intros n Hf Hx Hne; [done|].
  rewrite list_find_cons_eq in Hf. destruct (decide (conv_has_id i y)) as [Hy|Hy].
  - injection Hf as <- <-. simpl.
    apply elem_of_cons in Hx as [-> | Hx]; [done | done].
  - destruct (list_find _ cs) as [[k z]|] eqn:Hl; [|done].
    injection Hf as <- <-. simpl.
    apply elem_of_cons in Hx as [-> | Hx]; [left|right; by eapply IH].
Qed.

Lemma find_active_head (c : Conversation.t) (cs : list Conversation.t) :
  find (λ c', Some (Conversation.id c') = Some (Conversation.id c)) (c :: cs)
  = Some c.
Proof. unfold find. rewrite list_find_cons_eq. by rewrite decide_True. Qed.

Section persistence.

Variable Date_now : nat → Z.
Variable Math_random_36 : nat → jsstring.
Variable JSON_stringify : list Conversation.t → jsstring.
Variable JSON_parse : jsstring → option (list Conversation.t).

Local Abbreviation addMessage := (addMessage Date_now Math_random_36 JSON_stringify).
Local Abbreviation updateField := (updateField Date_now JSON_stringify).
Local Abbreviation updateMessage := (updateMessage Date_now JSON_stringify).
Local Abbreviation updateReasoningContent :=
  (updateReasoningContent Date_now JSON_stringify).
Local Abbreviation createConversation :=
  (createConversation Date_now Math_random_36 JSON_stringify).
Local Abbreviation deleteConversation :=
  (deleteConversation Date_now Math_random_36 JSON_stringify).
Local Abbreviation saveConversations := (saveConversations JSON_stringify).
Local Abbreviation persisted := (persisted JSON_stringify).
Local Abbreviation loadConversations :=
  (loadConversations Date_now Math_random_36 JSON_stringify JSON_parse).
Local Abbreviation appStart :=
  (appStart Date_now Math_random_36 JSON_stringify JSON_parse).

Lemma persisted_saveConversations s : persisted (saveConversations s).
Proof.
  split; simpl.
  - rewrite lookup_insert_ne by (symmetry; apply keys_differ).
    by rewrite lookup_insert_eq.
  - by rewrite lookup_insert_eq.
Qed.

Lemma persisted_createConversation s : persisted (createConversation s).2.
Proof. apply persisted_saveConversations. Qed.

Lemma persisted_updateField f cid mid s m :
  findMessage cid mid s = Some m → persisted (updateField f cid mid s).
Proof.
  intros (ci & c & mi & Hc & Hm)%findMessage_Some.
  unfold updateField. rewrite Hc, Hm. apply persisted_saveConversations.
Qed.

Lemma persisted_addMessage cid message s ci c :
  list_find (conv_has_id cid) (conversations s) = Some (ci, c) →
  persisted (addMessage cid message s).2.
Proof.
  intros Hf. unfold addMessage. rewrite Hf. apply persisted_saveConversations.
Qed.

(** X8.  Every operation that changes the conversations writes them out:
    after [createConversation], after [deleteConversation] and [addMessage]
    on a conversation that exists, and after [updateMessage] and
    [updateReasoningContent] on a message that is found, [localStorage]
    holds the serialization of the conversations and the active id (or the
    empty string) of the store as it then is. *)
Theorem mutations_are_persisted (s : Store) :
  persisted (createConversation s).2
  ∧ (∀ i, i ∈ Conversation.id <$> conversations s →
          persisted (deleteConversation i s))
  ∧ (∀ cid message, cid ∈ Conversation.id <$> conversations s →
                    persisted (addMessage cid message s).2)
  ∧ (∀ cid mid text m, findMessage cid mid s = Some m →
       persisted (updateMessage cid mid text s)
       ∧ persisted (updateReasoningContent cid mid text s)).
Proof.
  split_and!.
  - apply persisted_createConversation.
  - intros i Hin. unfold deleteConversation.
    destruct (findIndex _ _) as [index|] eqn:Hf.
    + apply persisted_saveConversations.
    + by apply findIndex_None_iff in Hf.
  - intros cid message Hin.
    destruct (list_find (conv_has_id cid) (conversations s)) as [[ci c]|] eqn:Hf.
    + by eapply persisted_addMessage.
    + exfalso. apply list_find_None in Hf. rewrite Forall_forall in Hf.
      apply list_elem_of_fmap in Hin as (c & -> & Hc). by apply (Hf c).
  - intros cid mid text m Hm. split; by eapply persisted_updateField.
Qed.

Lemma appStart_persisted (s : Store) (a : jsstring) :
  persisted s →
  JSON_stringify (conversations s) ≠ [] →
  JSON_parse (JSON_stringify (conversations s)) = Some (conversations s) →
  activeConversationId s = Some a →
  a ≠ [] →
  a ∈ Conversation.id <$> conversations s →
  conversations (appStart (localStorage s)) = conversations s
  ∧ activeConversationId (appStart (localStorage s)) = Some a.
Proof.
  intros [Hcs Hact] Hne Hrt Ha Hane Hin.
  unfold appStart, loadConversations.
  change (localStorage (initialStore (localStorage s))) with (localStorage s).
  unfold jsstring in *. rewrite Hcs.
  destruct (JSON_stringify (conversations s)) as [|x saved] eqn:Hs; [done|].
  rewrite Hrt.
  cbn [localStorage set_conversations initialStore conversations].
  rewrite Hact, Ha. cbn [from_option id].
  destruct a as [|y a]; [done|].
  assert (Hfind : is_Some (find (conv_has_id (y :: a)) (conversations s))).
  { apply list_elem_of_fmap in Hin as (c & Hid & Hc).
    unfold find. apply fmap_is_Some. eapply list_find_elem_of; [exact Hc|].
    by unfold conv_has_id. }
  destruct Hfind as [c Hfind]. rewrite Hfind. done.
Qed.

(** X9.  Save, then load: when [JSON.parse] reads back what
    [JSON.stringify] wrote, a page load on the [localStorage] of a store that
    has been saved, with an active id that is not empty and is the id of one
    of its conversations, gives the same conversations and the same active
    id. *)
Theorem save_load_round_trip (s : Store) (a : jsstring) :
  persisted s →
  JSON_stringify (conversations s) ≠ [] →
  JSON_parse (JSON_stringify (conversations s)) = Some (conversations s) →
  activeConversationId s = Some a →
  a ≠ [] →
  a ∈ Conversation.id <$> conversations s →
  conversations (appStart (localStorage s)) = conversations s
  ∧ activeConversationId (appStart (localStorage s)) = Some a.
Proof. apply appStart_persisted. Qed.

(** X10.  [switchConversation] writes nothing: after a switch, a page load
    brings back the active id that was last saved, not the one switched
    to. *)
Theorem switch_lost_on_reload (s : Store) (a i : jsstring) :
  persisted s →
  JSON_stringify (conversations s) ≠ [] →
  JSON_parse (JSON_stringify (conversations s)) = Some (conversations s) →
  activeConversationId s = Some a →
  a ≠ [] →
  a ∈ Conversation.id <$> conversations s →
  localStorage (switchConversation i s) = localStorage s
  ∧ activeConversationId (appStart (localStorage (switchConversation i s)))
    = Some a.
Proof.
  intros Hp Hne Hrt Ha Hane Hin. split; [done|].
  change (localStorage (switchConversation i s)) with (localStorage s).
  by apply appStart_persisted.
Qed.

End persistence.

(** ** The start of the application *)

Section app_start.

Variable Date_now : nat → Z.
Variable Math_random_36 : nat → jsstring.
Variable JSON_stringify : list Conversation.t → jsstring.
Variable JSON_parse : jsstring → option (list Conversation.t).

Local Abbreviation createConversation :=
  (createConversation Date_now Math_random_36 JSON_stringify).
Local Abbreviation deleteConversation :=
  (deleteConversation Date_now Math_random_36 JSON_stringify).
Local Abbreviation saveConversations := (saveConversations JSON_stringify).
Local Abbreviation appStart :=
  (appStart Date_now Math_random_36 JSON_stringify JSON_parse).

Lemma active_after_create (s : Store) :
  activeConversation (createConversation s).2 = Some (createConversation s).1
  ∧ activeConversationId (createConversation s).2
    = Some (Conversation.id (createConversation s).1).
Proof. split; [apply find_active_head | done]. Qed.

Lemma active_head (c : Conversation.t) (cs : list Conversation.t) (s : Store) :
  conversations s = c :: cs → Conversation.id c ≠ [] →
  activeConversation (set_activeConversationId (or_null (Conversation.id c)) s)
  = Some c.
Proof.
  intros Hcs Hne. unfold activeConversation. simpl. rewrite Hcs.
  destruct (Conversation.id c) as [|x i] eqn:Hid; [done|].
  unfold find. rewrite list_find_cons_eq. rewrite decide_True; [done|].
  by rewrite Hid.
Qed.

Lemma active_found (a : jsstring) (s : Store) :
  is_Some (find (conv_has_id a) (conversations s)) →
  ∃ c, activeConversation (set_activeConversationId (Some a) s) = Some c
       ∧ Conversation.id c = a.
Proof.
  intros [c Hc]. unfold find in Hc. apply fmap_Some in Hc as ([n c'] & Hf & ->).
  exists c'. unfold activeConversation, find. simpl.
  rewrite (list_find_ext _ (conv_has_id a)).
  - rewrite Hf. split; [done|]. by apply list_find_Some in Hf as (_ & ? & _).
  - intros x. unfold conv_has_id. split; congruence.
Qed.

(** X11.  What a page load makes active.  When nothing is stored under
    ['conversations'], the application starts with one new, empty
    conversation, which is active.  When the text stored there parses to
    the conversations [cs], none with an empty id, there is an active
    conversation after the load: with [cs] empty a new one, which is then
    the only one; else [cs] is what the store holds, and the active one is
    the one the saved id finds if it finds one, and the first of [cs] if
    not. *)
Theorem appStart_has_active (ls : gmap jsstring jsstring) :
  (ls !! key_conversations = None ∨ ls !! key_conversations = Some [] →
   ∃ fresh,
     conversations (appStart ls) = [fresh]
     ∧ Conversation.messages fresh = []
     ∧ activeConversation (appStart ls) = Some fresh)
  ∧ (∀ saved cs,
       ls !! key_conversations = Some saved →
       saved ≠ [] →
       JSON_parse saved = Some cs →
       ids_nonempty cs →
       ∃ c,
         activeConversation (appStart ls) = Some c
         ∧ activeConversationId (appStart ls) = Some (Conversation.id c)
         ∧ match cs with
           | [] =>
               conversations (appStart ls) = [c]
               ∧ Conversation.messages c = []
           | first :: _ =>
               conversations (appStart ls) = cs
               ∧ match ls !! key_activeConversationId with
                 | Some ((_ :: _) as a) =>
                     match find (conv_has_id a) cs with
                     | Some c' => c = c'
                     | None => c = first
                     end
                 | _ => c = first
                 end
           end).
Proof.
  split.
  - intros Hnone. unfold appStart, loadConversations.
    change (localStorage (initialStore ls)) with ls.
    assert (Hs1 : match ls !! key_conversations with
                  | Some ((_ :: _) as saved) =>
                      match JSON_parse saved with
                      | Some cs => set_conversations cs (initialStore ls)
                      | None => log_store LogLoadFailed (initialStore ls)
                      end
                  | _ => initialStore ls
                  end = initialStore ls).
    { unfold jsstring in *. by destruct Hnone as [-> | ->]. }
    unfold jsstring in *. rewrite Hs1.
    change (localStorage (initialStore ls)) with ls.
    change (conversations (initialStore ls)) with (@nil Conversation.t).
    assert (Hrestore :
      match ls !! key_activeConversationId with
      | Some ((_ :: _) as savedActiveId) =>
          match find (conv_has_id savedActiveId) (@nil Conversation.t) with
          | Some _ => Some savedActiveId
          | None => None
          end
      | _ => None
      end = None).
    { by destruct (ls !! key_activeConversationId) as [[|y a]|]. }
    unfold jsstring in *. rewrite Hrestore.
    eexists. split_and!; [reflexivity | reflexivity |].
    apply active_after_create.
  - intros saved cs Hl Hne Hp Hids. unfold appStart, loadConversations.
    change (localStorage (initialStore ls)) with ls.
    unfold jsstring in *. rewrite Hl.
    destruct saved as [|x saved]; [done|]. rewrite Hp.
    set (s1 := set_conversations cs (initialStore ls)).
    change (localStorage s1) with ls. change (conversations s1) with cs.
    destruct cs as [|first cs'].
    + assert (Hrestore :
        match ls !! key_activeConversationId with
        | Some ((_ :: _) as savedActiveId) =>
            match find (conv_has_id savedActiveId) (@nil Conversation.t) with
            | Some _ => Some savedActiveId
            | None => None
            end
        | _ => None
        end = None).
      { by destruct (ls !! key_activeConversationId) as [[|y a]|]. }
      unfold jsstring in *. rewrite Hrestore. eexists.
      split_and!; [apply active_after_create | reflexivity | reflexivity
                   | reflexivity].
    + apply Forall_cons in Hids as [Hfirst _].
      assert (Hhead : activeConversation
                        (set_activeConversationId
                           (or_null (Conversation.id first)) s1) = Some first
                      ∧ activeConversationId
                          (set_activeConversationId
                             (or_null (Conversation.id first)) s1)
                        = Some (Conversation.id first)).
      { split; [by eapply active_head|]. simpl.
        by destruct (Conversation.id first). }
      match goal with
      | |- context [@lookup ?K ?A ?M ?I key_activeConversationId ls] =>
          destruct (@lookup K A M I key_activeConversationId ls)
            as [[|y a]|] eqn:Ha
      end;
        [exists first; split_and!; [apply Hhead | apply Hhead | done | done]
        |
        | exists first; split_and!; [apply Hhead | apply Hhead | done | done]].
      destruct (find (conv_has_id (y :: a)) (first :: cs')) as [c'|] eqn:Hf;
        [|exists first; split_and!; [apply Hhead | apply Hhead | done | done]].
      exists c'. unfold find in Hf.
      apply fmap_Some in Hf as ([n c''] & Hf & ->). simpl.
      pose proof Hf as (_ & Hid & _)%list_find_Some.
      unfold conv_has_id in Hid. simpl in Hid.
      split_and!; [|by rewrite Hid | done | done].
      unfold activeConversation, find. subst s1.
      cbn [conversations activeConversationId set_activeConversationId
           set_conversations initialStore].
      rewrite (list_find_ext _ (conv_has_id (y :: a))).
      * by rewrite Hf.
      * intros c0. unfold conv_has_id. split; [by intros [= ?] | by intros ->].
Qed.

(** X12.  When what [localStorage] holds under ['conversations'] cannot be
    parsed, the failure goes to the console and the application starts with
    one new, empty conversation, which is written over the text that could
    not be read. *)
Theorem appStart_corrupt_storage (ls : gmap jsstring jsstring)
    (saved : jsstring) :
  ls !! key_conversations = Some saved →
  saved ≠ [] →
  JSON_parse saved = None →
  let s := appStart ls in
  console s = [LogLoadFailed]
  ∧ ∃ fresh,
      conversations s = [fresh]
      ∧ Conversation.messages fresh = []
      ∧ Conversation.title fresh = defaultTitle
      ∧ activeConversationId s = Some (Conversation.id fresh)
      ∧ localStorage s !! key_conversations = Some (JSON_stringify [fresh]).
Proof.
  intros Hl Hne Hp s. subst s. unfold appStart, loadConversations.
  change (localStorage (initialStore ls)) with ls.
  unfold jsstring in *. rewrite Hl.
  destruct saved as [|x saved]; [done|]. rewrite Hp.
  cbn [localStorage log_store initialStore conversations].
  assert (Hrestore :
    match ls !! key_activeConversationId with
    | Some ((_ :: _) as savedActiveId) =>
        match find (conv_has_id savedActiveId) (@nil Conversation.t) with
        | Some _ => Some savedActiveId
        | None => None
        end
    | _ => None
    end = None).
  { by destruct (ls !! key_activeConversationId) as [[|y a]|]. }
  unfold jsstring in *. rewrite Hrestore.
  split; [done|]. eexists. split_and!; try reflexivity.
  simpl. rewrite lookup_insert_ne by (symmetry; apply keys_differ).
  by rewrite lookup_insert_eq.
Qed.

(** X13.  [deleteConversation] never leaves the store without an active
    conversation: when there was one before, and no conversation has an
    empty id, there is one after, whichever conversation is deleted. *)
Theorem deleteConversation_keeps_active (i : jsstring) (s : Store) :
  ids_nonempty (conversations s) →
  is_Some (activeConversation s) →
  is_Some (activeConversation (deleteConversation i s)).
Proof.
  intros Hne [c Hc]. unfold deleteConversation.
  destruct (findIndex (conv_has_id i) (conversations s)) as [n|] eqn:Hf;
    [|by exists c].
  unfold findIndex in Hf. apply fmap_Some in Hf as ([n' d] & Hf & ->).
  cbn [fst activeConversationId set_conversations conversations].
  case_bool_decide as Hact.
  - destruct (delete n' (conversations s)) as [|c' rest] eqn:Hdel.
    + eexists. apply find_active_head.
    + exists c'. unfold activeConversation. simpl.
      assert (Hc' : c' ∈ conversations s).
      { apply (list_elem_of_delete_inv _ n'). rewrite Hdel. left. }
      unfold ids_nonempty in Hne. rewrite Forall_forall in Hne.
      specialize (Hne _ Hc').
      destruct (Conversation.id c') as [|x j] eqn:Hid; [done|].
      simpl. unfold find. rewrite list_find_cons_eq.
      rewrite decide_True; [done|]. by rewrite Hid.
  - unfold activeConversation in *. simpl.
    unfold find in Hc. apply fmap_Some in Hc as ([k c''] & Hk & ->).
    pose proof Hk as (Hlk & Hid & _)%list_find_Some. simpl in *.
    assert (Hin : c'' ∈ delete n' (conversations s)).
    { eapply find_by_id_in_rest; [exact Hf | by eapply list_elem_of_lookup_2 |].
      intros Heq. apply Hact. by rewrite <- Hid, Heq. }
    unfold find. apply fmap_is_Some.
    eapply list_find_elem_of; [exact Hin | exact Hid].
Qed.

End app_start.

(** ** Blank input *)

Lemma trimStart_nil_blank (s : jsstring) : trimStart s = [] ↔ blank s.
Proof.
  unfold blank. induction s as [|c s IH]; [by split; [constructor|]|].
  simpl. destruct (isWhiteSpace c) eqn:Hc.
  - rewrite IH. split; [by constructor|]. by intros [_ ?]%Forall_cons.
  - split; [done|]. intros [Hc' _]%Forall_cons. congruence.
Qed.

Lemma trimStart_blank_nil (s : jsstring) : blank (trimStart s) → trimStart s = [].
Proof.
  unfold blank. induction s as [|c s IH]; [done|]. simpl.
  destruct (isWhiteSpace c) eqn:Hc; [done|].
  intros [Hc' _]%Forall_cons. congruence.
Qed.

(** [trim] gives the empty string on blank strings, and on them only. *)
Lemma trim_nil_blank (s : jsstring) : trim s = [] ↔ blank s.
Proof.
  unfold trim, trimEnd. split.
  - intros Heq. apply trimStart_nil_blank, trimStart_blank_nil.
    assert (Hrev : trimStart (reverse (trimStart s)) = []).
    { apply (f_equal reverse) in Heq. by rewrite reverse_involutive in Heq. }
    apply trimStart_nil_blank in Hrev. unfold blank in *.
    by rewrite Forall_reverse in Hrev.
  - intros Hb. apply trimStart_nil_blank in Hb. by rewrite Hb.
Qed.

Section blank_input.

Variable Date_now : nat → Z.
Variable Math_random_36 : nat → jsstring.
Variable JSON_stringify : list Conversation.t → jsstring.
Variable JSON_parse_frame : jsstring → outcome value.
Variable TypeError_reading : prop → Error.
Variable abort_message : jsstring.

Local Abbreviation sendMessage :=
  (sendMessage Date_now Math_random_36 JSON_stringify JSON_parse_frame
     TypeError_reading abort_message).
Local Abbreviation handleSend :=
  (handleSend Date_now Math_random_36 JSON_stringify JSON_parse_frame
     TypeError_reading abort_message).

(** X14.  A content of white space and line terminators only is not sent:
    [sendMessage] leaves the store as it is (no conversation is created, no
    message added, nothing saved) and makes no request, and [handleSend]
    leaves the input box as it is as well. *)
Theorem blank_content_not_sent (import : option thrown) (net : Network)
    (content : jsstring) (s : Store) :
  blank content →
  sendMessage import net content s = (s, [], Fulfilled)
  ∧ handleSend import net (mkChatView content s)
    = (mkChatView content s, [], Fulfilled).
Proof.
  intros Hb%trim_nil_blank. split.
  - unfold sendMessage. by rewrite Hb.
  - unfold handleSend. simpl. by rewrite bool_decide_eq_true_2.
Qed.

End blank_input.

(** ** The sidebar *)


(** ** Ignored lines *)

Lemma split_lines_line (l rest : jsstring) :
  10%N ∉ l → split_lines (l ++ 10%N :: rest) = l :: split_lines rest.
Proof.
  induction l as [|c l IH]; intros Hl; [done|].
  apply not_elem_of_cons in Hl as [Hc Hl]. simpl.
  destruct (c =? 10)%N eqn:Heq; [apply N.eqb_eq in Heq; congruence|].
  by rewrite IH.
Qed.

(** The complete lines of a text made of lines and an unfinished rest. *)
Lemma complete_lines_unlines (ls : list jsstring) (tail : jsstring) :
  Forall (λ l, 10%N ∉ l) ls → 10%N ∉ tail →
  complete_lines (unlines ls ++ tail) = ls.
Proof.
  intros Hls Htail. unfold complete_lines, unlines.
  induction Hls as [|l ls Hl _ IH]; simpl.
  - by rewrite split_lines_no_newline.
  - rewrite <- !app_assoc. simpl. rewrite split_lines_line by done.
    pose proof (split_lines_nonempty
                  (concat ((λ l0, l0 ++ [10%N]) <$> ls) ++ tail)) as Hne.
    destruct (split_lines _) as [|x xs] eqn:Hsp; [done|].
    by rewrite <- IH.
Qed.

Section ignored.

Variable JSON_parse : jsstring → outcome value.
Variable TypeError_reading : prop → Error.
Variable abort_message : jsstring.
Context {St : Type}.
Variable callbacks : ExtendedStreamCallbacks St.

Local Abbreviation session :=
  (sendStreamMessage JSON_parse TypeError_reading abort_message callbacks).
Local Abbreviation process_line :=
  (process_line JSON_parse TypeError_reading callbacks).
Local Abbreviation process_lines :=
  (process_lines JSON_parse TypeError_reading callbacks).

Lemma process_line_ignored (line : jsstring) (r : Run St) :
  ignored_line line → process_line line r = r.
Proof.
  intros Hig. unfold process_line.
  destruct (trim line) as [|c l] eqn:Htrim; [done|].
  destruct (startsWith (c :: l) (js ":")) eqn:Hcomment; [done|].
  destruct (startsWith (c :: l) data_prefix) eqn:Hdata; [|done].
  destruct Hig as [Hig | [Hig | [Hig | Hig]]]; try congruence.
  rewrite Htrim in Hig. by rewrite bool_decide_eq_true_2.
Qed.

(** X16.  Blank lines, comment lines (a colon first), fields other than
    [data: ] and the [data: [DONE]] mark have no effect at all, wherever
    they stand in the body: the session is the one of the body without the
    line.  In particular [DONE] does not end the session, the frames
    after it are processed like the ones before. *)
Theorem ignored_line_irrelevant (net net' : Network)
    (messages : list Message.t) (st : St) (b b' : Body)
    (before after : list jsstring) (line tail : jsstring) :
  reaches_stream net b →
  reaches_stream net' b' →
  Forall (λ l, 10%N ∉ l) (before ++ line :: after) →
  10%N ∉ tail →
  body_text (chunks b) = unlines (before ++ after) ++ tail →
  body_text (chunks b') = unlines (before ++ line :: after) ++ tail →
  ignored_line line →
  ending b = ending b' →
  session net' messages st = session net messages st.
Proof.
  intros Hb Hb' Hls Htail Htext Htext' Hig Hend.
  rewrite (session_at_stream _ _ _ _ net messages st b Hb).
  rewrite (session_at_stream _ _ _ _ net' messages st b' Hb').
  unfold after_chunks. rewrite Hend.
  rewrite !read_chunks_complete_lines, Htext, Htext'.
  assert (Hls' : Forall (λ l, 10%N ∉ l) (before ++ after)).
  { apply Forall_app in Hls as [H1 [_ H2]%Forall_cons]. by apply Forall_app. }
  rewrite (complete_lines_unlines _ tail Hls Htail).
  rewrite (complete_lines_unlines _ tail Hls' Htail).
  rewrite !process_lines_app. simpl. by rewrite process_line_ignored.
Qed.

End ignored.

(** ** A new message, and the lookups that follow *)

Section message_lookup.

Variable Date_now : nat → Z.
Variable Math_random_36 : nat → jsstring.
Variable JSON_stringify : list Conversation.t → jsstring.

Local Abbreviation addMessage := (addMessage Date_now Math_random_36 JSON_stringify).

(** X17.  The message [addMessage] returns is the one its id finds, as long
    as no earlier message of the conversation has that id; when an earlier
    message has it, the id finds the earlier message, and updates made with
    the id of the new message go there. *)
Theorem addMessage_lookup (conversationId : jsstring)
    (message : PartialMessage.t) (s : Store) (ci : nat) (c : Conversation.t) :
  list_find (conv_has_id conversationId) (conversations s) = Some (ci, c) →
  ∃ m s',
    addMessage conversationId message s = (Some m, s')
    ∧ (Forall (λ m', Message.id m' ≠ Message.id m) (Conversation.messages c) →
       findMessage conversationId (Message.id m) s' = Some m)
    ∧ (∀ m', find (msg_has_id (Message.id m)) (Conversation.messages c)
             = Some m' →
             findMessage conversationId (Message.id m) s' = Some m').
Proof.
  intros Hf.
  destruct (addMessage_conversations Date_now Math_random_36 JSON_stringify
              conversationId message s ci c Hf)
    as (m & c' & Heq & Hcs & Hid & Hms & _).
  exists m, (addMessage conversationId message s).2.
  split; [exact Heq|].
  assert (Hc' : find (conv_has_id conversationId)
                  (conversations (addMessage conversationId message s).2)
                = Some c').
  { rewrite Hcs. unfold find.
    erewrite list_find_insert_same; [done | exact Hf |].
    apply list_find_Some in Hf as (_ & Hcid & _).
    unfold conv_has_id in *. congruence. }
  unfold findMessage. rewrite Hc', Hms. unfold find. split.
  - intros Hfresh. rewrite list_find_app_r.
    + rewrite list_find_cons_eq. by rewrite decide_True.
    + apply list_find_None. eapply Forall_impl; [exact Hfresh|]. done.
  - intros m' Hm'. apply fmap_Some in Hm' as ([mi m''] & Hm' & ->).
    by erewrite list_find_app_l.
Qed.

End message_lookup.

(** ** A whole exchange *)

Lemma chunk_text_app (tr1 tr2 : list Effect) :
  chunk_text (tr1 ++ tr2) = chunk_text tr1 ++ chunk_text tr2.
Proof. unfold chunk_text. by rewrite omap_app, concat_app. Qed.

Lemma reasoning_text_app (tr1 tr2 : list Effect) :
  reasoning_text (tr1 ++ tr2) = reasoning_text tr1 ++ reasoning_text tr2.
Proof. unfold reasoning_text. by rewrite omap_app, concat_app. Qed.

Lemma chunk_text_snoc (tr : list Effect) (e : Effect) :
  chunk_text (tr ++ [e])
  = chunk_text tr ++ match e with Call_onChunk v => ToString v | _ => [] end.
Proof.
  rewrite chunk_text_app. f_equal. unfold chunk_text.
  destruct e; simpl; by rewrite ?app_nil_r.
Qed.

Lemma reasoning_text_snoc (tr : list Effect) (e : Effect) :
  reasoning_text (tr ++ [e])
  = reasoning_text tr
    ++ match e with Call_onReasoningChunk v => ToString v | _ => [] end.
Proof.
  rewrite reasoning_text_app. f_equal. unfold reasoning_text.
  destruct e; simpl; by rewrite ?app_nil_r.
Qed.

(** The active conversation is the first one its id finds. *)
Lemma active_find (s : Store) (c : Conversation.t) :
  activeConversation s = Some c →
  ∃ ci, list_find (conv_has_id (Conversation.id c)) (conversations s)
        = Some (ci, c).
Proof.
  unfold activeConversation, find. intros ([ci c'] & Hf & ->)%fmap_Some.
  exists ci. simpl. rewrite <- Hf. apply list_find_ext. intros x.
  apply list_find_Some in Hf as (_ & Hid & _). simpl in Hid.
  unfold conv_has_id. rewrite <- Hid. split; congruence.
Qed.

Section exchange.

Variable Date_now : nat → Z.
Variable Math_random_36 : nat → jsstring.
Variable JSON_stringify : list Conversation.t → jsstring.
Variable JSON_parse_frame : jsstring → outcome value.
Variable TypeError_reading : prop → Error.
Variable abort_message : jsstring.

Local Abbreviation createConversation :=
  (createConversation Date_now Math_random_36 JSON_stringify).
Local Abbreviation addMessage := (addMessage Date_now Math_random_36 JSON_stringify).
Local Abbreviation updateField := (updateField Date_now JSON_stringify).
Local Abbreviation handle_onReasoningChunk :=
  (handle_onReasoningChunk Date_now JSON_stringify).
Local Abbreviation handle_onChunk := (handle_onChunk Date_now JSON_stringify).
Local Abbreviation storeCallbacks := (storeCallbacks Date_now JSON_stringify).
Local Abbreviation sendMessage_setup :=
  (sendMessage_setup Date_now Math_random_36 JSON_stringify).
Local Abbreviation sendMessage :=
  (sendMessage Date_now Math_random_36 JSON_stringify JSON_parse_frame
     TypeError_reading abort_message).
Local Abbreviation handleSend :=
  (handleSend Date_now Math_random_36 JSON_stringify JSON_parse_frame
     TypeError_reading abort_message).
Local Abbreviation handleTopicClick :=
  (handleTopicClick Date_now Math_random_36 JSON_stringify JSON_parse_frame
     TypeError_reading abort_message).
Local Abbreviation session :=
  (sendStreamMessage JSON_parse_frame TypeError_reading abort_message).
Local Abbreviation persisted := (persisted JSON_stringify).
Local Abbreviation streaming_inv := (streaming_inv JSON_stringify).

Lemma addMessage_flags cid message s :
  isLoading (addMessage cid message s).2 = isLoading s
  ∧ isStreaming (addMessage cid message s).2 = isStreaming s
  ∧ console (addMessage cid message s).2 = console s.
Proof.
  unfold addMessage. by destruct (list_find _ _) as [[ci c]|].
Qed.

Lemma updateField_flags f cid mid s :
  isLoading (updateField f cid mid s) = isLoading s
  ∧ isStreaming (updateField f cid mid s) = isStreaming s
  ∧ console (updateField f cid mid s) = console s.
Proof.
  unfold updateField. destruct (list_find _ _) as [[ci c]|]; [|done].
  by destruct (list_find _ _) as [[mi m]|].
Qed.

Lemma assignMessage_flags f cid mid s :
  isLoading (assignMessage f cid mid s) = isLoading s
  ∧ isStreaming (assignMessage f cid mid s) = isStreaming s
  ∧ console (assignMessage f cid mid s) = console s
  ∧ localStorage (assignMessage f cid mid s) = localStorage s.
Proof.
  unfold assignMessage. destruct (list_find _ _) as [[ci c]|]; [|done].
  by destruct (list_find _ _) as [[mi m]|].
Qed.

(** Steps 2 to 5 in full: the conversation the messages go to, the two
    messages at its end, the flags, and what has been saved. *)
Lemma sendMessage_setup_shape (content : jsstring) (s : Store) :
  ∃ c0 ci um am c3 s3,
    (activeConversation s = Some c0
     ∨ activeConversation s = None ∧ Conversation.messages c0 = [])
    ∧ sendMessage_setup content s = (Conversation.id c0, Some am, s3)
    ∧ list_find (conv_has_id (Conversation.id c0)) (conversations s3)
      = Some (ci, c3)
    ∧ Conversation.messages c3 = Conversation.messages c0 ++ [um; am]
    ∧ Message.role um = user ∧ Message.content um = trim content
    ∧ Message.role am = assistant ∧ Message.content am = []
    ∧ Message.isStreaming am = Some true
    ∧ Message.reasoningContent am = None
    ∧ isLoading s3 = true ∧ isStreaming s3 = true ∧ persisted s3.
Proof.
  assert (H0 : ∃ c0 s0 ci,
    (activeConversation s = Some c0
     ∨ activeConversation s = None ∧ Conversation.messages c0 = [])
    ∧ match activeConversation s with
      | Some c => (c, s)
      | None => createConversation s
      end = (c0, s0)
    ∧ list_find (conv_has_id (Conversation.id c0)) (conversations s0)
      = Some (ci, c0)).
  { destruct (activeConversation s) as [c|] eqn:Hact.
    - destruct (active_find s c Hact) as [ci Hci].
      exists c, s, ci. split_and!; [by left | done | done].
    - exists (createConversation s).1, (createConversation s).2, 0%nat.
      split_and!; [by right | by destruct (createConversation s) |].
      change (conversations (createConversation s).2)
        with ((createConversation s).1 :: conversations s).
      rewrite list_find_cons_eq. by rewrite decide_True. }
  destruct H0 as (c0 & s0 & ci & Hcase & Hmatch & Hf0).
  unfold sendMessage_setup. rewrite Hmatch. cbv beta iota zeta.
  set (cid := Conversation.id c0) in *.
  destruct (addMessage_conversations Date_now Math_random_36 JSON_stringify
              cid (PartialMessage.mk user (trim content) None None) s0 ci c0 Hf0)
    as (um & c1 & Heq1 & Hcs1 & Hid1 & Hms1 & _ & Hrole1 & Hcontent1 & _).
  set (s1 := (addMessage cid (PartialMessage.mk user (trim content) None None)
                s0).2) in *.
  assert (Hf1 : list_find (conv_has_id cid)
                  (conversations (set_isStreaming true (set_isLoading true s1)))
                = Some (ci, c1)).
  { change (conversations (set_isStreaming true (set_isLoading true s1)))
      with (conversations s1).
    rewrite Hcs1. eapply list_find_insert_same; [exact Hf0|].
    unfold conv_has_id, cid. done. }
  destruct (addMessage_conversations Date_now Math_random_36 JSON_stringify
              cid (PartialMessage.mk assistant [] (Some true) None)
              (set_isStreaming true (set_isLoading true s1)) ci c1 Hf1)
    as (am & c2 & Heq2 & Hcs2 & Hid2 & Hms2 & _ & Hrole2 & Hcontent2 & Hstr2
        & Hrc2).
  rewrite Heq2.
  eexists c0, ci, um, am, c2, _. split_and!; try done.
  - rewrite Hcs2. eapply list_find_insert_same; [exact Hf1|].
    unfold conv_has_id, cid. congruence.
  - rewrite Hms2, Hms1, <- app_assoc. done.
  - by rewrite (proj1 (addMessage_flags _ _ _)).
  - by rewrite (proj1 (proj2 (addMessage_flags _ _ _))).
  - by eapply persisted_addMessage.
Qed.


(** What the handlers of the chunks do when they find the placeholder. *)
Lemma handle_onChunk_found cid mid v s m :
  findMessage cid mid s = Some m →
  let s' := (handle_onChunk cid mid v s).1 in
  findMessage cid mid s'
  = Some (Message.set_content (Message.content m ++ ToString v) m)
  ∧ isLoading s' = isLoading s ∧ isStreaming s' = isStreaming s
  ∧ console s' = console s ∧ persisted s'.
Proof.
  intros Hm. unfold handle_onChunk. rewrite Hm. simpl. unfold updateMessage.
  destruct (updateField_flags (Message.set_content (Message.content m ++ ToString v))
              cid mid s) as (Hl & Hs & Hc).
  split_and!; [|done|done|done|by eapply persisted_updateField].
  by apply updateField_found.
Qed.

Lemma handle_onReasoningChunk_found cid mid v s m :
  findMessage cid mid s = Some m →
  let s' := (handle_onReasoningChunk cid mid v s).1 in
  findMessage cid mid s'
  = Some (Message.set_reasoningContent
            (default [] (Message.reasoningContent m) ++ ToString v) m)
  ∧ isLoading s' = isLoading s ∧ isStreaming s' = isStreaming s
  ∧ console s' = console s ∧ persisted s'.
Proof.
  intros Hm. unfold handle_onReasoningChunk. rewrite Hm. simpl.
  unfold updateReasoningContent.
  destruct (updateField_flags
              (Message.set_reasoningContent
                 (default [] (Message.reasoningContent m) ++ ToString v))
              cid mid s) as (Hl & Hs & Hc).
  split_and!; [|done|done|done|by eapply persisted_updateField].
  by apply updateField_found.
Qed.

Lemma streaming_inv_read_chunks cid mid cs buffer (r : Run Store) :
  streaming_inv cid mid r →
  streaming_inv cid mid
    (read_chunks JSON_parse_frame TypeError_reading (storeCallbacks cid mid)
       cs buffer r).
Proof.
  apply read_chunks_keeps.
  - intros e r' He (m & Hm & Hc & Hrc & Hs & Hl & Hst & Hp).
    exists m. simpl. rewrite chunk_text_snoc, reasoning_text_snoc.
    destruct e; try done; rewrite !app_nil_r; done.
  - intros r' (m & Hm & Hc & Hrc & Hs & Hl & Hst & Hp) _.
    exists m. simpl. rewrite chunk_text_snoc, reasoning_text_snoc.
    rewrite !app_nil_r. done.
  - intros r' h rc [= <-] (m & Hm & Hc & Hrc & Hs & Hl & Hst & Hp) _.
    destruct (handle_onReasoningChunk_found cid mid rc (caller r') m Hm)
      as (Hm' & Hl' & Hst' & _ & Hp').
    eexists. simpl. split; [exact Hm'|].
    rewrite chunk_text_snoc, reasoning_text_snoc. simpl.
    rewrite !app_nil_r. rewrite Hl', Hst', Hrc. done.
  - intros r' h ct [= <-] (m & Hm & Hc & Hrc & Hs & Hl & Hst & Hp) _.
    destruct (handle_onChunk_found cid mid ct (caller r') m Hm)
      as (Hm' & Hl' & Hst' & _ & Hp').
    eexists. simpl. split; [exact Hm'|].
    rewrite chunk_text_snoc, reasoning_text_snoc. simpl.
    rewrite !app_nil_r. rewrite Hl', Hst', Hc. done.
Qed.

(** The handlers of the chunks keep [awaiting] and the console. *)
Lemma awaiting_handlers cid mid (log : list StoreLog) :
  let P := λ s, awaiting cid mid s ∧ console s = log in
  (∀ h v s, onReasoningChunk (storeCallbacks cid mid) = Some h →
            P s → P (h v s).1)
  ∧ (∀ h v s, onChunk (storeCallbacks cid mid) = Some h → P s → P (h v s).1).
Proof.
  split.
  - intros h v s [= <-] [[(m & Hm & Hs) [Hl Hst]] Hlog].
    destruct (handle_onReasoningChunk_found cid mid v s m Hm)
      as (Hm' & Hl' & Hst' & Hc' & _).
    split; [split; [eexists; split; [exact Hm'|done] | by rewrite Hl', Hst']|].
    by rewrite Hc'.
  - intros h v s [= <-] [[(m & Hm & Hs) [Hl Hst]] Hlog].
    destruct (handle_onChunk_found cid mid v s m Hm)
      as (Hm' & Hl' & Hst' & Hc' & _).
    split; [split; [eexists; split; [exact Hm'|done] | by rewrite Hl', Hst']|].
    by rewrite Hc'.
Qed.

(** The placeholder when the request is made. *)
Lemma setup_streaming_inv content s cid ai s3 messages :
  sendMessage_setup content s = (cid, Some ai, s3) →
  findMessage cid (Message.id ai) s3 = Some ai →
  streaming_inv cid (Message.id ai) (at_stream messages s3)
  ∧ awaiting cid (Message.id ai) s3.
Proof.
  intros Hsetup Hfound.
  destruct (sendMessage_setup_shape content s)
    as (c0 & ci & um & am & c3 & s3' & _ & Hsetup' & _ & _ & _ & _
        & _ & Hac & Has & Harc & Hl & Hst & Hp).
  rewrite Hsetup in Hsetup'. injection Hsetup' as -> -> ->.
  split.
  - exists am. simpl. rewrite Harc. done.
  - split; [by exists am | done].
Qed.

(** What fails before the end of the stream leaves the [try] block with what
    is thrown, and the handlers of the chunks have been the only ones to
    touch the state of the caller. *)
Lemma try_block_failure {St} (callbacks : ExtendedStreamCallbacks St)
    (P : St → Prop) (net : Network) (messages : list Message.t) (st : St)
    (t : thrown) :
  failure_path abort_message net t →
  (∀ h v st, onReasoningChunk callbacks = Some h → P st → P (h v st).1) →
  (∀ h v st, onChunk callbacks = Some h → P st → P (h v st).1) →
  P st →
  ∃ r, try_block JSON_parse_frame TypeError_reading abort_message callbacks
         net messages (mkRun false st [SetTimeout 60000])
       = (r, Throws t)
       ∧ P (caller r).
Proof.
  intros Hfp Hrc Hc Hst.
  destruct Hfp as [Hle | t Hlt Hf | r errorText Hlt Hf Hok Htext
                   | r t Hlt Hf Hok Htext | r Hlt Hf Hok Hb
                   | r b t Hlt Hf Hok Hb Hend].
  - unfold try_block. apply N.leb_le in Hle. rewrite Hle.
    eexists. split; [reflexivity | done].
  - unfold try_block. apply N.leb_gt in Hlt. rewrite Hlt, Hf.
    eexists. split; [reflexivity | done].
  - unfold try_block. apply N.leb_gt in Hlt. rewrite Hlt, Hf, Hok, Htext.
    eexists. split; [reflexivity | done].
  - unfold try_block. apply N.leb_gt in Hlt. rewrite Hlt, Hf, Hok, Htext.
    eexists. split; [reflexivity | done].
  - unfold try_block. apply N.leb_gt in Hlt. rewrite Hlt, Hf, Hok, Hb.
    eexists. split; [reflexivity | done].
  - rewrite (try_block_at_stream JSON_parse_frame TypeError_reading
               abort_message callbacks net messages st r b) by done.
    rewrite Hend. simpl. eexists. split; [reflexivity|].
    unfold after_chunks. by apply read_chunks_caller.
Qed.

Lemma catch_block_store cid mid (e : Error) (r : Run Store) :
  catch_block (storeCallbacks cid mid) (ThrowError e) r
  = (mkRun (isAnswering r)
       (handle_onError cid mid (reported e) (caller r)).1
       (trace r ++ [ClearTimeout;
                    if bool_decide (name e = js "AbortError")
                    then Log_aborted else Error_api e;
                    Call_onError (reported e)]),
     Fulfilled).
Proof.
  unfold catch_block, reported.
  case_bool_decide; simpl; rewrite <- !app_assoc; reflexivity.
Qed.

(** The exchange up to the end of the stream. *)
Lemma exchange_at_end content s cid ai s3 net :
  trim content ≠ [] →
  sendMessage_setup content s = (cid, Some ai, s3) →
  findMessage cid (Message.id ai) s3 = Some ai →
  normal_end net →
  ∃ R, streaming_inv cid (Message.id ai) R
       ∧ sendMessage None net content s
         = ((handle_onComplete cid (Message.id ai) (caller R)).1,
            trace R ++ [Call_onComplete], Fulfilled).
Proof.
  intros Hne Hsetup Hfound (resp & b & Hlt & Hf & Hok & Hb & Hend).
  unfold sendMessage. destruct (trim content) as [|x l]; [done|].
  rewrite Hsetup. cbv beta iota zeta.
  match goal with
  | |- context [sendStreamMessage _ _ _ _ net ?ms s3] => set (messages := ms)
  end.
  rewrite (session_at_stream JSON_parse_frame TypeError_reading abort_message
             (storeCallbacks cid (Message.id ai)) net messages s3 b)
    by (by exists resp).
  rewrite Hend. simpl.
  exists (after_chunks JSON_parse_frame TypeError_reading
            (storeCallbacks cid (Message.id ai)) messages s3 b).
  split; [|done].
  unfold after_chunks. apply streaming_inv_read_chunks.
  by apply (setup_streaming_inv content s).
Qed.

(** X19.  An exchange whose stream ends normally: the promise is
    fulfilled, the two flags are reset, and the placeholder, no longer
    marked as streaming, holds as content all that [onChunk] was given, in
    the order of arrival, and as reasoning all that [onReasoningChunk] was
    given.  (The id made for the placeholder is taken to find it.) *)
Theorem exchange_normal_end (content : jsstring) (s : Store) (cid : jsstring)
    (ai : Message.t) (s3 : Store) (net : Network) :
  trim content ≠ [] →
  sendMessage_setup content s = (cid, Some ai, s3) →
  findMessage cid (Message.id ai) s3 = Some ai →
  normal_end net →
  ∃ s' tr m,
    sendMessage None net content s = (s', tr, Fulfilled)
    ∧ isLoading s' = false ∧ isStreaming s' = false
    ∧ findMessage cid (Message.id ai) s' = Some m
    ∧ Message.content m = chunk_text tr
    ∧ default [] (Message.reasoningContent m) = reasoning_text tr
    ∧ Message.isStreaming m = Some false.
Proof.
  intros Hne Hsetup Hfound Hnet.
  destruct (exchange_at_end content s cid ai s3 net Hne Hsetup Hfound Hnet)
    as (R & (m & Hm & Hc & Hrc & Hs & Hl & Hst & Hp) & Heq).
  eexists _, _, (Message.set_isStreaming false m).
  split; [exact Heq|]. split_and!; try done.
  - unfold handle_onComplete. simpl.
    erewrite findMessage_conversations; [|reflexivity].
    by apply assignMessage_found.
  - rewrite chunk_text_snoc. by rewrite app_nil_r.
  - rewrite reasoning_text_snoc. by rewrite app_nil_r.
Qed.

(** X20.  The end of an exchange is not saved: [onComplete] writes nothing,
    so what [localStorage] holds after an exchange that ended normally is the
    copy of a store in which the answer has its whole content and is still
    marked as streaming. *)
Theorem completion_not_saved (content : jsstring) (s : Store) (cid : jsstring)
    (ai : Message.t) (s3 : Store) (net : Network) :
  trim content ≠ [] →
  sendMessage_setup content s = (cid, Some ai, s3) →
  findMessage cid (Message.id ai) s3 = Some ai →
  normal_end net →
  ∃ s' tr saved m,
    sendMessage None net content s = (s', tr, Fulfilled)
    ∧ localStorage s' = localStorage saved
    ∧ persisted saved
    ∧ findMessage cid (Message.id ai) saved = Some m
    ∧ Message.content m = chunk_text tr
    ∧ Message.isStreaming m = Some true.
Proof.
  intros Hne Hsetup Hfound Hnet.
  destruct (exchange_at_end content s cid ai s3 net Hne Hsetup Hfound Hnet)
    as (R & (m & Hm & Hc & Hrc & Hs & Hl & Hst & Hp) & Heq).
  eexists _, _, (caller R), m.
  split; [exact Heq|]. split_and!; try done.
  - unfold handle_onComplete. simpl.
    apply (assignMessage_flags _ cid (Message.id ai) (caller R)).
  - rewrite chunk_text_snoc. by rewrite app_nil_r.
Qed.

(** X21.  An exchange that fails with an [Error] (the timeout, the network,
    a status that is not 2xx, no body, a read that fails): the promise is
    fulfilled, the two flags are reset, the failure goes to the console, and
    the content of the placeholder, no longer marked as streaming, is the
    diagnostic with the message of the error (['请求超时'] for the timeout);
    what had been received of the answer is replaced by it. *)
Theorem exchange_failure (content : jsstring) (s : Store) (cid : jsstring)
    (ai : Message.t) (s3 : Store) (net : Network) (e : Error) :
  trim content ≠ [] →
  sendMessage_setup content s = (cid, Some ai, s3) →
  findMessage cid (Message.id ai) s3 = Some ai →
  failure_path abort_message net (ThrowError e) →
  ∃ s' tr m,
    sendMessage None net content s = (s', tr, Fulfilled)
    ∧ isLoading s' = false ∧ isStreaming s' = false
    ∧ console s' = console s3 ++ [LogApiError]
    ∧ findMessage cid (Message.id ai) s' = Some m
    ∧ Message.content m = errorTemplate (reported e)
    ∧ Message.isStreaming m = Some false.
Proof.
  intros Hne Hsetup Hfound Hfp.
  unfold sendMessage. destruct (trim content) as [|x l]; [done|].
  rewrite Hsetup. cbv beta iota zeta.
  match goal with
  | |- context [sendStreamMessage _ _ _ _ net ?ms s3] => set (messages := ms)
  end.
  destruct (awaiting_handlers cid (Message.id ai) (console s3)) as [Hrc Hc].
  destruct (try_block_failure (storeCallbacks cid (Message.id ai))
              (λ st, awaiting cid (Message.id ai) st ∧ console st = console s3)
              net messages s3 (ThrowError e) Hfp Hrc Hc)
    as (r & Htry & [[(m & Hm & _) _] Hlog]).
  { split; [|done]. by apply (setup_streaming_inv content s cid ai s3 []). }
  unfold sendStreamMessage. rewrite Htry, catch_block_store.
  eexists _, _, _. split; [reflexivity|].
  cbn [caller]. unfold handle_onError. cbn [fst].
  match goal with
  | |- context [assignMessage ?f ?c ?i ?st] =>
      destruct (assignMessage_flags f c i st) as (Hl' & Hst' & Hc' & _);
      destruct (assignMessage_found f c i st m) as [Hfound' _];
        [done | by erewrite findMessage_conversations |]
  end.
  split_and!; [by rewrite Hl' | by rewrite Hst' | by rewrite Hc', <- Hlog
               | exact Hfound' | done | done].
Qed.

(** X22.  When the stream never ends, or the transfer fails with a value
    that is not an [Error], nothing resets the exchange: the two flags stay
    set and the placeholder stays marked as streaming (the promise is
    pending in the first case and fulfilled in the second), and from then
    on [handleSend] and [handleTopicClick] send nothing, whatever the input
    box holds or the topic is. *)
Theorem loading_never_reset (content : jsstring) (s : Store) (cid : jsstring)
    (ai : Message.t) (s3 : Store) (net : Network) :
  trim content ≠ [] →
  sendMessage_setup content s = (cid, Some ai, s3) →
  findMessage cid (Message.id ai) s3 = Some ai →
  stalls net ∨ (∃ v, failure_path abort_message net (ThrowOther v)) →
  ∃ s' tr c,
    sendMessage None net content s = (s', tr, c)
    ∧ (stalls net → c = Pending)
    ∧ ((∃ v, failure_path abort_message net (ThrowOther v)) → c = Fulfilled)
    ∧ awaiting cid (Message.id ai) s'
    ∧ ∀ import' net' text,
        handleSend import' net' (mkChatView text s')
        = (mkChatView text s', [], Fulfilled)
        ∧ ∀ input,
            handleTopicClick import' net' text (mkChatView input s')
            = (mkChatView text s', [], Fulfilled).
Proof.
  intros Hne Hsetup Hfound Hnet.
  assert (Hsend : ∀ s', awaiting cid (Message.id ai) s' →
            ∀ import' net' text,
              handleSend import' net' (mkChatView text s')
              = (mkChatView text s', [], Fulfilled)
              ∧ ∀ input,
                  handleTopicClick import' net' text (mkChatView input s')
                  = (mkChatView text s', [], Fulfilled)).
  { intros s' (_ & Hl & _) import' net' text.
    unfold handleTopicClick, handleSend. simpl.
    rewrite Hl. by rewrite orb_true_r. }
  unfold sendMessage. destruct (trim content) as [|x l]; [done|].
  rewrite Hsetup. cbv beta iota zeta.
  match goal with
  | |- context [sendStreamMessage _ _ _ _ net ?ms s3] => set (messages := ms)
  end.
  destruct Hnet as [Hstall | [v Hfp]].
  - pose proof Hstall as (resp & b & Hlt & Hf & Hok & Hb & Hend).
    rewrite (session_at_stream JSON_parse_frame TypeError_reading abort_message
               (storeCallbacks cid (Message.id ai)) net messages s3 b)
      by (by exists resp).
    rewrite Hend. simpl.
    assert (Hinv : streaming_inv cid (Message.id ai)
                     (after_chunks JSON_parse_frame TypeError_reading
                        (storeCallbacks cid (Message.id ai)) messages s3 b)).
    { unfold after_chunks. apply streaming_inv_read_chunks.
      by apply (setup_streaming_inv content s). }
    destruct Hinv as (m & Hm & _ & _ & Hs & Hl & Hst & _).
    assert (Haw : awaiting cid (Message.id ai)
                    (caller (after_chunks JSON_parse_frame TypeError_reading
                               (storeCallbacks cid (Message.id ai))
                               messages s3 b))).
    { split; [by exists m | done]. }
    eexists _, _, _. split; [reflexivity|].
    split_and!; [done | | exact Haw | by apply Hsend].
    intros [v Hfp]. exfalso.
    inversion Hfp; simplify_eq; first [lia | congruence].
  - destruct (awaiting_handlers cid (Message.id ai) (console s3)) as [Hrc Hc].
    destruct (try_block_failure (storeCallbacks cid (Message.id ai))
                (λ st, awaiting cid (Message.id ai) st
                       ∧ console st = console s3)
                net messages s3 (ThrowOther v) Hfp Hrc Hc)
      as (r & Htry & [Haw _]).
    { split; [|done]. by apply (setup_streaming_inv content s cid ai s3 []). }
    unfold sendStreamMessage. rewrite Htry. unfold catch_block.
    eexists _, _, _. split; [reflexivity|].
    split_and!; [ | done | exact Haw | by apply Hsend].
    intros (resp & b & Hlt & Hf & Hok & Hb & Hend). exfalso.
    inversion Hfp; simplify_eq; first [lia | congruence].
Qed.

End exchange.

(** ** The promise of the service *)

Section promise.

Variable JSON_parse : jsstring → outcome value.
Variable TypeError_reading : prop → Error.
Variable abort_message : jsstring.
Context {St : Type}.
Variable callbacks : ExtendedStreamCallbacks St.

Lemma read_loop_settles (cs : list Chunk) (e : ReadEnd) (buffer : jsstring)
    (r r' : Run St) (c : Completion) :
  read_loop JSON_parse TypeError_reading callbacks cs e buffer r
  = (r', Normal c) →
  c = Fulfilled ∨ c = Pending.
Proof.
  rewrite read_loop_read_chunks. simpl. destruct e as [|t|].
  - destruct (call _ _ _) as [r'' [u|t]]; intros [= _ <-]. by left.
  - done.
  - intros [= _ <-]. by right.
Qed.

Lemma try_block_settles (net : Network) (messages : list Message.t)
    (r r' : Run St) (c : Completion) :
  try_block JSON_parse TypeError_reading abort_message callbacks net messages r
  = (r', Normal c) →
  c = Fulfilled ∨ c = Pending.
Proof.
  unfold try_block. destruct (_ <=? _)%N; [done|].
  destruct (fetch_result net) as [t|resp]; [done|].
  destruct (negb (ok resp)); [by destruct (text resp)|].
  destruct (body resp) as [b|]; [|done]. apply read_loop_settles.
Qed.

(** X23.  How the promise of [sendStreamMessage] settles.  It stays pending
    when the stream never ends, and is fulfilled after a normal end when
    [onComplete] returns.  When the transfer fails with an [Error],
    [onError] is called, last, with the error reported, on the state the
    caller had when the [try] block threw: the promise is fulfilled when
    [onError] returns and rejected with what [onError] throws when it
    throws.  When the transfer fails with a value that is not an [Error],
    no terminal callback is called and the promise is fulfilled all the
    same.  So the promise is never rejected unless [onError] itself
    throws. *)
Theorem promise_of_service (net : Network) (messages : list Message.t)
    (st : St) :
  let run := sendStreamMessage JSON_parse TypeError_reading abort_message
               callbacks net messages st in
  (stalls net → run.2 = Pending)
  ∧ (normal_end net →
     (∀ h st', onComplete callbacks = Some h → (h st').2 = None) →
     run.2 = Fulfilled)
  ∧ (∀ e h,
       failure_path abort_message net (ThrowError e) →
       onError callbacks = Some h →
       ∃ r0,
         try_block JSON_parse TypeError_reading abort_message callbacks net
           messages (mkRun false st [SetTimeout 60000])
         = (r0, Throws (ThrowError e))
         ∧ trace run.1
           = trace r0
             ++ [ClearTimeout;
                 if bool_decide (name e = js "AbortError")
                 then Log_aborted else Error_api e;
                 Call_onError (reported e)]
         ∧ caller run.1 = (h (reported e) (caller r0)).1
         ∧ run.2 = match (h (reported e) (caller r0)).2 with
                   | Some t => Rejected t
                   | None => Fulfilled
                   end)
  ∧ (∀ e,
       failure_path abort_message net (ThrowError e) →
       onError callbacks = None →
       run.2 = Fulfilled ∧ terminals (trace run.1) = [])
  ∧ (∀ v,
       failure_path abort_message net (ThrowOther v) →
       run.2 = Fulfilled ∧ terminals (trace run.1) = [])
  ∧ ((∀ h e st', onError callbacks = Some h → (h e st').2 = None) →
     ∀ t, run.2 ≠ Rejected t).
Proof.
  intros run. subst run. split_and!.
  - intros (resp & b & Hlt & Hf & Hok & Hb & Hend).
    rewrite (session_at_stream JSON_parse TypeError_reading abort_message
               callbacks net messages st b) by (by exists resp).
    by rewrite Hend.
  - intros (resp & b & Hlt & Hf & Hok & Hb & Hend) Hquiet.
    rewrite (session_at_stream JSON_parse TypeError_reading abort_message
               callbacks net messages st b) by (by exists resp).
    rewrite Hend. simpl. unfold call.
    destruct (onComplete callbacks) as [h|] eqn:Hh; [|done].
    match goal with
    | |- context [h ?s] =>
        pose proof (Hquiet h s eq_refl) as Hq;
        destruct (h s) as [st' [t'|]]; simpl in *; done
    end.
  - intros e h Hfp Hh.
    destruct (try_block_failure JSON_parse TypeError_reading abort_message
                callbacks (λ _, True) net messages st (ThrowError e) Hfp)
      as (r0 & Htry & _); [done..|].
    exists r0. split; [exact Htry|].
    unfold sendStreamMessage. rewrite Htry. unfold catch_block, reported.
    rewrite Hh. unfold call.
    case_bool_decide; simpl;
      match goal with
      | |- context [h ?e' ?s] => destruct (h e' s) as [st' [t'|]]
      end; simpl; rewrite <- !app_assoc; done.
  - intros e Hfp Hh. split.
    + destruct (try_block_failure JSON_parse TypeError_reading abort_message
                  callbacks (λ _, True) net messages st (ThrowError e) Hfp)
        as (r0 & Htry & _); [done..|].
      unfold sendStreamMessage. rewrite Htry. unfold catch_block.
      rewrite Hh. by case_bool_decide.
    + rewrite (run_failure JSON_parse TypeError_reading abort_message
                 callbacks net messages st (ThrowError e) Hfp).
      by rewrite Hh.
  - intros v Hfp. split.
    + destruct (try_block_failure JSON_parse TypeError_reading abort_message
                  callbacks (λ _, True) net messages st (ThrowOther v) Hfp)
        as (r0 & Htry & _); [done..|].
      unfold sendStreamMessage. by rewrite Htry.
    + by rewrite (run_failure JSON_parse TypeError_reading abort_message
                    callbacks net messages st (ThrowOther v) Hfp).
  - intros Hquiet t. unfold sendStreamMessage.
    destruct (try_block _ _ _ _ _ _ _) as [r [c|error]] eqn:Htry.
    + apply try_block_settles in Htry as [-> | ->]; done.
    + unfold catch_block. destruct error as [e|v]; [|done].
      case_bool_decide; unfold call;
        (destruct (onError callbacks) as [h|] eqn:Hh; simpl; [|done]);
        match goal with
        | |- context [h ?e ?s] =>
            pose proof (Hquiet h e s eq_refl) as Hq;
            destruct (h e s) as [st' [t'|]]; simpl in *; done
        end.
Qed.

End promise.

(** ** The title of a conversation *)

Section title.

Variable Date_now : nat → Z.
Variable Math_random_36 : nat → jsstring.
Variable JSON_stringify : list Conversation.t → jsstring.

Local Abbreviation addMessage := (addMessage Date_now Math_random_36 JSON_stringify).

(** X24.  The title is set by the first message only, and only when that
    one is a user message: [addMessage] on a conversation that has messages
    already, or with an assistant message, leaves the title as it is. *)
Theorem addMessage_title_kept (conversationId : jsstring)
    (message : PartialMessage.t) (s : Store) (ci : nat) (c : Conversation.t) :
  list_find (conv_has_id conversationId) (conversations s) = Some (ci, c) →
  Conversation.messages c ≠ [] ∨ PartialMessage.role message = assistant →
  ∃ c',
    list_find (conv_has_id conversationId)
      (conversations (addMessage conversationId message s).2) = Some (ci, c')
    ∧ Conversation.title c' = Conversation.title c
    ∧ Conversation.createdAt c' = Conversation.createdAt c.
Proof.
  intros Hf Hcase. unfold addMessage. rewrite Hf. simpl.
  eexists. split.
  - eapply list_find_insert_same; [exact Hf|].
    apply list_find_Some in Hf as (_ & Hid & _).
    unfold conv_has_id in *. by destruct (_ && _).
  - destruct Hcase as [Hms | Hrole].
    + rewrite length_app. simpl.
      rewrite (bool_decide_eq_false_2 (_ = 1%nat)); [done|].
      destruct (Conversation.messages c); [done | simpl; lia].
    + rewrite Hrole. rewrite (bool_decide_eq_false_2 (assistant = user)) by done.
      by rewrite andb_false_r.
Qed.

End title.

(** ** What an exchange leaves alone *)

(** Replacing a message of a conversation by one with the same id changes
    no other lookup, nor the ids and the titles of the conversations. *)
Lemma replace_message_frame (cs : list Conversation.t) (cid mid : jsstring)
    ci c mi m (m' : Message.t) (c' : Conversation.t) :
  list_find (conv_has_id cid) cs = Some (ci, c) →
  list_find (msg_has_id mid) (Conversation.messages c) = Some (mi, m) →
  Message.id m' = Message.id m →
  Conversation.id c' = Conversation.id c →
  Conversation.title c' = Conversation.title c →
  Conversation.messages c' = <[mi := m']> (Conversation.messages c) →
  (∀ s s', conversations s = cs → conversations s' = <[ci := c']> cs →
     ∀ cid' mid', (cid', mid') ≠ (cid, mid) →
       findMessage cid' mid' s' = findMessage cid' mid' s)
  ∧ Conversation.id <$> <[ci := c']> cs = Conversation.id <$> cs
  ∧ Conversation.title <$> <[ci := c']> cs = Conversation.title <$> cs.
Proof.
  intros Hc Hm Hmid Hcid Htitle Hms.
  pose proof Hc as (Hci & Hcid' & _)%list_find_Some.
  pose proof Hm as (Hmi & Hmid' & _)%list_find_Some.
  unfold conv_has_id in Hcid'. unfold msg_has_id in Hmid'. split_and!.
  - intros s s' Hs Hs' cid' mid' Hne. unfold findMessage, find.
    rewrite Hs, Hs'. destruct (decide (cid' = cid)) as [-> | Hcne].
    + erewrite list_find_insert_same; [|exact Hc|unfold conv_has_id; congruence].
      rewrite Hc. simpl. rewrite Hms.
      assert (Hmne : mid' ≠ mid) by congruence.
      rewrite (list_find_insert_neither _ _ mi m m'); [done|done|..];
        unfold msg_has_id; congruence.
    + rewrite (list_find_insert_neither _ _ ci c); [done|done|..];
        unfold conv_has_id; congruence.
  - rewrite list_fmap_insert, Hcid.
    by apply list_insert_id, list_lookup_fmap_Some_2.
  - rewrite list_fmap_insert, Htitle.
    by apply list_insert_id, list_lookup_fmap_Some_2.
Qed.

Section untouched.

Variable Date_now : nat → Z.
Variable Math_random_36 : nat → jsstring.
Variable JSON_stringify : list Conversation.t → jsstring.
Variable JSON_parse_frame : jsstring → outcome value.
Variable TypeError_reading : prop → Error.
Variable abort_message : jsstring.

Local Abbreviation updateField := (updateField Date_now JSON_stringify).
Local Abbreviation storeCallbacks := (storeCallbacks Date_now JSON_stringify).
Local Abbreviation sendMessage_setup :=
  (sendMessage_setup Date_now Math_random_36 JSON_stringify).
Local Abbreviation sendMessage :=
  (sendMessage Date_now Math_random_36 JSON_stringify JSON_parse_frame
     TypeError_reading abort_message).

Lemma same_but_conversations cid mid s0 s s' :
  conversations s' = conversations s →
  activeConversationId s' = activeConversationId s →
  same_but cid mid s0 s → same_but cid mid s0 s'.
Proof.
  intros Hcs Hact (Hm & Hid & Ht & Ha). split_and!.
  - intros cid' mid' Hne. rewrite <- (Hm cid' mid' Hne).
    by apply findMessage_conversations.
  - by rewrite Hcs.
  - by rewrite Hcs.
  - by rewrite Hact.
Qed.

Lemma same_but_updateField f cid mid s0 s :
  (∀ x, Message.id (f x) = Message.id x) →
  same_but cid mid s0 s → same_but cid mid s0 (updateField f cid mid s).
Proof.
  intros Hf Hsame. unfold updateField.
  destruct (list_find (conv_has_id cid) (conversations s)) as [[ci c]|] eqn:Hc;
    [|done].
  destruct (list_find (msg_has_id mid) (Conversation.messages c))
    as [[mi m]|] eqn:Hm; [|done].
  simpl.
  match goal with
  | |- same_but _ _ _ (saveConversations _ (set_conversations (<[ci := ?c']> _) _))
    => destruct (replace_message_frame (conversations s) cid mid ci c mi m
                   (f m) c' Hc Hm (Hf m) eq_refl eq_refl eq_refl)
         as (Hothers & Hids & Htitles)
  end.
  destruct Hsame as (Hm0 & Hid0 & Ht0 & Ha0). split_and!.
  - intros cid' mid' Hne. rewrite <- (Hm0 cid' mid' Hne).
    by apply (Hothers s).
  - simpl. by rewrite Hids.
  - simpl. by rewrite Htitles.
  - done.
Qed.

Lemma same_but_assignMessage f cid mid s0 s :
  (∀ x, Message.id (f x) = Message.id x) →
  same_but cid mid s0 s → same_but cid mid s0 (assignMessage f cid mid s).
Proof.
  intros Hf Hsame. unfold assignMessage.
  destruct (list_find (conv_has_id cid) (conversations s)) as [[ci c]|] eqn:Hc;
    [|done].
  destruct (list_find (msg_has_id mid) (Conversation.messages c))
    as [[mi m]|] eqn:Hm; [|done].
  match goal with
  | |- same_but _ _ _ (set_conversations (<[ci := ?c']> _) _)
    => destruct (replace_message_frame (conversations s) cid mid ci c mi m
                   (f m) c' Hc Hm (Hf m) eq_refl eq_refl eq_refl)
         as (Hothers & Hids & Htitles)
  end.
  destruct Hsame as (Hm0 & Hid0 & Ht0 & Ha0). split_and!.
  - intros cid' mid' Hne. rewrite <- (Hm0 cid' mid' Hne).
    by apply (Hothers s).
  - simpl. by rewrite Hids.
  - simpl. by rewrite Htitles.
  - done.
Qed.

(** X25.  An exchange touches the placeholder of the answer and nothing
    else: from the moment the request is made, whatever the network does
    and whatever the frames hold, every other message of every conversation
    is as it was, and so are the ids, the order and the titles of the
    conversations and the active id. *)
Theorem exchange_frame (import : option thrown) (net : Network)
    (content : jsstring) (s : Store) (cid : jsstring) (ai : Message.t)
    (s3 : Store) :
  trim content ≠ [] →
  sendMessage_setup content s = (cid, Some ai, s3) →
  same_but cid (Message.id ai) s3 (sendMessage import net content s).1.1.
Proof.
  intros Hne Hsetup. unfold sendMessage.
  destruct (trim content) as [|x l]; [done|].
  rewrite Hsetup. cbv beta iota zeta.
  assert (H3 : same_but cid (Message.id ai) s3 s3) by done.
  destruct import as [t|]; [by eapply same_but_conversations|].
  match goal with
  | |- context [sendStreamMessage ?a ?b ?c ?d ?e ?f ?g] =>
      pose proof (sendStreamMessage_caller a b c d
                    (same_but cid (Message.id ai) s3) e f g) as Hrun;
      destruct (sendStreamMessage a b c d e f g) as [r co]
  end.
  assert (Hr : same_but cid (Message.id ai) s3 (caller r)).
  { apply Hrun; [| | | |done].
    - intros h v st [= <-] Hst. unfold handle_onReasoningChunk.
      destruct (findMessage _ _ st); [|done]. by apply same_but_updateField.
    - intros h v st [= <-] Hst. unfold handle_onChunk.
      destruct (findMessage _ _ st); [|done]. by apply same_but_updateField.
    - intros h st [= <-] Hst. unfold handle_onComplete. simpl.
      eapply same_but_conversations; [reflexivity | reflexivity |].
      by apply same_but_assignMessage.
    - intros h e st [= <-] Hst. unfold handle_onError. simpl.
      apply same_but_assignMessage; [done|].
      by eapply same_but_conversations. }
  destruct co; [done | by eapply same_but_conversations | done].
Qed.

End untouched.

(** ** Frames that carry no text *)

Section frames.

Variable JSON_parse : jsstring → outcome value.
Variable TypeError_reading : prop → Error.
Context {St : Type}.
Variable callbacks : ExtendedStreamCallbacks St.

Local Abbreviation process_line :=
  (process_line JSON_parse TypeError_reading callbacks).

(** X26.  A frame that carries a [usage] is logged and nothing more: what
    its [choices] hold, if it has any, is not given to the callbacks. *)
Theorem usage_frame_only_logged (line data : jsstring)
    (fields : list (jsstring * value)) (r : Run St) :
  startsWith (trim line) data_prefix = true →
  data = trim (drop 6 (trim line)) →
  data ≠ DONE →
  JSON_parse data = Normal (VObject fields) →
  truthy (own_property (js "usage") fields) = true →
  process_line line r
  = emit (Log_usage (own_property (js "usage") fields)) r.
Proof.
  intros Hdata Heq Hne Hparse Husage.
  rewrite (process_line_data _ _ _ line data r Hdata Heq Hne).
  unfold try_frame, bind. rewrite Hparse. simpl.
  change (prop_name p_usage) with (js "usage"). by rewrite Husage.
Qed.

(** X27.  A frame that is valid JSON but whose first choice has no [delta]
    is reported like a malformed one: reading [reasoning_content] off the
    missing [delta] throws, the [catch] around the frame logs it, and no
    callback is called. *)
Theorem frame_without_delta_reported (line data : jsstring)
    (fields choice : list (jsstring * value)) (rest : list value)
    (r : Run St) :
  startsWith (trim line) data_prefix = true →
  data = trim (drop 6 (trim line)) →
  data ≠ DONE →
  JSON_parse data = Normal (VObject fields) →
  truthy (own_property (js "usage") fields) = false →
  own_property (js "choices") fields = VArray (VObject choice :: rest) →
  nullish (own_property (js "delta") choice) = true →
  process_line line r
  = emit (Error_parse (ThrowError (TypeError_reading p_reasoning_content))
            data) r.
Proof.
  intros Hdata Heq Hne Hparse Husage Hchoices Hdelta.
  rewrite (process_line_data _ _ _ line data r Hdata Heq Hne).
  unfold try_frame, bind. rewrite Hparse. simpl.
  change (prop_name p_usage) with (js "usage").
  change (prop_name p_choices) with (js "choices").
  rewrite Husage, Hchoices. simpl.
  change (prop_name p_delta) with (js "delta").
  unfold route_reasoning, bind.
  by destruct (own_property (js "delta") choice).
Qed.

End frames.

(** * Further examples *)

Local Abbreviation demo_run :=
  (sendStreamMessage Demo.JSON_parse Demo.TypeError_reading Demo.abort_message).
Local Abbreviation demo_exchange :=
  (sendMessage Demo.Date_now Demo.Math_random_36 Demo.JSON_stringify
     Demo.JSON_parse Demo.TypeError_reading Demo.abort_message).
Local Abbreviation demo_setup :=
  (sendMessage_setup Demo.Date_now Demo.Math_random_36 Demo.JSON_stringify).

Lemma chunk_boundaries_irrelevant_witness :
  body_text (chunks answer_whole) = body_text (chunks answer_cut)
  ∧ demo_run Demo.silent (respond answer_whole) [] tt
    = demo_run Demo.silent (respond answer_cut) [] tt.
Proof.
  assert (Htext : body_text (chunks answer_whole) = body_text (chunks answer_cut))
    by (vm_compute; reflexivity).
  split; [exact Htext|].
  apply (chunk_boundaries_irrelevant Demo.JSON_parse Demo.TypeError_reading
           Demo.abort_message Demo.silent (respond answer_whole)
           (respond answer_cut) [] tt answer_whole answer_cut).
  - eexists. split_and!; reflexivity.
  - eexists. split_and!; reflexivity.
  - exact Htext.
  - reflexivity.
Defined.

Lemma unterminated_last_line_dropped_witness :
  body_text (chunks answer_then_unfinished)
  = body_text (chunks answer_whole) ++ Demo.think
  ∧ demo_run Demo.silent (respond answer_then_unfinished) [] tt
    = demo_run Demo.silent (respond answer_whole) [] tt.
Proof.
  assert (Htext : body_text (chunks answer_then_unfinished)
                  = body_text (chunks answer_whole) ++ Demo.think)
    by (vm_compute; reflexivity).
  split; [exact Htext|].
  apply (unterminated_last_line_dropped Demo.JSON_parse Demo.TypeError_reading
           Demo.abort_message Demo.silent (respond answer_whole)
           (respond answer_then_unfinished) [] tt answer_whole
           answer_then_unfinished Demo.think).
  - eexists. split_and!; reflexivity.
  - eexists. split_and!; reflexivity.
  - exact Htext.
  - apply (bool_decide_unpack _). vm_compute. exact I.
  - reflexivity.
Defined.

Lemma no_chunk_after_terminal_witness :
  trace (demo_run Demo.throwing (Demo.stream [Demo.answer]) [] tt).1
  = [SetTimeout 60000; Fetch []; ClearTimeout; Log_answering;
     Call_onChunk (VString (js "answer"))]
    ++ Call_onComplete
       :: [ClearTimeout; Error_api Demo.boom; Call_onError Demo.boom]
  ∧ Forall (λ e', ¬ is_chunk_call e')
      [ClearTimeout; Error_api Demo.boom; Call_onError Demo.boom].
Proof.
  assert (Htr : trace (demo_run Demo.throwing (Demo.stream [Demo.answer]) [] tt).1
                = [SetTimeout 60000; Fetch []; ClearTimeout; Log_answering;
                   Call_onChunk (VString (js "answer"))]
                  ++ Call_onComplete
                     :: [ClearTimeout; Error_api Demo.boom;
                         Call_onError Demo.boom])
    by (vm_compute; reflexivity).
  split; [exact Htr|].
  apply (no_chunk_after_terminal Demo.JSON_parse Demo.TypeError_reading
           Demo.abort_message Demo.throwing (Demo.stream [Demo.answer]) [] tt
           _ _ Call_onComplete Htr).
  exact I.
Defined.

Lemma addMessage_unknown_conversation_witness :
  (js "zz" ∉ Conversation.id <$> conversations demo_store)
  ∧ addMessage Demo.Date_now Demo.Math_random_36 Demo.JSON_stringify (js "zz")
      (PartialMessage.mk user (js "Hi") None None) demo_store
    = (None, demo_store).
Proof.
  assert (H : js "zz" ∉ Conversation.id <$> conversations demo_store)
    by (apply (bool_decide_unpack _); vm_compute; exact I).
  split; [exact H|].
  exact (addMessage_unknown_conversation Demo.Date_now Demo.Math_random_36
           Demo.JSON_stringify (js "zz")
           (PartialMessage.mk user (js "Hi") None None) demo_store H).
Defined.

Lemma update_unknown_message_witness :
  findMessage (js "c1") (js "m9") demo_store = None
  ∧ updateMessage Demo.Date_now Demo.JSON_stringify (js "c1") (js "m9")
      (js "bye") demo_store = demo_store.
Proof.
  assert (H : findMessage (js "c1") (js "m9") demo_store = None)
    by (vm_compute; reflexivity).
  split; [exact H|].
  exact (proj1 (update_unknown_message Demo.Date_now Demo.JSON_stringify
                  (js "c1") (js "m9") (js "bye") demo_store H)).
Defined.

Lemma updateMessage_frame_witness :
  let s' := updateMessage Demo.Date_now Demo.JSON_stringify (js "c1") (js "m1")
              (js "bye") demo_store in
  findMessage (js "c1") (js "m1") demo_store
  = Some (Demo.msg "m1" user "hello")
  ∧ findMessage (js "c1") (js "m1") s' = Some (Demo.msg "m1" user "bye")
  ∧ activeConversationId s' = Some (js "c1").
Proof.
  intros s'.
  assert (H : findMessage (js "c1") (js "m1") demo_store
              = Some (Demo.msg "m1" user "hello"))
    by (vm_compute; reflexivity).
  destruct (updateMessage_frame Demo.Date_now Demo.JSON_stringify
              (js "c1") (js "m1") (js "bye") demo_store
              (Demo.msg "m1" user "hello") H)
    as (Hfound & _ & _ & Hact & _).
  split_and!; [exact H | exact Hfound | exact Hact].
Defined.

Lemma mutations_are_persisted_witness :
  js "c1" ∈ Conversation.id <$> conversations demo_store
  ∧ persisted Demo.JSON_stringify
      (deleteConversation Demo.Date_now Demo.Math_random_36
         Demo.JSON_stringify (js "c1") demo_store)
  ∧ persisted Demo.JSON_stringify
      (addMessage Demo.Date_now Demo.Math_random_36 Demo.JSON_stringify
         (js "c1") (PartialMessage.mk user (js "Hi") None None) demo_store).2.
Proof.
  assert (H : js "c1" ∈ Conversation.id <$> conversations demo_store)
    by (apply (bool_decide_unpack _); vm_compute; exact I).
  destruct (mutations_are_persisted Demo.Date_now Demo.Math_random_36
              Demo.JSON_stringify demo_store) as (_ & Hdel & Hadd & _).
  split_and!; [exact H | by apply Hdel | by apply Hadd].
Defined.

Lemma saved_store_facts :
  persisted Demo.JSON_stringify saved_store
  ∧ Demo.JSON_stringify (conversations saved_store) ≠ []
  ∧ parse_saved (Demo.JSON_stringify (conversations saved_store))
    = Some (conversations saved_store)
  ∧ activeConversationId saved_store = Some (js "c1")
  ∧ js "c1" ≠ []
  ∧ js "c1" ∈ Conversation.id <$> conversations saved_store.
Proof.
  split_and!.
  - split; vm_compute; reflexivity.
  - vm_compute. discriminate.
  - vm_compute. reflexivity.
  - reflexivity.
  - vm_compute. discriminate.
  - apply (bool_decide_unpack _). vm_compute. exact I.
Defined.

Lemma save_load_round_trip_witness :
  persisted Demo.JSON_stringify saved_store
  ∧ conversations (appStart Demo.Date_now Demo.Math_random_36
                     Demo.JSON_stringify parse_saved
                     (localStorage saved_store))
    = conversations saved_store
  ∧ activeConversationId (appStart Demo.Date_now Demo.Math_random_36
                            Demo.JSON_stringify parse_saved
                            (localStorage saved_store))
    = Some (js "c1").
Proof.
  destruct saved_store_facts as (Hp & Hne & Hrt & Ha & Hane & Hin).
  split; [exact Hp|].
  exact (save_load_round_trip Demo.Date_now Demo.Math_random_36
           Demo.JSON_stringify parse_saved saved_store (js "c1")
           Hp Hne Hrt Ha Hane Hin).
Defined.

Lemma switch_lost_on_reload_witness :
  activeConversationId (switchConversation (js "zz") saved_store)
  = Some (js "zz")
  ∧ activeConversationId
      (appStart Demo.Date_now Demo.Math_random_36 Demo.JSON_stringify
         parse_saved (localStorage (switchConversation (js "zz") saved_store)))
    = Some (js "c1").
Proof.
  destruct saved_store_facts as (Hp & Hne & Hrt & Ha & Hane & Hin).
  split; [reflexivity|].
  exact (proj2 (switch_lost_on_reload Demo.Date_now Demo.Math_random_36
                  Demo.JSON_stringify parse_saved saved_store (js "c1")
                  (js "zz") Hp Hne Hrt Ha Hane Hin)).
Defined.

Lemma appStart_has_active_witness :
  localStorage saved_store !! key_conversations
  = Some (Demo.JSON_stringify (conversations demo_store))
  ∧ parse_saved (Demo.JSON_stringify (conversations demo_store))
    = Some (conversations demo_store)
  ∧ ids_nonempty (conversations demo_store)
  ∧ ∃ c, activeConversation
           (appStart Demo.Date_now Demo.Math_random_36 Demo.JSON_stringify
              parse_saved (localStorage saved_store)) = Some c
         ∧ Conversation.id c = js "c1".
Proof.
  assert (Hl : localStorage saved_store !! key_conversations
               = Some (Demo.JSON_stringify (conversations demo_store)))
    by (vm_compute; reflexivity).
  assert (Hne : Demo.JSON_stringify (conversations demo_store) ≠ [])
    by (vm_compute; discriminate).
  assert (Hp : parse_saved (Demo.JSON_stringify (conversations demo_store))
               = Some (conversations demo_store))
    by (vm_compute; reflexivity).
  assert (Hids : ids_nonempty (conversations demo_store))
    by (repeat constructor; vm_compute; discriminate).
  split_and!; [exact Hl | exact Hp | exact Hids |].
  destruct (proj2 (appStart_has_active Demo.Date_now Demo.Math_random_36
                     Demo.JSON_stringify parse_saved
                     (localStorage saved_store))
              _ _ Hl Hne Hp Hids) as (c & Hc & Hid & _).
  exists c. split; [exact Hc|].
  vm_compute in Hid. injection Hid as Hid. symmetry. exact Hid.
Defined.

Lemma appStart_corrupt_storage_witness :
  let ls : gmap jsstring jsstring := {[ key_conversations := js "{oops" ]} in
  let s := appStart Demo.Date_now Demo.Math_random_36 Demo.JSON_stringify
             parse_saved ls in
  ls !! key_conversations = Some (js "{oops")
  ∧ parse_saved (js "{oops") = None
  ∧ console s = [LogLoadFailed]
  ∧ length (conversations s) = 1%nat.
Proof.
  intros ls s.
  assert (Hl : ls !! key_conversations = Some (js "{oops"))
    by (vm_compute; reflexivity).
  assert (Hne : js "{oops" ≠ []) by (vm_compute; discriminate).
  assert (Hp : parse_saved (js "{oops") = None) by (vm_compute; reflexivity).
  destruct (appStart_corrupt_storage Demo.Date_now Demo.Math_random_36
              Demo.JSON_stringify parse_saved ls (js "{oops") Hl Hne Hp)
    as (Hlog & fresh & Hcs & _).
  split_and!; [exact Hl | exact Hp | exact Hlog |].
  subst s. by rewrite Hcs.
Defined.

Lemma deleteConversation_keeps_active_witness :
  ids_nonempty (conversations two_conversations)
  ∧ is_Some (activeConversation two_conversations)
  ∧ is_Some (activeConversation
               (deleteConversation Demo.Date_now Demo.Math_random_36
                  Demo.JSON_stringify (js "a") two_conversations)).
Proof.
  assert (Hne : ids_nonempty (conversations two_conversations))
    by (repeat constructor; vm_compute; discriminate).
  assert (Hact : is_Some (activeConversation two_conversations))
    by (eexists; vm_compute; reflexivity).
  split_and!; [exact Hne | exact Hact |].
  exact (deleteConversation_keeps_active Demo.Date_now Demo.Math_random_36
           Demo.JSON_stringify (js "a") two_conversations Hne Hact).
Defined.

Lemma blank_content_not_sent_witness :
  blank [32; 10; 9]%N
  ∧ demo_exchange None (Demo.stream [Demo.answer]) [32; 10; 9]%N demo_store
    = (demo_store, [], Fulfilled).
Proof.
  assert (H : blank [32; 10; 9]%N) by (repeat constructor).
  split; [exact H|].
  exact (proj1 (blank_content_not_sent Demo.Date_now Demo.Math_random_36
                  Demo.JSON_stringify Demo.JSON_parse Demo.TypeError_reading
                  Demo.abort_message None (Demo.stream [Demo.answer])
                  [32; 10; 9]%N demo_store H)).
Defined.


Lemma ignored_line_irrelevant_witness :
  ignored_line done_mark
  ∧ demo_run Demo.silent (respond think_done_answer) [] tt
    = demo_run Demo.silent (respond think_answer) [] tt.
Proof.
  assert (Hig : ignored_line done_mark)
    by (right; right; right; vm_compute; reflexivity).
  split; [exact Hig|].
  apply (ignored_line_irrelevant Demo.JSON_parse Demo.TypeError_reading
           Demo.abort_message Demo.silent (respond think_answer)
           (respond think_done_answer) [] tt think_answer think_done_answer
           [Demo.think] [Demo.answer] done_mark []).
  - eexists. split_and!; reflexivity.
  - eexists. split_and!; reflexivity.
  - repeat constructor; apply (bool_decide_unpack _); vm_compute; exact I.
  - apply not_elem_of_nil.
  - vm_compute. reflexivity.
  - vm_compute. reflexivity.
  - exact Hig.
  - reflexivity.
Defined.

Lemma addMessage_lookup_witness :
  list_find (conv_has_id (js "c1")) (conversations demo_store)
  = Some (0%nat, Demo.conv "c1" [Demo.msg "m1" user "hello"])
  ∧ ∃ m s',
      addMessage Demo.Date_now Demo.Math_random_36 Demo.JSON_stringify
        (js "c1") (PartialMessage.mk assistant [] (Some true) None) demo_store
      = (Some m, s')
      ∧ findMessage (js "c1") (Message.id m) s' = Some m.
Proof.
  assert (Hf : list_find (conv_has_id (js "c1")) (conversations demo_store)
               = Some (0%nat, Demo.conv "c1" [Demo.msg "m1" user "hello"]))
    by (vm_compute; reflexivity).
  split; [exact Hf|].
  destruct (addMessage_lookup Demo.Date_now Demo.Math_random_36
              Demo.JSON_stringify (js "c1")
              (PartialMessage.mk assistant [] (Some true) None) demo_store
              0%nat (Demo.conv "c1" [Demo.msg "m1" user "hello"]) Hf)
    as (m & s' & Heq & Hfresh & _).
  exists m, s'. split; [exact Heq|]. apply Hfresh.
  vm_compute in Heq. injection Heq as <- <-.
  repeat constructor. vm_compute. discriminate.
Defined.


(** The setup of the exchanges of the examples: a first message in an empty
    store. *)
Lemma demo_setup_found (content : jsstring) cid ai s3 :
  demo_setup content (Demo.store [] None) = (cid, Some ai, s3) →
  findMessage cid (Message.id ai) s3 = Some ai.
Proof.
  intros Hsetup. vm_compute in Hsetup. injection Hsetup as <- <- <-.
  vm_compute. reflexivity.
Defined.

Lemma exchange_normal_end_witness :
  trim (js "Hi") ≠ []
  ∧ normal_end (Demo.stream [Demo.think; Demo.answer])
  ∧ ∃ s' tr m,
      demo_exchange None (Demo.stream [Demo.think; Demo.answer]) (js "Hi")
        (Demo.store [] None) = (s', tr, Fulfilled)
      ∧ isLoading s' = false ∧ isStreaming s' = false
      ∧ Message.content m = chunk_text tr
      ∧ default [] (Message.reasoningContent m) = reasoning_text tr
      ∧ Message.isStreaming m = Some false.
Proof.
  assert (Hne : trim (js "Hi") ≠ []) by (vm_compute; discriminate).
  assert (Hnet : normal_end (Demo.stream [Demo.think; Demo.answer]))
    by (eexists _, _; split_and!; reflexivity).
  split_and!; [exact Hne | exact Hnet |].
  destruct (demo_setup (js "Hi") (Demo.store [] None)) as [[cid [ai|]] s3]
    eqn:Hsetup; [|vm_compute in Hsetup; discriminate Hsetup].
  destruct (exchange_normal_end Demo.Date_now Demo.Math_random_36
              Demo.JSON_stringify Demo.JSON_parse Demo.TypeError_reading
              Demo.abort_message (js "Hi") (Demo.store [] None) cid ai s3
              (Demo.stream [Demo.think; Demo.answer]) Hne Hsetup
              (demo_setup_found (js "Hi") cid ai s3 Hsetup) Hnet)
    as (s' & tr & m & Heq & Hl & Hst & _ & Hc & Hrc & Hs).
  exists s', tr, m. split_and!; assumption.
Defined.

Lemma completion_not_saved_witness :
  trim (js "Hi") ≠ []
  ∧ normal_end (Demo.stream [Demo.think; Demo.answer])
  ∧ ∃ s' tr saved m,
      demo_exchange None (Demo.stream [Demo.think; Demo.answer]) (js "Hi")
        (Demo.store [] None) = (s', tr, Fulfilled)
      ∧ localStorage s' = localStorage saved
      ∧ persisted Demo.JSON_stringify saved
      ∧ Message.content m = chunk_text tr
      ∧ Message.isStreaming m = Some true.
Proof.
  assert (Hne : trim (js "Hi") ≠ []) by (vm_compute; discriminate).
  assert (Hnet : normal_end (Demo.stream [Demo.think; Demo.answer]))
    by (eexists _, _; split_and!; reflexivity).
  split_and!; [exact Hne | exact Hnet |].
  destruct (demo_setup (js "Hi") (Demo.store [] None)) as [[cid [ai|]] s3]
    eqn:Hsetup; [|vm_compute in Hsetup; discriminate Hsetup].
  destruct (completion_not_saved Demo.Date_now Demo.Math_random_36
              Demo.JSON_stringify Demo.JSON_parse Demo.TypeError_reading
              Demo.abort_message (js "Hi") (Demo.store [] None) cid ai s3
              (Demo.stream [Demo.think; Demo.answer]) Hne Hsetup
              (demo_setup_found (js "Hi") cid ai s3 Hsetup) Hnet)
    as (s' & tr & saved & m & Heq & Hls & Hp & _ & Hc & Hs).
  exists s', tr, saved, m. split_and!; assumption.
Defined.

Lemma exchange_failure_witness :
  trim (js "Hi") ≠ []
  ∧ failure_path Demo.abort_message status_500
      (ThrowError (new_Error (js "HTTP " ++ ToString_Z 500 ++ js ": "
                              ++ js "oops")))
  ∧ ∃ s' tr m,
      demo_exchange None status_500 (js "Hi") (Demo.store [] None)
      = (s', tr, Fulfilled)
      ∧ isLoading s' = false ∧ isStreaming s' = false
      ∧ Message.content m = errorTemplate (new_Error (js "HTTP 500: oops"))
      ∧ Message.isStreaming m = Some false.
Proof.
  assert (Hne : trim (js "Hi") ≠ []) by (vm_compute; discriminate).
  assert (Hfp : failure_path Demo.abort_message status_500
                  (ThrowError (new_Error (js "HTTP " ++ ToString_Z 500
                                          ++ js ": " ++ js "oops")))).
  { apply (fp_status Demo.abort_message status_500
             (mkResponse false 500 (Normal (js "oops")) None) (js "oops"));
      reflexivity. }
  split_and!; [exact Hne | exact Hfp |].
  destruct (demo_setup (js "Hi") (Demo.store [] None)) as [[cid [ai|]] s3]
    eqn:Hsetup; [|vm_compute in Hsetup; discriminate Hsetup].
  destruct (exchange_failure Demo.Date_now Demo.Math_random_36
              Demo.JSON_stringify Demo.JSON_parse Demo.TypeError_reading
              Demo.abort_message (js "Hi") (Demo.store [] None) cid ai s3
              status_500 _ Hne Hsetup
              (demo_setup_found (js "Hi") cid ai s3 Hsetup) Hfp)
    as (s' & tr & m & Heq & Hl & Hst & _ & _ & Hc & Hs).
  exists s', tr, m. split_and!; assumption.
Defined.

Lemma loading_never_reset_witness :
  trim (js "Hi") ≠ []
  ∧ stalls stalled
  ∧ ∃ s' tr,
      demo_exchange None stalled (js "Hi") (Demo.store [] None)
      = (s', tr, Pending)
      ∧ isLoading s' = true ∧ isStreaming s' = true
      ∧ handleSend Demo.Date_now Demo.Math_random_36 Demo.JSON_stringify
          Demo.JSON_parse Demo.TypeError_reading Demo.abort_message
          None (Demo.stream [Demo.answer]) (mkChatView (js "again") s')
        = (mkChatView (js "again") s', [], Fulfilled).
Proof.
  assert (Hne : trim (js "Hi") ≠ []) by (vm_compute; discriminate).
  assert (Hnet : stalls stalled)
    by (eexists _, _; split_and!; reflexivity).
  split_and!; [exact Hne | exact Hnet |].
  destruct (demo_setup (js "Hi") (Demo.store [] None)) as [[cid [ai|]] s3]
    eqn:Hsetup; [|vm_compute in Hsetup; discriminate Hsetup].
  destruct (loading_never_reset Demo.Date_now Demo.Math_random_36
              Demo.JSON_stringify Demo.JSON_parse Demo.TypeError_reading
              Demo.abort_message (js "Hi") (Demo.store [] None) cid ai s3
              stalled Hne Hsetup
              (demo_setup_found (js "Hi") cid ai s3 Hsetup) (or_introl Hnet))
    as (s' & tr & c & Heq & Hpending & _ & (_ & Hl & Hst) & Hsend).
  exists s', tr. rewrite (Hpending Hnet) in Heq.
  split_and!; [exact Heq | exact Hl | exact Hst | apply Hsend].
Defined.

Lemma promise_of_service_witness :
  failure_path Demo.abort_message Demo.no_response
    (ThrowError (AbortError Demo.abort_message))
  ∧ (∃ r0 : Run unit,
       trace (demo_run Demo.silent Demo.no_response [] tt).1
       = trace r0 ++ [ClearTimeout; Log_aborted;
                      Call_onError (new_Error msg_timeout)]
       ∧ (demo_run Demo.silent Demo.no_response [] tt).2 = Fulfilled)
  ∧ stalls stalled
  ∧ (demo_run Demo.silent stalled [] tt).2 = Pending.
Proof.
  assert (Hfp : failure_path Demo.abort_message Demo.no_response
                  (ThrowError (AbortError Demo.abort_message))).
  { apply fp_timeout. vm_compute. discriminate. }
  assert (Hstall : stalls stalled) by (eexists _, _; split_and!; reflexivity).
  split_and!; [exact Hfp | | exact Hstall |].
  - destruct (proj1 (proj2 (proj2
                (promise_of_service Demo.JSON_parse Demo.TypeError_reading
                   Demo.abort_message Demo.silent Demo.no_response [] tt)))
                (AbortError Demo.abort_message) (λ _ st, (st, None)) Hfp
                eq_refl)
      as (r0 & _ & Htr & _ & Hc).
    exists r0. split; [exact Htr | exact Hc].
  - exact (proj1 (promise_of_service Demo.JSON_parse Demo.TypeError_reading
                    Demo.abort_message Demo.silent stalled [] tt) Hstall).
Defined.

Lemma addMessage_title_kept_witness :
  list_find (conv_has_id (js "c1")) (conversations demo_store)
  = Some (0%nat, Demo.conv "c1" [Demo.msg "m1" user "hello"])
  ∧ ∃ c',
      list_find (conv_has_id (js "c1"))
        (conversations
           (addMessage Demo.Date_now Demo.Math_random_36 Demo.JSON_stringify
              (js "c1") (PartialMessage.mk user (js "a new title?") None None)
              demo_store).2) = Some (0%nat, c')
      ∧ Conversation.title c' = js "c1".
Proof.
  assert (Hf : list_find (conv_has_id (js "c1")) (conversations demo_store)
               = Some (0%nat, Demo.conv "c1" [Demo.msg "m1" user "hello"]))
    by (vm_compute; reflexivity).
  split; [exact Hf|].
  destruct (addMessage_title_kept Demo.Date_now Demo.Math_random_36
              Demo.JSON_stringify (js "c1")
              (PartialMessage.mk user (js "a new title?") None None)
              demo_store 0%nat
              (Demo.conv "c1" [Demo.msg "m1" user "hello"]) Hf)
    as (c' & Hf' & Ht & _).
  { left. simpl. discriminate. }
  exists c'. split; [exact Hf' | exact Ht].
Defined.

Lemma exchange_frame_witness :
  trim (js "Hi") ≠ []
  ∧ findMessage (js "c1") (js "m1")
      (demo_exchange None (Demo.stream [Demo.think; Demo.answer]) (js "Hi")
         demo_store).1.1
    = Some (Demo.msg "m1" user "hello").
Proof.
  assert (Hne : trim (js "Hi") ≠ []) by (vm_compute; discriminate).
  split; [exact Hne|].
  destruct (demo_setup (js "Hi") demo_store) as [[cid [ai|]] s3]
    eqn:Hsetup; [|vm_compute in Hsetup; discriminate Hsetup].
  destruct (exchange_frame Demo.Date_now Demo.Math_random_36
              Demo.JSON_stringify Demo.JSON_parse Demo.TypeError_reading
              Demo.abort_message None (Demo.stream [Demo.think; Demo.answer])
              (js "Hi") demo_store cid ai s3 Hne Hsetup) as (Hothers & _).
  rewrite Hothers.
  - vm_compute in Hsetup. injection Hsetup as <- <- <-. vm_compute. reflexivity.
  - vm_compute in Hsetup. injection Hsetup as <- <- <-. vm_compute. discriminate.
Defined.

Lemma usage_frame_only_logged_witness :
  let r := mkRun false tt [] in
  parse_frames (trim (drop 6 (trim usage_line))) = Normal usage_frame
  ∧ own_property (js "usage") usage_fields
    = VObject [(js "total_tokens", VNumber true (js "7"))]
  ∧ process_line parse_frames Demo.TypeError_reading Demo.silent usage_line r
    = emit (Log_usage (own_property (js "usage") usage_fields)) r.
Proof.
  intros r.
  assert (Hp : parse_frames (trim (drop 6 (trim usage_line)))
               = Normal usage_frame) by (vm_compute; reflexivity).
  split_and!; [exact Hp | vm_compute; reflexivity |].
  apply (usage_frame_only_logged parse_frames Demo.TypeError_reading
           Demo.silent usage_line (trim (drop 6 (trim usage_line)))
           usage_fields r).
  - vm_compute. reflexivity.
  - reflexivity.
  - vm_compute. discriminate.
  - exact Hp.
  - vm_compute. reflexivity.
Defined.

Lemma frame_without_delta_reported_witness :
  let r := mkRun false tt [] in
  parse_frames (trim (drop 6 (trim bare_choice_line))) = Normal bare_choice_frame
  ∧ process_line parse_frames Demo.TypeError_reading Demo.silent
      bare_choice_line r
    = emit (Error_parse
              (ThrowError (Demo.TypeError_reading p_reasoning_content))
              (trim (drop 6 (trim bare_choice_line)))) r.
Proof.
  intros r.
  assert (Hp : parse_frames (trim (drop 6 (trim bare_choice_line)))
               = Normal bare_choice_frame) by (vm_compute; reflexivity).
  split; [exact Hp|].
  apply (frame_without_delta_reported parse_frames Demo.TypeError_reading
           Demo.silent bare_choice_line
           (trim (drop 6 (trim bare_choice_line)))
           [(js "choices", VArray [VObject []])] [] [] r).
  - vm_compute. reflexivity.
  - reflexivity.
  - vm_compute. discriminate.
  - exact Hp.
  - vm_compute. reflexivity.
  - vm_compute. reflexivity.
  - vm_compute. reflexivity.
Defined.
